(** * WatchFlixx API gateway: resilience and routing layer

    A shallow embedding of the gateway's circuit breaker
    ([gateway/src/services/circuitBreaker.ts]), load balancer and proxy
    wrapper ([gateway/src/services/loadBalancer.ts] and the proxy service
    that follows it), Redis rate-limit store
    ([gateway/src/middleware/rateLimit.ts]), monitoring service and health
    routes, with the properties the gateway specification states about
    them and further properties of the code.

    Conventions of the embedding.
    - A JavaScript [number] that only ever holds an integer (counters,
      millisecond timestamps, HTTP status codes, array lengths) is a [Z];
      such values stay below 2^53, where binary64 arithmetic on integers is
      exact.
    - A [number] that can be fractional (weights, ratios, percentages,
      response times, the random draw) is the exact rational value of a
      binary64 number, a [Q].  Every addition, subtraction, multiplication
      and division of such numbers is rounded as IEEE 754 binary64 rounds
      it, by [Binary64.fl]: to the nearest number with a 53-bit
      significand, ties to the even one.  Overflow and subnormal numbers
      are not modelled: the quantities of the gateway are far from both.
      Comparisons, [Math.max], [Math.min], [Math.round], [Math.ceil] and
      [Math.floor] are exact on binary64 numbers and are taken exactly.
      Two products are taken exactly as well, and are marked where they
      stand: the one under [Math.floor] in the random strategy and the one
      under [Math.ceil] in the rate-limit store.
    - [undefined] and [null] are [None]; a [NaN] result is [None] too, where
      the function says so.
    - Mutable objects are passed and returned explicitly.  A [Date.now()]
      or [new Date()] read is an explicit millisecond argument of the
      method that performs it.
    - An asynchronous callback is a function on a world [W]: calling it
      yields its outcome and the world it leaves behind.  Where a method
      awaits such a callback, its clock reads are taken from the world
      through a [clock] observation; time passes only across the call. *)

From Stdlib Require Import ZArith QArith Qround Qminmax Qpower String Ascii List Bool Lia.
From Stdlib Require Import DecimalString Lqa Permutation Sorted.
From Stdlib Require Import Floats.SpecFloat.
From stdpp Require Import gmap strings.
Import ListNotations.

Local Open Scope Z_scope.

(** ** JavaScript primitives used by the gateway *)

Module JS.

(** [Math.round]: the nearest integer, halves towards plus infinity. *)
Definition Math_round (x : Q) : Z := Qfloor (x + (1 # 2))%Q.

(** [Math.ceil] and [Math.floor]. *)
Definition Math_ceil (x : Q) : Z := Qceiling x.
Definition Math_floor (x : Q) : Z := Qfloor x.

(** [s.includes(sub)]: [sub] occurs in [s] as a contiguous substring. *)
Fixpoint includes (s sub : string) : bool :=
  if String.prefix sub s then true
  else match s with
       | EmptyString => false
       | String _ rest => includes rest sub
       end.

(** The methods every plain object inherits from [Object.prototype]:
    reading one of these names on an object that has no property of its
    own under it yields the inherited function, and assigning to it gives
    the object a property of its own.  [__proto__] is inherited as well,
    as an accessor: reading it yields the prototype of the object, and
    assigning to it replaces the prototype when the value is an object and
    does nothing when it is a primitive; either way the object gets no
    property of its own. *)
Definition objectPrototypeMethods : list string :=
  ["constructor"; "__defineGetter__"; "__defineSetter__"; "hasOwnProperty";
   "__lookupGetter__"; "__lookupSetter__"; "isPrototypeOf"; "propertyIsEnumerable";
   "toString"; "valueOf"; "toLocaleString"]%string.

Definition isObjectPrototypeMethod (name : string) : bool :=
  existsb (String.eqb name) objectPrototypeMethods.


(** [a || b] on numbers: [b] replaces an absent or zero [a]. *)
Definition or_default (a : option Z) (b : Z) : Z :=
  match a with
  | Some v => if v =? 0 then b else v
  | None => b
  end.

(** Template-literal rendering of an integer. *)
Definition show_int (n : Z) : string := NilZero.string_of_int (Z.to_int n).

(** An [Error] object: its message, and the [code] and upstream
    [response.status] that transport errors carry. *)
Record Error := mkError {
  message : string;
  code : option string;
  response_status : option Z
}.

Definition new_Error (msg : string) : Error := mkError msg None None.

End JS.

Import JS.

(** ** Binary64 arithmetic of JavaScript numbers *)

Module Binary64.

(** The integer nearest to [x], the even one of two that are equally
    near. *)
Definition roundHalfEven (x : Q) : Z :=
  let f := Qfloor x in
  match Qcompare (x - inject_Z f) (1 # 2) with
  | Lt => f
  | Gt => f + 1
  | Eq => if Z.even f then f else f + 1
  end.

(** For a positive [x], the exponent [k] with [2^k <= x < 2^(k+1)]. *)
Definition ilog2 (x : Q) : Z :=
  let k := Z.log2 (Qnum x) - Z.log2 (Zpos (Qden x)) in
  if Qle_bool (2 ^ k) x then k else k - 1.

(** A positive [x] rounded to 53 significant bits: scaled so that it has
    53 bits before the point, rounded to an integer, and scaled back. *)
Definition roundPositive (x : Q) : Q :=
  let e := ilog2 x - 52 in
  (inject_Z (roundHalfEven (x / 2 ^ e)) * 2 ^ e)%Q.

(** The binary64 number nearest to [x], in lowest terms. *)
Definition fl (x : Q) : Q :=
  Qred (match Qcompare x 0 with
        | Eq => 0
        | Gt => roundPositive x
        | Lt => - roundPositive (- x)
        end)%Q.

(** [a + b], [a - b], [a * b] and [a / b] on numbers. *)
Definition add (a b : Q) : Q := fl (a + b).
Definition sub (a b : Q) : Q := fl (a - b).
Definition mul (a b : Q) : Q := fl (a * b).
Definition div (a b : Q) : Q := fl (a / b).

(** The largest relative error of one rounding, 2^-53. *)
Definition epsilon : Q := 1 # 9007199254740992.

(** The same operations in the Standard Library's specification of
    IEEE 754 arithmetic, on binary64 numbers given as quotients of two
    integers; used to check [fl] against it. *)
Definition ofZ (z : Z) : spec_float := binary_normalize 53 1024 z 0 false.

Definition ofQ (q : Q) : spec_float := SFdiv 53 1024 (ofZ (Qnum q)) (ofZ (Zpos (Qden q))).

Definition toQ (f : spec_float) : option Q :=
  match f with
  | S754_zero _ => Some 0%Q
  | S754_finite s m e =>
      Some (Qred ((if s then - inject_Z (Zpos m) else inject_Z (Zpos m)) * 2 ^ e))%Q
  | S754_infinity _ | S754_nan => None
  end.

End Binary64.

(** ** Gateway configuration ([gateway/src/config/index.ts]) *)

Record CircuitBreakerConfig := {
  cfg_threshold : Z;
  cfg_timeout : Z;
  cfg_resetTimeout : Z
}.

(** The values used when the environment sets nothing. *)
Definition default_circuitBreaker_config : CircuitBreakerConfig :=
  {| cfg_threshold := 5; cfg_timeout := 60000; cfg_resetTimeout := 30000 |}.

(** ** Circuit breaker ([gateway/src/services/circuitBreaker.ts]) *)

Module CircuitBreaker.

Inductive CircuitState := CLOSED | OPEN | HALF_OPEN.

Definition CircuitState_eqb (a b : CircuitState) : bool :=
  match a, b with
  | CLOSED, CLOSED | OPEN, OPEN | HALF_OPEN, HALF_OPEN => true
  | _, _ => false
  end.

(** [Required<CircuitBreakerOptions>] *)
Record CircuitBreakerOptions := {
  threshold : Z;
  timeout : Z;
  resetTimeout : Z;
  monitoringPeriod : Z;
  expectedErrors : list string
}.

(** [Partial<CircuitBreakerOptions>] *)
Record PartialOptions := {
  p_threshold : option Z;
  p_timeout : option Z;
  p_resetTimeout : option Z;
  p_monitoringPeriod : option Z;
  p_expectedErrors : option (list string)
}.

Definition no_options : PartialOptions :=
  {| p_threshold := None; p_timeout := None; p_resetTimeout := None;
     p_monitoringPeriod := None; p_expectedErrors := None |}.

Record t := mk {
  serviceName : string;
  options : CircuitBreakerOptions;
  state : CircuitState;
  failureCount : Z;
  lastFailureTime : option Z;
  nextRetryTime : option Z;
  successCount : Z
}.

(** The constructor: field initialisers, then the merged options. *)
Definition new (cfg : CircuitBreakerConfig) (name : string) (o : PartialOptions) : t :=
  {| serviceName := name;
     options :=
       {| threshold := or_default (p_threshold o) (cfg_threshold cfg);
          timeout := or_default (p_timeout o) (cfg_timeout cfg);
          resetTimeout := or_default (p_resetTimeout o) (cfg_resetTimeout cfg);
          monitoringPeriod := or_default (p_monitoringPeriod o) 60000;
          expectedErrors := match p_expectedErrors o with Some l => l | None => [] end |};
     state := CLOSED;
     failureCount := 0;
     lastFailureTime := None;
     nextRetryTime := None;
     successCount := 0 |}.

Definition set_state (s : CircuitState) (cb : t) : t :=
  mk (serviceName cb) (options cb) s (failureCount cb) (lastFailureTime cb)
     (nextRetryTime cb) (successCount cb).

Definition set_failureCount (n : Z) (cb : t) : t :=
  mk (serviceName cb) (options cb) (state cb) n (lastFailureTime cb)
     (nextRetryTime cb) (successCount cb).

Definition set_lastFailureTime (d : option Z) (cb : t) : t :=
  mk (serviceName cb) (options cb) (state cb) (failureCount cb) d
     (nextRetryTime cb) (successCount cb).

Definition set_nextRetryTime (d : option Z) (cb : t) : t :=
  mk (serviceName cb) (options cb) (state cb) (failureCount cb) (lastFailureTime cb)
     d (successCount cb).

Definition set_successCount (n : Z) (cb : t) : t :=
  mk (serviceName cb) (options cb) (state cb) (failureCount cb) (lastFailureTime cb)
     (nextRetryTime cb) n.

(** [open()]; [now] is its [Date.now()] read. *)
Definition open (now : Z) (cb : t) : t :=
  set_nextRetryTime (Some (now + resetTimeout (options cb))) (set_state OPEN cb).

(** [reset()] *)
Definition reset (cb : t) : t :=
  set_nextRetryTime None
    (set_lastFailureTime None
       (set_successCount 0 (set_failureCount 0 (set_state CLOSED cb)))).

(** [shouldAttemptReset()]; [now] is its [new Date()] read. *)
Definition shouldAttemptReset (now : Z) (cb : t) : bool :=
  match nextRetryTime cb with
  | Some retryAt => retryAt <=? now
  | None => false
  end.

(** [onSuccess()] *)
Definition onSuccess (cb : t) : t :=
  let cb := set_successCount (successCount cb + 1) cb in
  match state cb with
  | HALF_OPEN => reset cb
  | CLOSED => set_failureCount 0 cb
  | OPEN => cb
  end.

Definition isExpectedError (cb : t) (error : Error) : bool :=
  existsb (fun expectedError => includes (message error) expectedError)
          (expectedErrors (options cb)).

(** [onFailure(error)]; [tFail] is the [new Date()] read that stamps
    [lastFailureTime], [tOpen] the [Date.now()] read inside [open()]. *)
Definition onFailure (error : Error) (tFail tOpen : Z) (cb : t) : t :=
  if isExpectedError cb error then cb
  else
    let cb := set_failureCount (failureCount cb + 1) cb in
    let cb := set_lastFailureTime (Some tFail) cb in
    match state cb with
    | HALF_OPEN => open tOpen cb
    | CLOSED => if threshold (options cb) <=? failureCount cb then open tOpen cb else cb
    | OPEN => cb
    end.

Definition open_error (cb : t) : Error :=
  new_Error ("Circuit breaker is OPEN for " +:+ serviceName cb).

(** The guard at the head of [execute]: in state OPEN the call is either
    let through in state HALF_OPEN or refused. *)
Definition guard (now : Z) (cb : t) : Error + t :=
  match state cb with
  | OPEN => if shouldAttemptReset now cb then inr (set_state HALF_OPEN cb)
            else inl (open_error cb)
  | _ => inr cb
  end.

Section Execute.

Context {W T : Type}.
(** The wall clock of a world, in milliseconds. *)
Variable clock : W -> Z.

(** [execute(fn)].  The clock is read in the world the call starts in and,
    on failure, in the world [fn] has left. *)
Definition execute (fn : W -> (Error + T) * W) (cb : t) (w : W)
  : (Error + T) * t * W :=
  match guard (clock w) cb with
  | inl rejected => (inl rejected, cb, w)
  | inr cb1 =>
      let '(outcome, w1) := fn w in
      match outcome with
      | inr result => (inr result, onSuccess cb1, w1)
      | inl error => (inl error, onFailure error (clock w1) (clock w1) cb1, w1)
      end
  end.

(** Calls issued one after the other against the same breaker. *)
Fixpoint executeAll (fns : list (W -> (Error + T) * W)) (cb : t) (w : W) : t * W :=
  match fns with
  | [] => (cb, w)
  | fn :: rest =>
      let '(_, cb1, w1) := execute fn cb w in executeAll rest cb1 w1
  end.

(** A call that fails, in whatever world it starts, with an error the
    breaker's allow-list does not match. *)
Definition failsUnexpectedly (cb : t) (fn : W -> (Error + T) * W) : Prop :=
  forall w, exists error, fst (fn w) = inl error /\ isExpectedError cb error = false.

End Execute.

(** [calculateUptime()] *)
Definition calculateUptime (cb : t) : Q :=
  let totalCalls := failureCount cb + successCount cb in
  if totalCalls =? 0 then 100%Q
  else Binary64.mul (Binary64.div (inject_Z (successCount cb)) (inject_Z totalCalls)) 100.

Record Metrics := {
  m_serviceName : string;
  m_state : CircuitState;
  m_failureCount : Z;
  m_successCount : Z;
  m_lastFailureTime : option Z;
  m_nextRetryTime : option Z;
  m_uptime : Q
}.

(** [getMetrics()] *)
Definition getMetrics (cb : t) : Metrics :=
  {| m_serviceName := serviceName cb;
     m_state := state cb;
     m_failureCount := failureCount cb;
     m_successCount := successCount cb;
     m_lastFailureTime := lastFailureTime cb;
     m_nextRetryTime := nextRetryTime cb;
     m_uptime := calculateUptime cb |}.

(** [forceOpen()] and [forceClose()] *)
Definition forceOpen (now : Z) (cb : t) : t :=
  set_nextRetryTime (Some (now + resetTimeout (options cb))) (set_state OPEN cb).

Definition forceClose (cb : t) : t := reset cb.

(** [CircuitBreakerState] of [gateway/src/types/index.ts] *)
Record CircuitBreakerState := {
  s_state : CircuitState;
  s_failureCount : Z;
  s_lastFailureTime : option Z;
  s_nextRetryTime : option Z
}.

(** [getState()] *)
Definition getState (cb : t) : CircuitBreakerState :=
  {| s_state := state cb;
     s_failureCount := failureCount cb;
     s_lastFailureTime := lastFailureTime cb;
     s_nextRetryTime := nextRetryTime cb |}.

(** [isOpen()], [isClosed()], [isHalfOpen()] *)
Definition isOpen (cb : t) : bool := CircuitState_eqb (state cb) OPEN.
Definition isClosed (cb : t) : bool := CircuitState_eqb (state cb) CLOSED.
Definition isHalfOpen (cb : t) : bool := CircuitState_eqb (state cb) HALF_OPEN.

(** What the fields of a breaker satisfy between two method calls: the
    counters are not negative, a retry time is set exactly when the
    breaker is not CLOSED, and a CLOSED breaker with a positive threshold
    has counted fewer failures than the threshold. *)
Definition consistent (cb : t) : Prop :=
  0 <= failureCount cb /\
  0 <= successCount cb /\
  (state cb = CLOSED -> nextRetryTime cb = None) /\
  (state cb <> CLOSED -> nextRetryTime cb <> None) /\
  (state cb = CLOSED -> 1 <= threshold (options cb) ->
   failureCount cb < threshold (options cb)).

End CircuitBreaker.

(** ** Circuit-breaker manager (the [CircuitBreakerManager] class) *)

Module CircuitBreakerManager.

(** [getCircuitBreaker(serviceName, options)]: the breaker of the service,
    created and registered on the first request for that name.  The
    manager is the map [circuitBreakers]. *)
Definition getCircuitBreaker (cfg : CircuitBreakerConfig) (serviceName : string)
    (options : option CircuitBreaker.PartialOptions)
    (circuitBreakers : gmap string CircuitBreaker.t)
  : CircuitBreaker.t * gmap string CircuitBreaker.t :=
  match circuitBreakers !! serviceName with
  | Some circuitBreaker => (circuitBreaker, circuitBreakers)
  | None =>
      let circuitBreaker :=
        CircuitBreaker.new cfg serviceName
          (match options with Some o => o | None => CircuitBreaker.no_options end) in
      (circuitBreaker, <[serviceName := circuitBreaker]> circuitBreakers)
  end.

(** [getAllStates()]: the plain object [states], as the map of its own
    properties.  A state is a string, so [states[serviceName] = ...] under
    the name [__proto__] goes to the accessor of [Object.prototype] and is
    dropped. *)
Definition getAllStates (circuitBreakers : gmap string CircuitBreaker.t)
  : gmap string CircuitBreaker.CircuitBreakerState :=
  map_fold (fun serviceName circuitBreaker states =>
              if String.eqb serviceName "__proto__" then states
              else <[serviceName := CircuitBreaker.getState circuitBreaker]> states)
           (∅ : gmap string CircuitBreaker.CircuitBreakerState)
           circuitBreakers.



(** [destroyAll()] *)
Definition destroyAll (circuitBreakers : gmap string CircuitBreaker.t)
  : gmap string CircuitBreaker.t := ∅.

(** The handler of [POST /circuit-breakers/:service/reset]: the breaker of
    the named service is fetched (and so created if there is none) and
    force-closed in place; the answer carries its state. *)
Definition resetRoute (cfg : CircuitBreakerConfig) (serviceName : string)
    (circuitBreakers : gmap string CircuitBreaker.t)
  : CircuitBreaker.CircuitBreakerState * gmap string CircuitBreaker.t :=
  let '(circuitBreaker, registered) := getCircuitBreaker cfg serviceName None circuitBreakers in
  let closed := CircuitBreaker.forceClose circuitBreaker in
  (CircuitBreaker.getState closed, <[serviceName := closed]> registered).

(** The handler of [POST /circuit-breakers/:service/open]; [now] is the
    clock read of [forceOpen]. *)
Definition openRoute (cfg : CircuitBreakerConfig) (now : Z) (serviceName : string)
    (circuitBreakers : gmap string CircuitBreaker.t)
  : CircuitBreaker.CircuitBreakerState * gmap string CircuitBreaker.t :=
  let '(circuitBreaker, registered) := getCircuitBreaker cfg serviceName None circuitBreakers in
  let opened := CircuitBreaker.forceOpen now circuitBreaker in
  (CircuitBreaker.getState opened, <[serviceName := opened]> registered).

End CircuitBreakerManager.

(** ** Load balancer ([gateway/src/services/loadBalancer.ts]) *)

Module LoadBalancer.

Inductive HealthStatus := healthy | unhealthy | unknown.

Definition HealthStatus_eqb (a b : HealthStatus) : bool :=
  match a, b with
  | healthy, healthy | unhealthy, unhealthy | unknown, unknown => true
  | _, _ => false
  end.

(** [ServiceHealth] of [gateway/src/types/index.ts] *)
Record ServiceHealth := {
  name : string;
  h_url : string;
  status : HealthStatus;
  responseTime : Z;
  lastChecked : Z;
  error : option string
}.

(** [ServiceInstance] of [gateway/src/types/index.ts] *)
Record ServiceInstance := {
  id : string;
  url : string;
  health : ServiceHealth;
  weight : Q;
  currentConnections : Z
}.

(** The four declared strategies; the configured string is cast to the
    type unchecked, so any other name can reach the [switch]. *)
Inductive LoadBalancingStrategy :=
  | round_robin
  | least_connections
  | weighted
  | random
  | undeclared (name : string).

Record LoadBalancerOptions := {
  strategy : LoadBalancingStrategy;
  healthCheckInterval : Z;
  healthCheckTimeout : Z;
  retryAttempts : Z;
  retryDelay : Z
}.

Record t := mk {
  serviceName : string;
  instances : list ServiceInstance;
  currentIndex : nat;
  options : LoadBalancerOptions
}.

Definition set_currentIndex (i : nat) (lb : t) : t :=
  mk (serviceName lb) (instances lb) i (options lb).

Definition set_instances (l : list ServiceInstance) (lb : t) : t :=
  mk (serviceName lb) l (currentIndex lb) (options lb).

Definition is_healthy (instance : ServiceInstance) : bool :=
  HealthStatus_eqb (status (health instance)) healthy.

(** [getHealthyInstances()] *)
Definition getHealthyInstances (lb : t) : list ServiceInstance :=
  List.filter is_healthy (instances lb).

(** [roundRobinSelection]: the array read, then the cursor update.  An
    array read outside the bounds gives [undefined]. *)
Definition roundRobinSelection (candidates : list ServiceInstance) (lb : t)
  : option ServiceInstance * t :=
  let instance := nth_error candidates (currentIndex lb mod length candidates)%nat in
  (instance, set_currentIndex ((currentIndex lb + 1) mod length candidates)%nat lb).

(** [leastConnectionsSelection]: [reduce] without an initial value starts
    from the first element and throws on an empty array. *)
Definition leastConnectionsSelection (candidates : list ServiceInstance)
  : option ServiceInstance :=
  match candidates with
  | [] => None
  | first :: rest =>
      Some (fold_left
              (fun prev current =>
                 if currentConnections prev <=? currentConnections current
                 then prev else current)
              rest first)
  end.

(** The [for] loop of [weightedSelection]. *)
Fixpoint weightedScan (remaining : Q) (candidates : list ServiceInstance)
  : option ServiceInstance :=
  match candidates with
  | [] => None
  | instance :: rest =>
      let remaining := Binary64.sub remaining (weight instance) in
      if Qle_bool remaining 0 then Some instance else weightedScan remaining rest
  end.

(** [weightedSelection]; [rand] is the [Math.random()] draw. *)
Definition weightedSelection (rand : Q) (candidates : list ServiceInstance)
  : option ServiceInstance :=
  let totalWeight :=
    fold_left (fun sum instance => Binary64.add sum (weight instance)) candidates 0%Q in
  match weightedScan (Binary64.mul rand totalWeight) candidates with
  | Some instance => Some instance
  | None => nth_error candidates 0
  end.

(** [randomSelection]; [rand] is the [Math.random()] draw.  The product
    under [Math.floor] is taken exactly: the rounded product of a
    binary64 draw below 1 and the length stays below the length as the
    exact one does, so the index is in range in both; which index is
    drawn can differ where the exact product is just below a whole
    number. *)
Definition randomSelection (rand : Q) (candidates : list ServiceInstance)
  : option ServiceInstance :=
  let randomIndex := Math_floor (rand * inject_Z (Z.of_nat (length candidates)))%Q in
  if randomIndex <? 0 then None else nth_error candidates (Z.to_nat randomIndex).

(** [getNextInstance()]: the selected instance, [None] for [null], and the
    balancer with its cursor as the call leaves it. *)
Definition getNextInstance (rand : Q) (lb : t) : option ServiceInstance * t :=
  let healthyInstances := getHealthyInstances lb in
  if (length healthyInstances =? 0)%nat then (None, lb)
  else
    match strategy (options lb) with
    | round_robin => roundRobinSelection healthyInstances lb
    | least_connections => (leastConnectionsSelection healthyInstances, lb)
    | weighted => (weightedSelection rand healthyInstances, lb)
    | random => (randomSelection rand healthyInstances, lb)
    | undeclared _ => roundRobinSelection healthyInstances lb
    end.

(** Consecutive [getNextInstance()] calls, one random draw each: the
    instances returned, in order, and the balancer at the end. *)
Fixpoint selectMany (rands : list Q) (lb : t) : list (option ServiceInstance) * t :=
  match rands with
  | [] => ([], lb)
  | rand :: rest =>
      let '(picked, lb1) := getNextInstance rand lb in
      let '(others, lb2) := selectMany rest lb1 in
      (picked :: others, lb2)
  end.

(** *** Health probe *)

(** What one [GET {url}/health] can come to. *)
Inductive ProbeOutcome :=
  | Answered (statusCode : Z)
  | TimedOut
  | TransportFailure (code : string) (description : string).

(** [axios.get(url, { timeout, validateStatus })], from the documented
    behaviour of the HTTP client: the promise resolves with the response
    when one arrives in time and [validateStatus] accepts its status, and
    is rejected with an error otherwise. *)
Definition axios_get (timeoutMs : Z) (validateStatus : Z -> bool) (o : ProbeOutcome)
  : Error + Z :=
  match o with
  | Answered statusCode =>
      if validateStatus statusCode then inr statusCode
      else inl (mkError ("Request failed with status code " +:+ show_int statusCode)
                        (Some "ERR_BAD_RESPONSE"%string) (Some statusCode))
  | TimedOut =>
      inl (mkError ("timeout of " +:+ show_int timeoutMs +:+ "ms exceeded")
                   (Some "ECONNABORTED"%string) None)
  | TransportFailure c description => inl (mkError description (Some c) None)
  end.

Definition set_health (h : ServiceHealth) (instance : ServiceInstance) : ServiceInstance :=
  {| id := id instance; url := url instance; health := h;
     weight := weight instance; currentConnections := currentConnections instance |}.

(** [checkInstanceHealth(instance)]: [startTime] is the read before the
    request, [endTime] and [checkedAt] the two reads after it. *)
Definition checkInstanceHealth (lb : t) (startTime endTime checkedAt : Z)
    (o : ProbeOutcome) (instance : ServiceInstance) : ServiceInstance :=
  match axios_get (healthCheckTimeout (options lb)) (fun status => status =? 200) o with
  | inr _ =>
      set_health
        {| name := serviceName lb; h_url := url instance; status := healthy;
           responseTime := endTime - startTime; lastChecked := checkedAt;
           error := None |}
        instance
  | inl err =>
      set_health
        {| name := serviceName lb; h_url := url instance; status := unhealthy;
           responseTime := endTime - startTime; lastChecked := checkedAt;
           error := Some (message err) |}
        instance
  end.

(** *** Construction and administration *)

(** The parts of the gateway configuration the balancer falls back on. *)
Record Config := {
  cfg_strategy : string;
  cfg_retryAttempts : Z;
  cfg_retryDelay : Z;
  cfg_healthCheckInterval : Z;
  cfg_healthCheckTimeout : Z
}.

(** The configured strategy name, cast to [LoadBalancingStrategy]. *)
Definition strategyOfString (s : string) : LoadBalancingStrategy :=
  if String.eqb s "round-robin" then round_robin
  else if String.eqb s "least-connections" then least_connections
  else if String.eqb s "weighted" then weighted
  else if String.eqb s "random" then random
  else undeclared s.

(** [Partial<LoadBalancerOptions>] *)
Record PartialOptions := {
  p_strategy : option LoadBalancingStrategy;
  p_healthCheckInterval : option Z;
  p_healthCheckTimeout : option Z;
  p_retryAttempts : option Z;
  p_retryDelay : option Z
}.

(** A registry entry as the constructor and [addInstance] create it;
    [now] is the [new Date()] read. *)
Definition freshInstance (serviceName : string) (index : nat) (url : string) (weight : Q)
    (now : Z) : ServiceInstance :=
  {| id := serviceName +:+ "-" +:+ show_int (Z.of_nat index);
     url := url;
     health := {| name := serviceName; h_url := url; status := unknown;
                  responseTime := 0; lastChecked := now; error := None |};
     weight := weight;
     currentConnections := 0 |}.

(** The constructor, up to the start of the first round of probes, whose
    results arrive later; [nowFor i] is the clock read for the [i]-th url. *)
Definition new (cfg : Config) (serviceName : string) (serviceUrls : list string)
    (o : PartialOptions) (nowFor : nat -> Z) : t :=
  {| serviceName := serviceName;
     instances := imap (fun index url => freshInstance serviceName index url 1 (nowFor index))
                       serviceUrls;
     currentIndex := 0;
     options :=
       {| strategy := match p_strategy o with
                      | Some s => s
                      | None => strategyOfString (cfg_strategy cfg)
                      end;
          healthCheckInterval :=
            or_default (p_healthCheckInterval o) (cfg_healthCheckInterval cfg);
          healthCheckTimeout :=
            or_default (p_healthCheckTimeout o) (cfg_healthCheckTimeout cfg);
          retryAttempts := or_default (p_retryAttempts o) (cfg_retryAttempts cfg);
          retryDelay := or_default (p_retryDelay o) (cfg_retryDelay cfg) |} |}.

(** One probe of a round: its three clock reads and what the request
    came to. *)
Record Probe := {
  startTime : Z;
  endTime : Z;
  checkedAt : Z;
  outcome : ProbeOutcome
}.

(** [performHealthChecks()], once every probe of the round has settled;
    [probeOf i] is the probe of the [i]-th instance.  Each probe writes
    the health of its own instance only. *)
Definition performHealthChecks (probeOf : nat -> Probe) (lb : t) : t :=
  set_instances
    (imap (fun index instance =>
             checkInstanceHealth lb (startTime (probeOf index)) (endTime (probeOf index))
                                 (checkedAt (probeOf index)) (outcome (probeOf index)) instance)
          (instances lb))
    lb.

(** [markInstanceUnhealthy(instance, error)]; [now] is its clock read. *)
Definition markInstanceUnhealthy (errorText : string) (now : Z) (instance : ServiceInstance)
  : ServiceInstance :=
  set_health
    {| name := name (health instance); h_url := h_url (health instance);
       status := unhealthy; responseTime := responseTime (health instance);
       lastChecked := now; error := Some errorText |}
    instance.

Definition code_is (c : string) (e : Error) : bool :=
  match JS.code e with
  | Some c' => String.eqb c' c
  | None => false
  end.

(** [isConnectionError(error)] *)
Definition isConnectionError (e : Error) : bool :=
  code_is "ECONNREFUSED" e || code_is "ENOTFOUND" e || code_is "ETIMEDOUT" e
  || code_is "ECONNRESET" e
  || match response_status e with
     | Some s => 500 <=? s
     | None => false
     end.

Definition countStatus (s : HealthStatus) (l : list ServiceInstance) : nat :=
  length (List.filter (fun i => HealthStatus_eqb (status (health i)) s) l).

Record HealthSummary := {
  hs_serviceName : string;
  hs_total : nat;
  hs_healthy : nat;
  hs_unhealthy : nat;
  hs_unknown : nat;
  hs_healthyPercentage : Q
}.

(** [getHealthSummary()] *)
Definition getHealthSummary (lb : t) : HealthSummary :=
  let healthyCount := countStatus healthy (instances lb) in
  {| hs_serviceName := serviceName lb;
     hs_total := length (instances lb);
     hs_healthy := healthyCount;
     hs_unhealthy := countStatus unhealthy (instances lb);
     hs_unknown := countStatus unknown (instances lb);
     hs_healthyPercentage :=
       if (0 <? length (instances lb))%nat
       then Binary64.mul
              (Binary64.div (inject_Z (Z.of_nat healthyCount))
                            (inject_Z (Z.of_nat (length (instances lb)))))
              100
       else 0%Q |}.

(** [addInstance(url, weight)], up to the start of the probe of the new
    instance, whose result arrives later; [now] is the clock read. *)
Definition addInstance (url : string) (weight : Q) (now : Z) (lb : t) : t :=
  set_instances
    (instances lb ++ [freshInstance (serviceName lb) (length (instances lb)) url weight now])
    lb.

(** [array.findIndex(pred)] *)
Fixpoint findIndex {A : Type} (pred : A -> bool) (l : list A) : option nat :=
  match l with
  | [] => None
  | x :: rest => if pred x then Some 0%nat else option_map S (findIndex pred rest)
  end.

(** [array.splice(index, 1)] *)
Fixpoint removeAt {A : Type} (index : nat) (l : list A) : list A :=
  match l, index with
  | [], _ => []
  | _ :: rest, O => rest
  | x :: rest, S k => x :: removeAt k rest
  end.

(** [removeInstance(url)] *)
Definition removeInstance (u : string) (lb : t) : bool * t :=
  match findIndex (fun instance => String.eqb (url instance) u) (instances lb) with
  | Some index => (true, set_instances (removeAt index (instances lb)) lb)
  | None => (false, lb)
  end.

Definition set_weight (w : Q) (instance : ServiceInstance) : ServiceInstance :=
  {| id := id instance; url := url instance; health := health instance;
     weight := w; currentConnections := currentConnections instance |}.

(** Applies [f] to the first element that satisfies [pred], as a write
    through the reference [array.find(pred)] returns. *)
Fixpoint updateFirst {A : Type} (pred : A -> bool) (f : A -> A) (l : list A) : list A :=
  match l with
  | [] => []
  | x :: rest => if pred x then f x :: rest else x :: updateFirst pred f rest
  end.

(** [updateInstanceWeight(url, weight)] *)
Definition updateInstanceWeight (u : string) (w : Q) (lb : t) : bool * t :=
  if existsb (fun instance => String.eqb (url instance) u) (instances lb)
  then (true,
        set_instances
          (updateFirst (fun instance => String.eqb (url instance) u) (set_weight w)
                       (instances lb))
          lb)
  else (false, lb).

(** *** Requests with retry *)

(** The strategies again, over candidates that carry more than the
    instance: [view] gives the instance a candidate stands for.  They are
    the selection functions above word for word. *)
Section Pick.

Context {A : Type}.
Variable view : A -> ServiceInstance.

Definition pickLeast (candidates : list A) : option A :=
  match candidates with
  | [] => None
  | first :: rest =>
      Some (fold_left
              (fun prev current =>
                 if currentConnections (view prev) <=? currentConnections (view current)
                 then prev else current)
              rest first)
  end.

Fixpoint pickScan (remaining : Q) (candidates : list A) : option A :=
  match candidates with
  | [] => None
  | candidate :: rest =>
      let remaining := Binary64.sub remaining (weight (view candidate)) in
      if Qle_bool remaining 0 then Some candidate else pickScan remaining rest
  end.

Definition pickWeighted (rand : Q) (candidates : list A) : option A :=
  let totalWeight :=
    fold_left (fun sum candidate => Binary64.add sum (weight (view candidate))) candidates 0%Q in
  match pickScan (Binary64.mul rand totalWeight) candidates with
  | Some candidate => Some candidate
  | None => nth_error candidates 0
  end.

Definition pickRandom (rand : Q) (candidates : list A) : option A :=
  let randomIndex := Math_floor (rand * inject_Z (Z.of_nat (length candidates)))%Q in
  if randomIndex <? 0 then None else nth_error candidates (Z.to_nat randomIndex).

Definition pick (s : LoadBalancingStrategy) (cursor : nat) (rand : Q) (candidates : list A)
  : option A :=
  match s with
  | round_robin => nth_error candidates (cursor mod length candidates)%nat
  | least_connections => pickLeast candidates
  | weighted => pickWeighted rand candidates
  | random => pickRandom rand candidates
  | undeclared _ => nth_error candidates (cursor mod length candidates)%nat
  end.

End Pick.

(** The healthy instances, each with its position in [instances]. *)
Definition healthyPositions (lb : t) : list (nat * ServiceInstance) :=
  List.filter (fun candidate => is_healthy (snd candidate))
              (imap (fun index instance => (index, instance)) (instances lb)).

(** [getNextInstance()], keeping the position in [this.instances] of the
    object it returns: [execute] writes to that object in place. *)
Definition getNextPositioned (rand : Q) (lb : t) : option (nat * ServiceInstance) * t :=
  let healthyInstances := healthyPositions lb in
  if (length healthyInstances =? 0)%nat then (None, lb)
  else
    (pick snd (strategy (options lb)) (currentIndex lb) rand healthyInstances,
     match strategy (options lb) with
     | round_robin | undeclared _ =>
         set_currentIndex ((currentIndex lb + 1) mod length healthyInstances)%nat lb
     | _ => lb
     end).

Definition set_connections (n : Z) (instance : ServiceInstance) : ServiceInstance :=
  {| id := id instance; url := url instance; health := health instance;
     weight := weight instance; currentConnections := n |}.

(** A write to the object at a position of [instances]. *)
Definition writeAt (index : nat) (f : ServiceInstance -> ServiceInstance) (lb : t) : t :=
  set_instances (alter f index (instances lb)) lb.

Section Requests.

Context {W R : Type}.
(** The wall clock of a world. *)
Variable clock : W -> Z.
(** [axios(config)]: what the request to a url, under a timeout, comes to
    in a world. *)
Variable axios : string -> Z -> W -> (Error + R) * W.
(** [this.delay(ms)] *)
Variable delay : Z -> W -> W.
(** The [Math.random()] draw of the selection in each attempt. *)
Variable randOf : Z -> Q.

(** The [for] loop of [execute] from attempt number [attempt] on, and the
    [throw] after it; [fuel] bounds the iterations left.  No probe and no
    other request touches the registry while a request is awaited. *)
Fixpoint attemptsFrom (fuel : nat) (attempt retries : Z) (requestUrl : string)
    (lastError : option Error) (lb : t) (w : W) : (Error + R) * t * W :=
  match fuel with
  | O =>
      (inl (match lastError with
            | Some e => e
            | None => new_Error ("Request failed after " +:+ show_int (retries + 1)
                                 +:+ " attempts")
            end),
       lb, w)
  | S fuel' =>
      match getNextPositioned (randOf attempt) lb with
      | (None, lb1) =>
          (inl (new_Error ("No healthy instances available for " +:+ serviceName lb)), lb1, w)
      | (Some (index, instance), lb1) =>
          let lb2 :=
            writeAt index (fun i => set_connections (currentConnections i + 1) i) lb1 in
          let '(outcome, w1) :=
            axios (url instance +:+ requestUrl) (healthCheckTimeout (options lb)) w in
          match outcome with
          | inr response =>
              (inr response,
               writeAt index (fun i => set_connections (currentConnections i - 1) i) lb2,
               w1)
          | inl e =>
              let lb3 :=
                writeAt index (fun i => set_connections (currentConnections i - 1) i) lb2 in
              let lb4 :=
                if isConnectionError e
                then writeAt index (markInstanceUnhealthy (message e) (clock w1)) lb3
                else lb3 in
              if attempt =? retries then (inl e, lb4, w1)
              else attemptsFrom fuel' (attempt + 1) retries requestUrl (Some e) lb4
                                (delay (retryDelay (options lb) * 2 ^ attempt) w1)
          end
      end
  end.

(** [execute(requestConfig, maxRetries)]; [requestUrl] is
    [requestConfig.url || ''].  The loop runs while [attempt <= retries]. *)
Definition execute (requestUrl : string) (maxRetries : option Z) (lb : t) (w : W)
  : (Error + R) * t * W :=
  let retries := match maxRetries with
                 | Some r => r
                 | None => retryAttempts (options lb)
                 end in
  attemptsFrom (Z.to_nat (retries + 1)) 0 retries requestUrl None lb w.

End Requests.

(** What [execute] may do to a registry entry: nothing, or mark it
    unhealthy with an error text and a check time. *)
Definition keptOrMarked (before after : ServiceInstance) : Prop :=
  id after = id before /\ url after = url before /\ weight after = weight before /\
  currentConnections after = currentConnections before /\
  name (health after) = name (health before) /\
  h_url (health after) = h_url (health before) /\
  responseTime (health after) = responseTime (health before) /\
  (health after = health before \/ status (health after) = unhealthy).

(** The number of retries [execute] works with:
    [maxRetries ?? this.options.retryAttempts]. *)
Definition retriesOf (maxRetries : option Z) (lb : t) : Z :=
  match maxRetries with
  | Some r => r
  | None => retryAttempts (options lb)
  end.

(** The error [execute] throws when the balancer has no healthy instance. *)
Definition noHealthyInstances (lb : t) : Error :=
  new_Error ("No healthy instances available for " +:+ serviceName lb).

(** A world with a meter: the requests sent and the milliseconds of
    back-off waited so far, next to the world itself. *)
Record Metered (W : Type) := {
  world : W;
  requestsSent : nat;
  waited : Z
}.

Arguments world {W}.
Arguments requestsSent {W}.
Arguments waited {W}.

Definition meteredAxios {W R : Type} (axios : string -> Z -> W -> (Error + R) * W)
    (u : string) (t : Z) (m : Metered W) : (Error + R) * Metered W :=
  let '(outcome, w1) := axios u t (world m) in
  (outcome, {| world := w1; requestsSent := S (requestsSent m); waited := waited m |}).

Definition meteredDelay {W : Type} (delay : Z -> W -> W) (ms : Z) (m : Metered W)
  : Metered W :=
  {| world := delay ms (world m); requestsSent := requestsSent m; waited := waited m + ms |}.

End LoadBalancer.

(** ** Load-balancer manager (the [LoadBalancerManager] class) *)

Module LoadBalancerManager.

(** [options = {}], the constructor's default. *)
Definition no_options : LoadBalancer.PartialOptions :=
  {| LoadBalancer.p_strategy := None; LoadBalancer.p_healthCheckInterval := None;
     LoadBalancer.p_healthCheckTimeout := None; LoadBalancer.p_retryAttempts := None;
     LoadBalancer.p_retryDelay := None |}.

(** The manager is the map [loadBalancers], held as its entries in the
    order of insertion, the order in which a [Map] is iterated.
    [loadBalancers.get(serviceName)]: *)
Definition get (serviceName : string) (loadBalancers : list (string * LoadBalancer.t))
  : option LoadBalancer.t :=
  option_map snd (List.find (fun entry => String.eqb (fst entry) serviceName) loadBalancers).

(** [getLoadBalancer(serviceName, serviceUrls, options)]; [nowFor] gives
    the clock reads of the constructor, should it run. *)
Definition getLoadBalancer (cfg : LoadBalancer.Config) (serviceName : string)
    (serviceUrls : list string) (options : option LoadBalancer.PartialOptions)
    (nowFor : nat -> Z) (loadBalancers : list (string * LoadBalancer.t))
  : LoadBalancer.t * list (string * LoadBalancer.t) :=
  match get serviceName loadBalancers with
  | Some loadBalancer => (loadBalancer, loadBalancers)
  | None =>
      let loadBalancer :=
        LoadBalancer.new cfg serviceName serviceUrls
          (match options with Some o => o | None => no_options end) nowFor in
      (loadBalancer, loadBalancers ++ [(serviceName, loadBalancer)])
  end.

(** [getAllHealthSummaries()] *)
Definition getAllHealthSummaries (loadBalancers : list (string * LoadBalancer.t))
  : list LoadBalancer.HealthSummary :=
  map (fun entry => LoadBalancer.getHealthSummary (snd entry)) loadBalancers.

(** What [getLoadBalancer] maintains: every balancer is registered under
    its own service name, and under no name twice. *)
Definition registered (loadBalancers : list (string * LoadBalancer.t)) : Prop :=
  NoDup (map fst loadBalancers) /\
  Forall (fun entry => LoadBalancer.serviceName (snd entry) = fst entry) loadBalancers.

End LoadBalancerManager.

(** ** Proxy service (the [ProxyService] class that wraps a service proxy
    with its circuit breaker) *)

Module ProxyService.

(** The body [res.status(...).json(...)] writes; the timestamp and the
    request id of the envelope are left out. *)
Record ErrorBody := {
  success : bool;
  error_code : string;
  error_message : string
}.

(** How the wrapped middleware ends for the inbound request. *)
Inductive Reply :=
  | Proxied
  | Sent (status : Z) (body : ErrorBody)
  | NothingWritten
  | PassedToNext (error : Error).

Section Wrap.

Context {W : Type}.
Variable clock : W -> Z.
(** [res.headersSent] as the world has it. *)
Variable headersSent : W -> bool.

(** The request handler [wrapWithCircuitBreaker] returns.  The promise
    handed to the breaker settles as the proxy middleware does. *)
Definition wrapWithCircuitBreaker (proxyMiddleware : W -> (Error + unit) * W)
    (circuitBreaker : CircuitBreaker.t) (serviceName : string) (w : W)
  : Reply * CircuitBreaker.t * W :=
  match CircuitBreaker.execute clock proxyMiddleware circuitBreaker w with
  | (inr _, cb1, w1) => (Proxied, cb1, w1)
  | (inl error, cb1, w1) =>
      if includes (message error) "Circuit breaker is OPEN" then
        if negb (headersSent w1) then
          (Sent 503 {| success := false;
                       error_code := "SERVICE_UNAVAILABLE";
                       error_message := serviceName +:+ " service is temporarily unavailable" |},
           cb1, w1)
        else (NothingWritten, cb1, w1)
      else (PassedToNext error, cb1, w1)
  end.

End Wrap.

(** A gateway world for a load-balanced route: the clock, the response
    flag, the service's balancer and the targets requests were sent to. *)
Record GatewayWorld := {
  now : Z;
  responseStarted : bool;
  pool : LoadBalancer.t;
  attempts : list string
}.

(** The base proxy of [createServiceProxy] with its [router]: the router
    asks the balancer for the next instance and fails when there is none;
    the request is then forwarded to the instance's url.  [upstream] is
    what forwarding to a url comes to, [rand] the balancer's random draw. *)
Definition routedProxy (serviceName : string) (upstream : string -> Error + unit)
    (rand : Q) (w : GatewayWorld) : (Error + unit) * GatewayWorld :=
  match LoadBalancer.getNextInstance rand (pool w) with
  | (None, lb1) =>
      (inl (new_Error ("No healthy instances available for " +:+ serviceName)),
       {| now := now w; responseStarted := responseStarted w; pool := lb1;
          attempts := attempts w |})
  | (Some instance, lb1) =>
      (upstream (LoadBalancer.url instance),
       {| now := now w; responseStarted := responseStarted w; pool := lb1;
          attempts := attempts w ++ [LoadBalancer.url instance] |})
  end.

(** An entry of the object [checkServicesHealth] returns: the health
    summary of the service's balancer, if it has one, and the state of its
    circuit breaker, if it has one. *)
Record ServiceStatus := {
  summary : option LoadBalancer.HealthSummary;
  circuitBreaker : option CircuitBreaker.CircuitBreakerState
}.

(** The plain object [healthStatuses]: its own properties, and its
    prototype, which is [Object.prototype] ([None]) until an assignment
    to [__proto__] puts an entry in its place. *)
Record HealthStatuses := {
  entries : gmap string ServiceStatus;
  prototype : option ServiceStatus
}.

(** What reading [healthStatuses[name]] yields: an entry the object owns;
    for [__proto__], the prototype; a field of an entry that serves as the
    prototype, which is a string or a number and is truthy or not; a method
    of [Object.prototype]; or [undefined]. *)
Inductive Property :=
  | OwnEntry (entry : ServiceStatus)
  | PrototypeObject (object : option ServiceStatus)
  | InheritedPrimitive (truthy : bool)
  | InheritedMethod
  | Undefined.

(** The field [name] of an entry, as truthy or not, if the entry has it. *)
Definition fieldOf (object : ServiceStatus) (name : string) : option bool :=
  if String.eqb name "circuitBreaker" then
    option_map (fun _ => true) (circuitBreaker object)
  else
    match summary object with
    | Some s =>
        if String.eqb name "serviceName" then
          Some (negb (String.eqb (LoadBalancer.hs_serviceName s) ""))
        else if String.eqb name "total" then Some (negb (LoadBalancer.hs_total s =? 0)%nat)
        else if String.eqb name "healthy" then Some (negb (LoadBalancer.hs_healthy s =? 0)%nat)
        else if String.eqb name "unhealthy" then
          Some (negb (LoadBalancer.hs_unhealthy s =? 0)%nat)
        else if String.eqb name "unknown" then Some (negb (LoadBalancer.hs_unknown s =? 0)%nat)
        else if String.eqb name "healthyPercentage" then
          Some (negb (Qeq_bool (LoadBalancer.hs_healthyPercentage s) 0))
        else None
    | None => None
    end.

(** [healthStatuses[name]], read. *)
Definition read (healthStatuses : HealthStatuses) (name : string) : Property :=
  match entries healthStatuses !! name with
  | Some entry => OwnEntry entry
  | None =>
      if String.eqb name "__proto__" then PrototypeObject (prototype healthStatuses)
      else
        match prototype healthStatuses ≫= (fun object => fieldOf object name) with
        | Some truthy => InheritedPrimitive truthy
        | None => if isObjectPrototypeMethod name then InheritedMethod else Undefined
        end
  end.

(** [healthStatuses[name] = entry] *)
Definition assign (name : string) (entry : ServiceStatus) (healthStatuses : HealthStatuses)
  : HealthStatuses :=
  if String.eqb name "__proto__" then
    {| entries := entries healthStatuses; prototype := Some entry |}
  else
    {| entries := <[name := entry]> (entries healthStatuses);
       prototype := prototype healthStatuses |}.

(** The body of the second loop of [checkServicesHealth].  What is read
    is truthy unless it is [undefined], zero or the empty string.  On an
    object the field [circuitBreaker] is set: on the entry, on the
    prototype entry, or on a function of [Object.prototype], which leaves
    [healthStatuses] as it is.  On a truthy string or number the
    assignment throws a [TypeError], the module being in strict mode
    ([None]). *)
Definition attachState (serviceName : string) (state : CircuitBreaker.CircuitBreakerState)
    (healthStatuses : HealthStatuses) : option HealthStatuses :=
  match read healthStatuses serviceName with
  | OwnEntry entry =>
      Some {| entries := <[serviceName := {| summary := summary entry;
                                             circuitBreaker := Some state |}]>
                           (entries healthStatuses);
              prototype := prototype healthStatuses |}
  | PrototypeObject (Some object) =>
      Some {| entries := entries healthStatuses;
              prototype := Some {| summary := summary object;
                                   circuitBreaker := Some state |} |}
  | PrototypeObject None => Some healthStatuses
  | InheritedMethod => Some healthStatuses
  | InheritedPrimitive true => None
  | InheritedPrimitive false =>
      Some (assign serviceName {| summary := None; circuitBreaker := Some state |}
                   healthStatuses)
  | Undefined =>
      Some (assign serviceName {| summary := None; circuitBreaker := Some state |}
                   healthStatuses)
  end.

(** [checkServicesHealth()]: the summaries are filed under the service
    name they carry, then each breaker state is added to the entry of its
    service, or becomes an entry of its own.  The result is the object the
    promise resolves to, or [None] when it rejects. *)
Definition checkServicesHealth (loadBalancers : list (string * LoadBalancer.t))
    (circuitBreakers : gmap string CircuitBreaker.t) : option HealthStatuses :=
  let healthStatuses :=
    fold_left (fun statuses s =>
                 assign (LoadBalancer.hs_serviceName s)
                        {| summary := Some s; circuitBreaker := None |} statuses)
              (LoadBalancerManager.getAllHealthSummaries loadBalancers)
              {| entries := ∅; prototype := None |} in
  map_fold (fun serviceName state result =>
              match result with
              | Some statuses => attachState serviceName state statuses
              | None => None
              end)
           (Some healthStatuses)
           (CircuitBreakerManager.getAllStates circuitBreakers).

End ProxyService.

(** ** Health routes of the gateway router ([GET /health] and
    [GET /health/:service]) *)

Module HealthRoutes.

(** [service.healthyPercentage === 100 || service.healthy > 0]; on an
    entry without a summary both fields are [undefined] and both
    comparisons are false. *)
Definition isHealthy (service : ProxyService.ServiceStatus) : bool :=
  match ProxyService.summary service with
  | Some s =>
      Qeq_bool (LoadBalancer.hs_healthyPercentage s) 100
      || (0 <? LoadBalancer.hs_healthy s)%nat
  | None => false
  end.

(** [GET /health]: the status code and the [status] field of the answer.
    [Object.values] lists the values of the properties the object owns.
    The proxy statistics, which only fill the body, are left out. *)
Definition health (loadBalancers : list (string * LoadBalancer.t))
    (circuitBreakers : gmap string CircuitBreaker.t) : Z * string :=
  match ProxyService.checkServicesHealth loadBalancers circuitBreakers with
  | Some servicesHealth =>
      let allHealthy :=
        forallb isHealthy (map snd (map_to_list (ProxyService.entries servicesHealth))) in
      if allHealthy then (200, "healthy"%string) else (503, "degraded"%string)
  | None => (500, "unhealthy"%string)
  end.

(** [GET /health/:service].  On a function, a string or a number the
    fields [healthyPercentage] and [healthy] are [undefined], and both
    comparisons are false. *)
Definition serviceHealth (serviceName : string)
    (loadBalancers : list (string * LoadBalancer.t))
    (circuitBreakers : gmap string CircuitBreaker.t) : Z * string :=
  match ProxyService.checkServicesHealth loadBalancers circuitBreakers with
  | Some servicesHealth =>
      match ProxyService.read servicesHealth serviceName with
      | ProxyService.OwnEntry service
      | ProxyService.PrototypeObject (Some service) =>
          if isHealthy service then (200, "healthy"%string) else (503, "unhealthy"%string)
      | ProxyService.PrototypeObject None
      | ProxyService.InheritedMethod
      | ProxyService.InheritedPrimitive true => (503, "unhealthy"%string)
      | ProxyService.InheritedPrimitive false
      | ProxyService.Undefined => (404, "not_found"%string)
      end
  | None => (500, "error"%string)
  end.

End HealthRoutes.

(** ** Rate-limit store ([gateway/src/middleware/rateLimit.ts]) *)

(** The Redis commands the store issues, from the documented command
    semantics: a key past its expiry time reads as absent; [INCR] creates
    an absent key at 1 without expiry and otherwise adds one, keeping the
    expiry; [EXPIRE] on a present key sets its expiry to the given number
    of seconds from now. *)
Module Redis.

Record Entry := {
  value : Z;
  expireAt : option Z
}.

Definition live (now : Z) (e : Entry) : bool :=
  match expireAt e with
  | Some deadline => now <? deadline
  | None => true
  end.

Definition get (now : Z) (key : string) (db : gmap string Entry) : option Entry :=
  match db !! key with
  | Some e => if live now e then Some e else None
  | None => None
  end.

Definition INCR (now : Z) (key : string) (db : gmap string Entry)
  : Z * gmap string Entry :=
  match get now key db with
  | Some e => (value e + 1, <[key := {| value := value e + 1; expireAt := expireAt e |}]> db)
  | None => (1, <[key := {| value := 1; expireAt := None |}]> db)
  end.

Definition EXPIRE (now : Z) (key : string) (seconds : Z) (db : gmap string Entry)
  : Z * gmap string Entry :=
  match get now key db with
  | Some e => (1, <[key := {| value := value e; expireAt := Some (now + seconds * 1000) |}]> db)
  | None => (0, db)
  end.

(** [DECR] creates an absent key at -1 without expiry and otherwise
    subtracts one, keeping the expiry; [DEL] removes the key. *)
Definition DECR (now : Z) (key : string) (db : gmap string Entry)
  : Z * gmap string Entry :=
  match get now key db with
  | Some e => (value e - 1, <[key := {| value := value e - 1; expireAt := expireAt e |}]> db)
  | None => (-1, <[key := {| value := -1; expireAt := None |}]> db)
  end.

Definition DEL (now : Z) (key : string) (db : gmap string Entry)
  : Z * gmap string Entry :=
  match get now key db with
  | Some _ => (1, delete key db)
  | None => (0, delete key db)
  end.

End Redis.

Module RedisStore.

Record t := {
  prefix : string;
  (** whether a Redis client was created *)
  client : bool
}.

Record Incremented := {
  count : Z;
  resetTime : Z
}.

(** [increment(key, windowMs)]; [now] is its [Date.now()] read, and the
    two queued commands run as one transaction at that instant. *)
Definition increment (store : t) (key : string) (windowMs : Z) (now : Z)
    (db : gmap string Redis.Entry) : (Error + Incremented) * gmap string Redis.Entry :=
  if negb (client store) then (inl (new_Error "Redis client not available"), db)
  else
    let fullKey := prefix store +:+ key in
    let resetTime := now + windowMs in
    let '(reply0, db1) := Redis.INCR now fullKey db in
    let '(_, db2) := Redis.EXPIRE now fullKey (Math_ceil (inject_Z windowMs / 1000)) db1 in
    let count := reply0 in
    (inr {| count := if count =? 0 then 1 else count; resetTime := resetTime |}, db2).

(** The expiry time a key carries at [now], if it is present and has one. *)
Definition windowEnd (now : Z) (fullKey : string) (db : gmap string Redis.Entry)
  : option Z :=
  match Redis.get now fullKey db with
  | Some e => Redis.expireAt e
  | None => None
  end.

(** [decrement(key)]; without a client it does nothing. *)
Definition decrement (store : t) (key : string) (now : Z) (db : gmap string Redis.Entry)
  : gmap string Redis.Entry :=
  if negb (client store) then db
  else snd (Redis.DECR now (prefix store +:+ key) db).

(** [reset(key)]; without a client it does nothing. *)
Definition reset (store : t) (key : string) (now : Z) (db : gmap string Redis.Entry)
  : gmap string Redis.Entry :=
  if negb (client store) then db
  else snd (Redis.DEL now (prefix store +:+ key) db).

(** The count an [increment] reports, [None] when it throws. *)
Definition countOf (r : Error + Incremented) : option Z :=
  match r with
  | inr result => Some (count result)
  | inl _ => None
  end.

End RedisStore.

(** ** Monitoring service (the [MonitoringService] class) *)

Module MonitoringService.

(** [RequestMetrics]; the user agent and the address play no part in the
    aggregates and are left out. *)
Record RequestMetrics := {
  timestamp : Z;
  method : string;
  path : string;
  statusCode : Z;
  responseTime : Q;
  service : option string;
  userId : option string
}.

(** [array.sort((a, b) => a - b)]: ascending and stable. *)
Fixpoint insertAscending (x : Q) (sorted : list Q) : list Q :=
  match sorted with
  | [] => [x]
  | y :: rest => if Qle_bool x y then x :: sorted else y :: insertAscending x rest
  end.

Definition sortAscending (l : list Q) : list Q := fold_right insertAscending [] l.

(** [calculatePercentile(sortedArray, percentile)].  Reading the array
    past its end gives [undefined], which [Math.round] turns into [NaN]:
    that result is [None]. *)
Definition calculatePercentile (sortedArray : list Q) (percentile : Q) : option Z :=
  if (length sortedArray =? 0)%nat then Some 0
  else
    let index :=
      Math_ceil (Binary64.mul (Binary64.div percentile 100)
                              (inject_Z (Z.of_nat (length sortedArray)))) - 1 in
    match nth_error sortedArray (Z.to_nat (Z.max 0 index)) with
    | Some v => Some (Math_round v)
    | None => None
    end.

Record ResponseTimeSummary := {
  average : Z;
  p50 : option Z;
  p95 : option Z;
  p99 : option Z
}.

(** [MetricsData] without the status-class histogram and the per-service
    breakdown. *)
Record MetricsData := {
  requestCount : Z;
  errorCount : Z;
  responseTimeSummary : ResponseTimeSummary
}.

Definition recent (now : Z) (requestMetrics : list RequestMetrics) : list RequestMetrics :=
  let oneHourAgo := now - 60 * 60 * 1000 in
  List.filter (fun metric => oneHourAgo <=? timestamp metric) requestMetrics.

(** [getAggregatedMetrics()]; [now] is its [Date.now()] read. *)
Definition getAggregatedMetrics (now : Z) (requestMetrics : list RequestMetrics) : MetricsData :=
  let recentMetrics := recent now requestMetrics in
  let responseTimes := sortAscending (map responseTime recentMetrics) in
  let averageResponseTime :=
    if (0 <? length responseTimes)%nat
    then Binary64.div (fold_left Binary64.add responseTimes 0%Q)
                      (inject_Z (Z.of_nat (length responseTimes)))
    else 0%Q in
  {| requestCount := Z.of_nat (length recentMetrics);
     errorCount :=
       Z.of_nat (length (List.filter (fun metric => 400 <=? statusCode metric) recentMetrics));
     responseTimeSummary :=
       {| average := Math_round averageResponseTime;
          p50 := calculatePercentile responseTimes 50;
          p95 := calculatePercentile responseTimes 95;
          p99 := calculatePercentile responseTimes 99 |} |}.

(** [calculateAvailability()]; [now] is its [Date.now()] read. *)
Definition calculateAvailability (now : Z) (requestMetrics : list RequestMetrics) : Q :=
  let recentMetrics := recent now requestMetrics in
  if (length recentMetrics =? 0)%nat then 100%Q
  else
    let successfulRequests :=
      length (List.filter (fun metric => statusCode metric <? 500) recentMetrics) in
    Binary64.mul
      (Binary64.div (inject_Z (Z.of_nat successfulRequests))
                    (inject_Z (Z.of_nat (length recentMetrics))))
      100.

Record Factor := {
  value : Q;
  weight : Q;
  impact : Q
}.

(** The four factors of the health score with their impacts filled in, in
    the order the [factors] object lists them: error rate, response time,
    throughput, availability. *)
Definition scoreFactors (errorRate responseTimeP95 throughput availability : Q) : list Factor :=
  [ {| value := errorRate; weight := 30;
       impact := Qmax 0 (Binary64.sub 100 (Binary64.mul errorRate 2)) |};
    {| value := responseTimeP95; weight := 25;
       impact := Qmax 0 (Binary64.sub 100 (Qmin (Binary64.div responseTimeP95 50) 100)) |};
    {| value := throughput; weight := 20;
       impact := Qmin 100 (Binary64.div throughput 10) |};
    {| value := availability; weight := 25;
       impact := availability |} ]%Q.

(** The two [reduce] passes over [Object.values(factors)]. *)
Definition weightedScore (factors : list Factor) : Q :=
  let totalWeight := fold_left (fun sum factor => Binary64.add sum (weight factor)) factors 0%Q in
  fold_left (fun sum factor =>
               Binary64.add sum (Binary64.div (Binary64.mul (impact factor) (weight factor))
                                              totalWeight))
            factors 0%Q.

(** The error-rate factor: errors per hundred recent requests. *)
Definition errorRateOf (metrics : MetricsData) : Q :=
  if 0 <? requestCount metrics
  then Binary64.mul
         (Binary64.div (inject_Z (errorCount metrics)) (inject_Z (requestCount metrics)))
         100
  else 0%Q.

Record HealthScore := {
  score : Z;
  factors : list Factor
}.

(** [getHealthScore()]; [tMetrics] and [tAvailability] are the clock reads
    of the two aggregations it calls.  A [NaN] p95 makes the score [NaN]. *)
Definition getHealthScore (tMetrics tAvailability : Z) (requestMetrics : list RequestMetrics)
  : option HealthScore :=
  let metrics := getAggregatedMetrics tMetrics requestMetrics in
  match p95 (responseTimeSummary metrics) with
  | None => None
  | Some p95Value =>
      let factors :=
        scoreFactors (errorRateOf metrics) (inject_Z p95Value)
                     (inject_Z (requestCount metrics))
                     (calculateAvailability tAvailability requestMetrics) in
      Some {| score := Math_round (weightedScore factors); factors := factors |}
  end.

(** [maxMetricsHistory] and [metricsRetentionTime]. *)
Definition maxMetricsHistory : nat := Z.to_nat 10000.
Definition metricsRetentionTime : Z := 24 * 60 * 60 * 1000.

(** Character classes of the three patterns of [sanitizePath]: [\d],
    [[a-f0-9]], and [[0-9a-f]] under the [i] flag. *)
Definition isDigit (c : ascii) : bool :=
  let n := nat_of_ascii c in ((48 <=? n) && (n <=? 57))%nat.

Definition isLowerHex (c : ascii) : bool :=
  let n := nat_of_ascii c in (isDigit c || ((97 <=? n) && (n <=? 102)))%nat.

Definition isHex (c : ascii) : bool :=
  let n := nat_of_ascii c in (isLowerHex c || ((65 <=? n) && (n <=? 70)))%nat.

Definition isChar (expected : ascii) (c : ascii) : bool := Ascii.eqb expected c.

(** A pattern made of one character class per position: the length of the
    match at the start of [s], if there is one. *)
Fixpoint matchClasses (classes : list (ascii -> bool)) (s : string) : option nat :=
  match classes with
  | [] => Some 0%nat
  | class :: more =>
      match s with
      | String c rest =>
          if class c then option_map S (matchClasses more rest) else None
      | EmptyString => None
      end
  end.

(** [/\/[0-9a-f]{8}-[0-9a-f]{4}-[0-9a-f]{4}-[0-9a-f]{4}-[0-9a-f]{12}/i]. *)
Definition uuidSegment : list (ascii -> bool) :=
  [isChar "/"] ++ repeat isHex 8 ++ [isChar "-"] ++ repeat isHex 4 ++ [isChar "-"]
    ++ repeat isHex 4 ++ [isChar "-"] ++ repeat isHex 4 ++ [isChar "-"] ++ repeat isHex 12.

(** [/\/[a-f0-9]{24}/]. *)
Definition objectIdSegment : list (ascii -> bool) :=
  [isChar "/"] ++ repeat isLowerHex 24.

(** The number of leading digits of [s]. *)
Fixpoint leadingDigits (s : string) : nat :=
  match s with
  | String c rest => if isDigit c then S (leadingDigits rest) else 0%nat
  | EmptyString => 0%nat
  end.

(** [/\/\d+/]: a slash and the longest run of digits after it, at least
    one. *)
Definition matchNumericSegment (s : string) : option nat :=
  match s with
  | String c rest =>
      if isChar "/" c
      then match leadingDigits rest with
           | O => None
           | S k => Some (S (S k))
           end
      else None
  | EmptyString => None
  end.

(** [s.replace(pattern, replacement)] for a global pattern whose matches
    are never empty: the string is scanned from the left, a match is
    replaced and the scan goes on behind it.  [skip] counts the characters
    of the current match that are still to be passed over. *)
Fixpoint replaceAll (matchAt : string -> option nat) (replacement : string)
    (skip : nat) (s : string) : string :=
  match s with
  | EmptyString => EmptyString
  | String c rest =>
      match skip with
      | S k => replaceAll matchAt replacement k rest
      | O =>
          match matchAt s with
          | Some (S n) => replacement +:+ replaceAll matchAt replacement n rest
          | _ => String c (replaceAll matchAt replacement 0 rest)
          end
      end
  end.

(** [sanitizePath(path)]. *)
Definition sanitizePath (path : string) : string :=
  replaceAll (matchClasses objectIdSegment) "/:id" 0
    (replaceAll matchNumericSegment "/:id" 0
       (replaceAll (matchClasses uuidSegment) "/:id" 0 path)).

(** What [recordRequest] reads of the request: [req.method], [req.path]
    and [req.user?.id]. *)
Record Request := {
  req_method : string;
  req_path : string;
  req_user_id : option string
}.

(** [array.slice(-n)] for a positive [n]: the last [n] elements, or the
    whole array when it has fewer. *)
Definition sliceLast {A : Type} (n : nat) (l : list A) : list A :=
  skipn (length l - n) l.

(** [recordRequest(req, res, responseTime, service)]; [now] is its
    [Date.now()] read and [resStatusCode] is [res.statusCode].  The cache
    entry it deletes afterwards is read by none of the aggregations. *)
Definition recordRequest (now : Z) (req : Request) (resStatusCode : Z) (rt : Q)
    (serviceName : option string) (requestMetrics : list RequestMetrics)
  : list RequestMetrics :=
  let metric :=
    {| timestamp := now; method := req_method req; path := sanitizePath (req_path req);
       statusCode := resStatusCode; responseTime := rt; service := serviceName;
       userId := req_user_id req |} in
  let pushed := requestMetrics ++ [metric] in
  if (maxMetricsHistory <? length pushed)%nat
  then sliceLast maxMetricsHistory pushed
  else pushed.

(** [cleanupOldMetrics()]; [now] is its [Date.now()] read. *)
Definition cleanupOldMetrics (now : Z) (requestMetrics : list RequestMetrics)
  : list RequestMetrics :=
  let cutoffTime := now - metricsRetentionTime in
  List.filter (fun metric => cutoffTime <? timestamp metric) requestMetrics.

(** One entry of [getTrafficPatterns()]. *)
Record TrafficPattern := {
  intervalTimestamp : Z;
  intervalRequestCount : Z;
  intervalErrorCount : Z;
  intervalAverageResponseTime : Z
}.

(** The body of the loop of [getTrafficPatterns] for the counter [i]. *)
Definition trafficInterval (now : Z) (requestMetrics : list RequestMetrics) (i : nat)
  : TrafficPattern :=
  let intervalStart := now - Z.of_nat i * 5 * 60 * 1000 in
  let intervalEnd := intervalStart + 5 * 60 * 1000 in
  let intervalMetrics :=
    List.filter (fun metric => (intervalStart <=? timestamp metric)
                               && (timestamp metric <? intervalEnd)) requestMetrics in
  let count := length intervalMetrics in
  let averageResponseTime :=
    if (0 <? count)%nat
    then Binary64.div
           (fold_left (fun sum metric => Binary64.add sum (responseTime metric))
                      intervalMetrics 0%Q)
           (inject_Z (Z.of_nat count))
    else 0%Q in
  {| intervalTimestamp := intervalStart;
     intervalRequestCount := Z.of_nat count;
     intervalErrorCount :=
       Z.of_nat (length (List.filter (fun metric => 400 <=? statusCode metric) intervalMetrics));
     intervalAverageResponseTime := Math_round averageResponseTime |}.

(** The values of a loop counter that runs from [i] down to 0. *)
Fixpoint countdown (i : nat) : list nat :=
  match i with
  | O => [0%nat]
  | S k => i :: countdown k
  end.

(** [getTrafficPatterns()]; [now] is its [Date.now()] read. *)
Definition getTrafficPatterns (now : Z) (requestMetrics : list RequestMetrics)
  : list TrafficPattern :=
  map (trafficInterval now requestMetrics) (countdown 11).

(** [pattern.test(s)] for a pattern given by its matcher: there is a match
    at some position of [s]. *)
Fixpoint matchesSomewhere (matchAt : string -> option nat) (s : string) : bool :=
  match matchAt s with
  | Some _ => true
  | None =>
      match s with
      | String _ rest => matchesSomewhere matchAt rest
      | EmptyString => false
      end
  end.

Definition startsWithDigit (s : string) : bool :=
  match s with
  | String c _ => isDigit c
  | EmptyString => false
  end.

End MonitoringService.

(** ** Sample data

    The scenarios of the specification, used to exercise the definitions
    and the properties below. *)

Section BreakerSamples.

Import CircuitBreaker.

(** A half-open breaker for the [content] service that treats validation
    errors as the caller's fault. *)
Definition sampleHalfOpen : t :=
  mk "content"
     {| threshold := 3; timeout := 60000; resetTimeout := 30000;
        monitoringPeriod := 60000; expectedErrors := ["ValidationError"%string] |}
     HALF_OPEN 2 (Some 1000) (Some 31000) 7.

(** The breaker of the specification's scenario: threshold 3, reset
    timeout 30 s.  The world is the clock itself; each call takes 5 ms. *)
Definition specBreaker : t :=
  new {| cfg_threshold := 3; cfg_timeout := 60000; cfg_resetTimeout := 30000 |}
      "content" no_options.

Definition clockOf (w : Z) : Z := w.

Definition refusing (w : Z) : (Error + unit) * Z :=
  (inl (mkError "connect ECONNREFUSED" (Some "ECONNREFUSED"%string) None), w + 5).

Definition answering (w : Z) : (Error + unit) * Z := (inr tt, w + 5).

Definition openedBreaker : t :=
  fst (executeAll clockOf [refusing; refusing; refusing] specBreaker 0).

End BreakerSamples.

Section PoolSamples.

Import LoadBalancer.

(** The selection is an element of the candidate list. *)
Definition selectsFrom (candidates : list ServiceInstance) (picked : option ServiceInstance) : Prop :=
  exists instance, picked = Some instance /\ List.In instance candidates.

Definition sampleInstance (n : string) (s : HealthStatus) (w : Q) (c : Z) : ServiceInstance :=
  {| id := "content-" +:+ n;
     url := "http://content-" +:+ n +:+ ":3002";
     health := {| name := "content"; h_url := "http://content-" +:+ n +:+ ":3002";
                  status := s; responseTime := 12; lastChecked := 1000; error := None |};
     weight := w;
     currentConnections := c |}.

Definition instA : ServiceInstance := sampleInstance "0" healthy 1 4.
Definition instB : ServiceInstance := sampleInstance "1" healthy 2 1.
Definition instC : ServiceInstance := sampleInstance "2" healthy 1 3.
Definition instD : ServiceInstance := sampleInstance "3" unhealthy 5 0.
Definition instE : ServiceInstance := sampleInstance "4" unknown 1 0.

(** Healthy instances with the weights 0.1, 0.2 and 0.3 as binary64 holds
    them. *)
Definition tenthA : ServiceInstance := sampleInstance "a" healthy (Binary64.fl (1 # 10)) 0.
Definition tenthB : ServiceInstance := sampleInstance "b" healthy (Binary64.fl (2 # 10)) 0.
Definition tenthC : ServiceInstance := sampleInstance "c" healthy (Binary64.fl (3 # 10)) 0.

(** A pool of five instances, three of them healthy. *)
Definition samplePool (s : LoadBalancingStrategy) : t :=
  {| serviceName := "content";
     instances := [instA; instD; instB; instE; instC];
     currentIndex := 0;
     options := {| strategy := s; healthCheckInterval := 30000; healthCheckTimeout := 5000;
                   retryAttempts := 3; retryDelay := 1000 |} |}.

(** The manager's map with that pool as the only balancer. *)
Definition sampleBalancers : list (string * t) := [("content"%string, samplePool round_robin)].

(** A manager whose only balancer is named [__proto__], with one healthy
    instance. *)
Definition protoBalancers : list (string * t) :=
  [("__proto__"%string,
    {| serviceName := "__proto__";
       instances := [instA];
       currentIndex := 0;
       options := options (samplePool round_robin) |})].

End PoolSamples.

Section ProxySamples.

Import ProxyService.

(** The JSON body of the 503 answer. *)
Definition unavailableBody (serviceName : string) : ErrorBody :=
  {| success := false;
     error_code := "SERVICE_UNAVAILABLE";
     error_message := serviceName +:+ " service is temporarily unavailable" |}.

(** A request for the [content] service arriving 20 s after the breaker
    opened, with all three healthy instances available. *)
Definition sampleWorld : GatewayWorld :=
  {| now := 20000; responseStarted := false;
     pool := samplePool LoadBalancer.round_robin; attempts := [] |}.

End ProxySamples.

Section StoreSamples.

Import RedisStore.

(** The default store, and two requests of one caller one second apart in
    a one-minute window. *)
Definition sampleStore : t := {| prefix := "rl:"; client := true |}.

Definition afterFirst : gmap string Redis.Entry :=
  snd (increment sampleStore "user:42" 60000 0 ∅).

Definition afterSecond : gmap string Redis.Entry :=
  snd (increment sampleStore "user:42" 60000 1000 afterFirst).

End StoreSamples.

Section MetricSamples.

Import MonitoringService.

Definition sampleRequest (t : Z) (code : Z) (ms : Q) : RequestMetrics :=
  {| timestamp := t; method := "GET"; path := "/api/v1/content/:id"; statusCode := code;
     responseTime := ms; service := Some "content"%string; userId := None |}.

(** Two states of two requests each, none of them a server error: in the
    second both requests are client errors and the slower one is slower. *)
Definition calmState : list RequestMetrics :=
  [sampleRequest 1000 200 100; sampleRequest 2000 200 150].

Definition troubledState : list RequestMetrics :=
  [sampleRequest 1000 404 100; sampleRequest 2000 429 2500].

End MetricSamples.

(** * Properties *)

(** ** Binary64 rounding *)

Section Binary64Facts.

Import Binary64.

Lemma pow2_pos (k : Z) : (0 < 2 ^ k)%Q.
Proof. apply Qpower_0_lt. reflexivity. Qed.

Lemma pow2_plus (j k : Z) : (2 ^ (j + k) == 2 ^ j * 2 ^ k)%Q.
Proof. apply Qpower_plus. discriminate. Qed.

Lemma pow2_le (j k : Z) : j <= k -> (2 ^ j <= 2 ^ k)%Q.
Proof. intros H. apply Qpower_le_compat_l; [exact H | discriminate]. Qed.

Lemma pow2_Z (k : Z) : 0 <= k -> (2 ^ k == inject_Z (2 ^ k))%Q.
Proof. intros H. symmetry. apply (Zpower_Qpower 2 k H). Qed.

Lemma roundHalfEven_near (x : Q) :
  (x - (1 # 2) <= inject_Z (roundHalfEven x) <= x + (1 # 2))%Q.
Proof.
  unfold roundHalfEven.
  pose proof (Qfloor_le x) as Hlo. pose proof (Qlt_floor x) as Hhi.
  rewrite inject_Z_plus in Hhi. change (inject_Z 1) with 1%Q in Hhi.
  destruct (Qcompare_spec (x - inject_Z (Qfloor x)) (1 # 2)) as [E | E | E].
  - destruct (Z.even (Qfloor x)); [| rewrite inject_Z_plus; change (inject_Z 1) with 1%Q]; lra.
  - lra.
  - rewrite inject_Z_plus. change (inject_Z 1) with 1%Q. lra.
Qed.

Lemma roundHalfEven_between (x : Q) :
  Qfloor x <= roundHalfEven x <= Qfloor x + 1.
Proof.
  unfold roundHalfEven.
  destruct (Qcompare _ _); [destruct (Z.even _) | |]; lia.
Qed.

Lemma roundHalfEven_mono (x y : Q) :
  (x <= y)%Q -> roundHalfEven x <= roundHalfEven y.
Proof.
  intros Hxy.
  pose proof (Qfloor_resp_le x y Hxy) as Hf.
  destruct (Z.eq_dec (Qfloor x) (Qfloor y)) as [E | Hne].
  - unfold roundHalfEven. rewrite E.
    destruct (Qcompare_spec (x - inject_Z (Qfloor y)) (1 # 2)) as [Ex | Ex | Ex];
      destruct (Qcompare_spec (y - inject_Z (Qfloor y)) (1 # 2)) as [Ey | Ey | Ey];
      try destruct (Z.even (Qfloor y)); try lia; exfalso; lra.
  - pose proof (roundHalfEven_between x). pose proof (roundHalfEven_between y). lia.
Qed.

Lemma roundHalfEven_Z (z : Z) : roundHalfEven (inject_Z z) = z.
Proof.
  unfold roundHalfEven. rewrite Qfloor_Z.
  destruct (Qcompare_spec (inject_Z z - inject_Z z) (1 # 2)) as [E | E | E];
    [exfalso; lra | reflexivity | exfalso; lra].
Qed.

Lemma roundHalfEven_comp (x y : Q) : (x == y)%Q -> roundHalfEven x = roundHalfEven y.
Proof.
  intros E. unfold roundHalfEven.
  rewrite (Qfloor_comp x y E).
  assert (Hc : Qcompare (x - inject_Z (Qfloor y)) (1 # 2)
               = Qcompare (y - inject_Z (Qfloor y)) (1 # 2)).
  { apply Qcompare_comp; [rewrite E; reflexivity | reflexivity]. }
  rewrite Hc. reflexivity.
Qed.

Lemma Qmake_as_div (a : Z) (b : positive) : (a # b == inject_Z a / inject_Z (Zpos b))%Q.
Proof. apply Qmake_Qdiv. Qed.

Lemma ilog2_spec (x : Q) :
  (0 < x)%Q -> (2 ^ ilog2 x <= x)%Q /\ (x < 2 ^ (ilog2 x + 1))%Q.
Proof.
  intros Hx. destruct x as [a b]. unfold ilog2. cbn [Qnum Qden].
  assert (Ha : 0 < a) by (unfold Qlt in Hx; cbn in Hx; lia).
  pose proof (Z.log2_spec a Ha) as [Halo Hahi].
  pose proof (Z.log2_spec (Zpos b) ltac:(lia)) as [Hblo Hbhi].
  pose proof (Z.log2_nonneg a) as Hla. pose proof (Z.log2_nonneg (Zpos b)) as Hlb.
  set (la := Z.log2 a) in *. set (lb := Z.log2 (Zpos b)) in *.
  assert (Hb : (0 < inject_Z (Zpos b))%Q) by reflexivity.
  assert (Hx' : (a # b == inject_Z a / inject_Z (Zpos b))%Q) by apply Qmake_Qdiv.
  destruct (Qle_bool (2 ^ (la - lb)) (a # b)) eqn:E.
  - apply Qle_bool_iff in E. split; [exact E |].
    rewrite Hx'. apply Qlt_shift_div_r; [exact Hb |].
    apply Qlt_le_trans with (inject_Z (2 ^ Z.succ la)); [rewrite <- Zlt_Qlt; exact Hahi |].
    apply Qle_trans with (2 ^ (la - lb + 1) * inject_Z (2 ^ lb))%Q.
    + rewrite <- !pow2_Z by lia. rewrite <- pow2_plus.
      replace (la - lb + 1 + lb) with (Z.succ la) by lia. apply Qle_refl.
    + apply Qmult_le_l; [apply pow2_pos |]. rewrite <- Zle_Qle. exact Hblo.
  - assert (Hlt : (a # b < 2 ^ (la - lb))%Q).
    { apply Qnot_le_lt. intros H. apply Qle_bool_iff in H. congruence. }
    split; [| replace (la - lb - 1 + 1) with (la - lb) by lia; exact Hlt].
    rewrite Hx'. apply Qle_shift_div_l; [exact Hb |].
    apply Qle_trans with (inject_Z (2 ^ la)); [| rewrite <- Zle_Qle; exact Halo].
    apply Qle_trans with (2 ^ (la - lb - 1) * inject_Z (2 ^ Z.succ lb))%Q.
    + apply Qmult_le_l; [apply pow2_pos |]. rewrite <- Zle_Qle. lia.
    + rewrite <- !pow2_Z by lia. rewrite <- pow2_plus.
      replace (la - lb - 1 + Z.succ lb) with la by lia. apply Qle_refl.
Qed.

Lemma ilog2_unique (x : Q) (k : Z) :
  (2 ^ k <= x)%Q -> (x < 2 ^ (k + 1))%Q -> ilog2 x = k.
Proof.
  intros Hlo Hhi.
  assert (Hx : (0 < x)%Q) by (apply Qlt_le_trans with (2 ^ k)%Q; [apply pow2_pos | exact Hlo]).
  destruct (ilog2_spec x Hx) as [Hlo' Hhi'].
  destruct (Z.lt_trichotomy (ilog2 x) k) as [Hlt | [E | Hgt]]; [| exact E |].
  - exfalso. pose proof (pow2_le (ilog2 x + 1) k ltac:(lia)). lra.
  - exfalso. pose proof (pow2_le (k + 1) (ilog2 x) ltac:(lia)). lra.
Qed.

Lemma ilog2_comp (x y : Q) : (0 < x)%Q -> (x == y)%Q -> ilog2 x = ilog2 y.
Proof.
  intros Hx E. symmetry. destruct (ilog2_spec x Hx) as [Hlo Hhi].
  apply ilog2_unique; rewrite <- E; assumption.
Qed.

Lemma ilog2_mono (x y : Q) : (0 < x)%Q -> (x <= y)%Q -> ilog2 x <= ilog2 y.
Proof.
  intros Hx Hxy.
  assert (Hy : (0 < y)%Q) by lra.
  destruct (ilog2_spec x Hx) as [Hlo _]. destruct (ilog2_spec y Hy) as [_ Hhi].
  destruct (Z.le_gt_cases (ilog2 x) (ilog2 y)) as [H | H]; [exact H |].
  exfalso. pose proof (pow2_le (ilog2 y + 1) (ilog2 x) ltac:(lia)). lra.
Qed.

(** The scaled value has 53 significant bits before the point. *)
Lemma scaled_range (x : Q) :
  (0 < x)%Q ->
  (inject_Z (2 ^ 52) <= x / 2 ^ (ilog2 x - 52))%Q /\
  (x / 2 ^ (ilog2 x - 52) < inject_Z (2 ^ 53))%Q.
Proof.
  intros Hx. destruct (ilog2_spec x Hx) as [Hlo Hhi].
  pose proof (pow2_pos (ilog2 x - 52)) as He.
  rewrite <- !pow2_Z by lia. split.
  - apply Qle_shift_div_l; [exact He |]. rewrite <- pow2_plus.
    replace (52 + (ilog2 x - 52)) with (ilog2 x) by lia. exact Hlo.
  - apply Qlt_shift_div_r; [exact He |]. rewrite <- pow2_plus.
    replace (53 + (ilog2 x - 52)) with (ilog2 x + 1) by lia. exact Hhi.
Qed.

Lemma roundPositive_bounds (x : Q) :
  (0 < x)%Q ->
  (2 ^ ilog2 x <= roundPositive x)%Q /\ (roundPositive x <= 2 ^ (ilog2 x + 1))%Q.
Proof.
  intros Hx. destruct (scaled_range x Hx) as [Hlo Hhi]. unfold roundPositive.
  set (e := ilog2 x - 52) in *. pose proof (pow2_pos e) as He.
  pose proof (roundHalfEven_mono _ _ Hlo) as Hm1. rewrite roundHalfEven_Z in Hm1.
  pose proof (roundHalfEven_mono _ _ (Qlt_le_weak _ _ Hhi)) as Hm2.
  rewrite roundHalfEven_Z in Hm2.
  split.
  - apply Qle_trans with (inject_Z (2 ^ 52) * 2 ^ e)%Q.
    + rewrite <- pow2_Z by lia. rewrite <- pow2_plus.
      replace (52 + e) with (ilog2 x) by (subst e; lia). apply Qle_refl.
    + apply Qmult_le_compat_r; [rewrite <- Zle_Qle; exact Hm1 | lra].
  - apply Qle_trans with (inject_Z (2 ^ 53) * 2 ^ e)%Q.
    + apply Qmult_le_compat_r; [rewrite <- Zle_Qle; exact Hm2 | lra].
    + rewrite <- pow2_Z by lia. rewrite <- pow2_plus.
      replace (53 + e) with (ilog2 x + 1) by (subst e; lia). apply Qle_refl.
Qed.

Lemma roundPositive_mono (x y : Q) :
  (0 < x)%Q -> (x <= y)%Q -> (roundPositive x <= roundPositive y)%Q.
Proof.
  intros Hx Hxy. assert (Hy : (0 < y)%Q) by lra.
  pose proof (ilog2_mono x y Hx Hxy) as Hk.
  destruct (Z.eq_dec (ilog2 x) (ilog2 y)) as [E | Hne].
  - unfold roundPositive. rewrite E.
    pose proof (pow2_pos (ilog2 y - 52)) as He.
    apply Qmult_le_compat_r; [| lra].
    rewrite <- Zle_Qle. apply roundHalfEven_mono.
    apply Qmult_le_compat_r; [exact Hxy |]. apply Qlt_le_weak, Qinv_lt_0_compat. exact He.
  - destruct (roundPositive_bounds x Hx) as [_ Hhi].
    destruct (roundPositive_bounds y Hy) as [Hlo _].
    pose proof (pow2_le (ilog2 x + 1) (ilog2 y) ltac:(lia)). lra.
Qed.

Lemma roundPositive_near (x : Q) :
  (0 < x)%Q ->
  (x - x * epsilon <= roundPositive x)%Q /\ (roundPositive x <= x + x * epsilon)%Q.
Proof.
  intros Hx. destruct (ilog2_spec x Hx) as [Hlo _]. unfold roundPositive.
  set (e := ilog2 x - 52) in *. pose proof (pow2_pos e) as He.
  pose proof (roundHalfEven_near (x / 2 ^ e)) as [Hn1 Hn2].
  assert (Hscale : (x / 2 ^ e * 2 ^ e == x)%Q) by (field; lra).
  assert (Hhalf : ((1 # 2) * 2 ^ e <= x * epsilon)%Q).
  { unfold epsilon. change (1 # 9007199254740992)%Q with (2 ^ (-53))%Q.
    apply Qle_trans with (2 ^ ilog2 x * 2 ^ (-53))%Q.
    - rewrite <- pow2_plus. replace (ilog2 x + -53) with (-1 + e) by (subst e; lia).
      rewrite pow2_plus. change (2 ^ (-1))%Q with (1 # 2)%Q. apply Qle_refl.
    - apply Qmult_le_compat_r; [exact Hlo |]. apply Qlt_le_weak, pow2_pos. }
  set (r := inject_Z (roundHalfEven (x / 2 ^ e))) in *.
  set (y := (x / 2 ^ e)%Q) in *. set (p := (2 ^ e)%Q) in *. set (d := (x * epsilon)%Q) in *.
  assert (H1 : ((y - (1 # 2)) * p <= r * p)%Q) by (apply Qmult_le_compat_r; lra).
  assert (H2 : (r * p <= (y + (1 # 2)) * p)%Q) by (apply Qmult_le_compat_r; lra).
  split; lra.
Qed.

Lemma fl_0 : fl 0 = 0%Q.
Proof. reflexivity. Qed.

Lemma fl_pos (x : Q) : (0 < x)%Q -> (fl x == roundPositive x)%Q.
Proof.
  intros Hx. unfold fl. rewrite Qred_correct.
  destruct (Qcompare_spec x 0) as [E | E | E]; [lra | lra | reflexivity].
Qed.

Lemma fl_neg (x : Q) : (x < 0)%Q -> (fl x == - roundPositive (- x))%Q.
Proof.
  intros Hx. unfold fl. rewrite Qred_correct.
  destruct (Qcompare_spec x 0) as [E | E | E]; [lra | reflexivity | lra].
Qed.

Lemma fl_zero (x : Q) : (x == 0)%Q -> fl x = 0%Q.
Proof.
  intros Hx. unfold fl.
  destruct (Qcompare_spec x 0) as [E | E | E]; [reflexivity | lra | lra].
Qed.

Lemma roundPositive_pos (x : Q) : (0 < x)%Q -> (0 < roundPositive x)%Q.
Proof.
  intros Hx. destruct (roundPositive_bounds x Hx) as [Hlo _].
  pose proof (pow2_pos (ilog2 x)). lra.
Qed.

Lemma roundPositive_comp (x y : Q) :
  (0 < x)%Q -> (x == y)%Q -> (roundPositive x == roundPositive y)%Q.
Proof.
  intros Hx E. unfold roundPositive. rewrite (ilog2_comp x y Hx E).
  rewrite (roundHalfEven_comp (x / 2 ^ (ilog2 y - 52)) (y / 2 ^ (ilog2 y - 52)));
    [reflexivity | rewrite E; reflexivity].
Qed.

(** Rounding depends on the value only, and its result is in lowest terms. *)
Lemma fl_comp (x y : Q) : (x == y)%Q -> fl x = fl y.
Proof.
  intros E. unfold fl. apply Qred_complete.
  rewrite <- (Qcompare_comp x y E 0%Q 0%Q (Qeq_refl 0%Q)).
  destruct (Qcompare_spec x 0) as [H | H | H]; [reflexivity | |].
  - apply Qopp_comp. apply roundPositive_comp; [lra | rewrite E; reflexivity].
  - apply roundPositive_comp; assumption.
Qed.

Lemma fl_mono (x y : Q) : (x <= y)%Q -> (fl x <= fl y)%Q.
Proof.
  intros Hxy.
  destruct (Qlt_le_dec x 0) as [Hx | Hx]; destruct (Qlt_le_dec y 0) as [Hy | Hy].
  - rewrite (fl_neg x Hx), (fl_neg y Hy).
    pose proof (roundPositive_mono (- y) (- x) ltac:(lra) ltac:(lra)). lra.
  - rewrite (fl_neg x Hx). pose proof (roundPositive_pos (- x) ltac:(lra)).
    destruct (Qle_lt_or_eq _ _ Hy) as [Hy' | Hy'].
    + rewrite (fl_pos y Hy'). pose proof (roundPositive_pos y Hy'). lra.
    + rewrite (fl_zero y (Qeq_sym _ _ Hy')). lra.
  - lra.
  - destruct (Qle_lt_or_eq _ _ Hx) as [Hx' | Hx'].
    + rewrite (fl_pos x Hx'), (fl_pos y ltac:(lra)). apply roundPositive_mono; assumption.
    + rewrite (fl_zero x (Qeq_sym _ _ Hx')).
      destruct (Qle_lt_or_eq _ _ Hy) as [Hy' | Hy'].
      * rewrite (fl_pos y Hy'). pose proof (roundPositive_pos y Hy'). lra.
      * rewrite (fl_zero y (Qeq_sym _ _ Hy')). lra.
Qed.

Lemma fl_opp (x : Q) : (fl (- x) == - fl x)%Q.
Proof.
  destruct (Q_dec x 0) as [[H | H] | H].
  - rewrite (fl_neg x H), (fl_pos (- x) ltac:(lra)). lra.
  - rewrite (fl_pos x H), (fl_neg (- x) ltac:(lra)).
    rewrite (roundPositive_comp (- - x) x ltac:(lra) ltac:(lra)). reflexivity.
  - rewrite (fl_zero x H), (fl_zero (- x) ltac:(lra)). reflexivity.
Qed.

(** The relative error of one rounding is at most [epsilon] = 2^-53. *)
Lemma fl_near (x : Q) :
  (0 <= x)%Q -> (x - x * epsilon <= fl x)%Q /\ (fl x <= x + x * epsilon)%Q.
Proof.
  intros Hx. destruct (Qle_lt_or_eq _ _ Hx) as [H | H].
  - rewrite (fl_pos x H). apply roundPositive_near. exact H.
  - rewrite (fl_zero x (Qeq_sym _ _ H)). rewrite <- H. split; lra.
Qed.

(** Integers of at most 53 bits are binary64 numbers. *)
Lemma fl_Z (z : Z) : Z.abs z <= 2 ^ 53 -> (fl (inject_Z z) == inject_Z z)%Q.
Proof.
  assert (Hpos : forall p : Z, 0 < p <= 2 ^ 53 ->
                   (roundPositive (inject_Z p) == inject_Z p)%Q).
  { intros p [Hp Hmax]. unfold roundPositive.
    assert (Hq : (0 < inject_Z p)%Q) by (change 0%Q with (inject_Z 0); rewrite <- Zlt_Qlt; exact Hp).
    destruct (ilog2_spec (inject_Z p) Hq) as [Hlo Hhi].
    set (k := ilog2 (inject_Z p)) in *.
    assert (Hk0 : 0 <= k).
    { destruct (Z.le_gt_cases 0 k) as [H | H]; [exact H | exfalso].
      pose proof (pow2_le (k + 1) 0 ltac:(lia)) as Hle. change (2 ^ 0)%Q with 1%Q in Hle.
      assert (inject_Z 1 <= inject_Z p)%Q by (rewrite <- Zle_Qle; lia).
      change (inject_Z 1) with 1%Q in *. lra. }
    assert (Hk53 : k <= 53).
    { destruct (Z.le_gt_cases k 53) as [H | H]; [exact H | exfalso].
      pose proof (pow2_le 54 k ltac:(lia)) as Hle.
      assert (inject_Z p <= inject_Z (2 ^ 53))%Q by (rewrite <- Zle_Qle; lia).
      rewrite <- pow2_Z in H0 by lia.
      pose proof (pow2_le 53 54 ltac:(lia)).
      assert ((2 ^ 53 < 2 ^ 54)%Q) by reflexivity. lra. }
    destruct (Z.eq_dec k 53) as [E53 | Hne].
    - assert (Hp53 : p = 2 ^ 53).
      { rewrite E53 in Hlo. rewrite pow2_Z in Hlo by lia. rewrite <- Zle_Qle in Hlo. lia. }
      rewrite E53, Hp53. reflexivity.
    - set (e := k - 52). assert (He : e <= 0) by (subst e; lia).
      assert (Hint : (inject_Z p / 2 ^ e == inject_Z (p * 2 ^ (- e)))%Q).
      { rewrite inject_Z_mult. rewrite <- pow2_Z by lia. rewrite Qpower_opp.
        field. pose proof (pow2_pos e). lra. }
      rewrite (roundHalfEven_comp _ _ Hint), roundHalfEven_Z.
      rewrite inject_Z_mult. rewrite <- pow2_Z by lia. rewrite Qpower_opp.
      field. pose proof (pow2_pos e). lra. }
  intros Hz. destruct (Z.lt_trichotomy z 0) as [Hn | [-> | Hp]].
  - assert (Hq : (inject_Z z < 0)%Q) by (change 0%Q with (inject_Z 0); rewrite <- Zlt_Qlt; exact Hn).
    rewrite (fl_neg _ Hq).
    rewrite (roundPositive_comp (- inject_Z z) (inject_Z (- z)));
      [| lra | rewrite inject_Z_opp; reflexivity].
    rewrite (Hpos (- z)) by lia. rewrite inject_Z_opp. lra.
  - reflexivity.
  - assert (Hq : (0 < inject_Z z)%Q) by (change 0%Q with (inject_Z 0); rewrite <- Zlt_Qlt; exact Hp).
    rewrite (fl_pos _ Hq). apply Hpos. lia.
Qed.

Lemma fl_nonneg (x : Q) : (0 <= x)%Q -> (0 <= fl x)%Q.
Proof. intros H. rewrite <- fl_0. apply fl_mono. exact H. Qed.

Lemma fl_le_Z (x : Q) (z : Z) :
  Z.abs z <= 2 ^ 53 -> (x <= inject_Z z)%Q -> (fl x <= inject_Z z)%Q.
Proof. intros Hz Hx. rewrite <- (fl_Z z Hz). apply fl_mono. exact Hx. Qed.

Lemma fl_ge_Z (x : Q) (z : Z) :
  Z.abs z <= 2 ^ 53 -> (inject_Z z <= x)%Q -> (inject_Z z <= fl x)%Q.
Proof. intros Hz Hx. rewrite <- (fl_Z z Hz). apply fl_mono. exact Hx. Qed.

Lemma add_mono (a a' b b' : Q) :
  (a <= a')%Q -> (b <= b')%Q -> (add a b <= add a' b')%Q.
Proof. intros Ha Hb. apply fl_mono. lra. Qed.

Lemma sub_mono (a a' b b' : Q) :
  (a <= a')%Q -> (b' <= b)%Q -> (sub a b <= sub a' b')%Q.
Proof. intros Ha Hb. apply fl_mono. lra. Qed.

Lemma mul_mono_r (a b c : Q) : (0 <= c)%Q -> (a <= b)%Q -> (mul a c <= mul b c)%Q.
Proof. intros Hc Hab. apply fl_mono. apply Qmult_le_compat_r; assumption. Qed.

Lemma div_mono_l (a b d : Q) : (0 < d)%Q -> (a <= b)%Q -> (div a d <= div b d)%Q.
Proof.
  intros Hd Hab. apply fl_mono. apply Qmult_le_compat_r; [exact Hab |].
  apply Qlt_le_weak, Qinv_lt_0_compat. exact Hd.
Qed.


(** A ratio of two counts, the smaller over the larger, times 100, as
    binary64 arithmetic computes it: the quotient is rounded and so is the
    product.  The result is a percentage, and differs from the exact value
    by at most that value times 2^-52 + 2^-106. *)
Lemma percentage_of_counts (k n : Z) :
  0 <= k <= n -> 0 < n ->
  (0 <= mul (div (inject_Z k) (inject_Z n)) 100 <= 100)%Q /\
  (inject_Z k / inject_Z n * 100
   - inject_Z k / inject_Z n * 100
     * (2 * epsilon + epsilon * epsilon)
   <= mul (div (inject_Z k) (inject_Z n)) 100)%Q /\
  (mul (div (inject_Z k) (inject_Z n)) 100
   <= inject_Z k / inject_Z n * 100
      + inject_Z k / inject_Z n * 100
        * (2 * epsilon + epsilon * epsilon))%Q.
Proof.
  intros [Hk Hkn] Hn. unfold mul, div.
  assert (Hn' : (0 < inject_Z n)%Q)
    by (change 0%Q with (inject_Z 0); rewrite <- Zlt_Qlt; exact Hn).
  assert (Hq0 : (0 <= inject_Z k / inject_Z n)%Q).
  { apply Qle_shift_div_l; [exact Hn' |]. rewrite Qmult_0_l.
    change 0%Q with (inject_Z 0). rewrite <- Zle_Qle. exact Hk. }
  assert (Hq1 : (inject_Z k / inject_Z n <= 1)%Q).
  { apply Qle_shift_div_r; [exact Hn' |]. rewrite Qmult_1_l. rewrite <- Zle_Qle. exact Hkn. }
  set (q := (inject_Z k / inject_Z n)%Q) in *.
  pose proof (fl_nonneg q Hq0) as Ha0.
  pose proof (fl_le_Z q 1 ltac:(cbn; lia) Hq1) as Ha1. change (inject_Z 1) with 1%Q in Ha1.
  destruct (fl_near q Hq0) as [Hlo Hhi].
  set (a := fl q) in *.
  assert (Hp0 : (0 <= a * 100)%Q) by lra.
  pose proof (fl_nonneg (a * 100) Hp0) as Hu0.
  pose proof (fl_le_Z (a * 100) 100 ltac:(cbn; lia) ltac:(change (inject_Z 100) with 100%Q; lra))
    as Hu1.
  change (inject_Z 100) with 100%Q in Hu1.
  destruct (fl_near (a * 100) Hp0) as [Hlo' Hhi'].
  set (u := fl (a * 100)) in *.
  unfold epsilon in *.
  repeat split; lra.
Qed.

End Binary64Facts.

(** ** Circuit breaker *)

Section BreakerFacts.

Import CircuitBreaker.

Lemma includes_prefix (s sub : string) :
  String.prefix sub s = true -> includes s sub = true.
Proof. intros H. destruct s; cbn [includes]; rewrite H; reflexivity. Qed.

Lemma isExpectedError_intro (cb : t) (error : Error) (expected : string) :
  List.In expected (expectedErrors (options cb)) ->
  includes (message error) expected = true ->
  isExpectedError cb error = true.
Proof.
  intros Hin Hinc. unfold isExpectedError.
  apply existsb_exists. exists expected. split; assumption.
Qed.

Lemma onFailure_counted (cb : t) (error : Error) (tFail tOpen : Z) :
  isExpectedError cb error = false ->
  onFailure error tFail tOpen cb =
    match state cb with
    | HALF_OPEN =>
        mk (serviceName cb) (options cb) OPEN (failureCount cb + 1) (Some tFail)
           (Some (tOpen + resetTimeout (options cb))) (successCount cb)
    | CLOSED =>
        if threshold (options cb) <=? failureCount cb + 1
        then mk (serviceName cb) (options cb) OPEN (failureCount cb + 1) (Some tFail)
                (Some (tOpen + resetTimeout (options cb))) (successCount cb)
        else mk (serviceName cb) (options cb) CLOSED (failureCount cb + 1) (Some tFail)
                (nextRetryTime cb) (successCount cb)
    | OPEN =>
        mk (serviceName cb) (options cb) OPEN (failureCount cb + 1) (Some tFail)
           (nextRetryTime cb) (successCount cb)
    end.
Proof.
  intros Hexp. unfold onFailure. rewrite Hexp.
  destruct cb as [n o s f l r sc]; simpl in *.
  destruct s; reflexivity.
Qed.

(** C5: an error whose message contains an entry of [expectedErrors]
    leaves [failureCount], [lastFailureTime] and the state as they were,
    whatever the state: the failure handler returns the breaker untouched. *)
Theorem expected_error_leaves_breaker_unchanged :
  forall (cb : t) (error : Error) (tFail tOpen : Z) (expected : string),
    List.In expected (expectedErrors (options cb)) ->
    includes (message error) expected = true ->
    failureCount (onFailure error tFail tOpen cb) = failureCount cb /\
    lastFailureTime (onFailure error tFail tOpen cb) = lastFailureTime cb /\
    state (onFailure error tFail tOpen cb) = state cb /\
    onFailure error tFail tOpen cb = cb.
Proof.
  intros cb error tFail tOpen expected Hin Hinc.
  assert (Hsame : onFailure error tFail tOpen cb = cb).
  { unfold onFailure. rewrite (isExpectedError_intro cb error expected Hin Hinc).
    reflexivity. }
  rewrite Hsame. repeat split; reflexivity.
Qed.

Lemma expected_error_leaves_breaker_unchanged_witness :
  failureCount (onFailure (new_Error "ValidationError: bad id") 40000 40001 sampleHalfOpen) = 2 /\
  lastFailureTime (onFailure (new_Error "ValidationError: bad id") 40000 40001 sampleHalfOpen)
    = Some 1000 /\
  state (onFailure (new_Error "ValidationError: bad id") 40000 40001 sampleHalfOpen) = HALF_OPEN /\
  onFailure (new_Error "ValidationError: bad id") 40000 40001 sampleHalfOpen = sampleHalfOpen.
Proof.
  apply (expected_error_leaves_breaker_unchanged sampleHalfOpen
           (new_Error "ValidationError: bad id") 40000 40001 "ValidationError").
  - simpl. left. reflexivity.
  - reflexivity.
Defined.

(** C10: with no recorded call the reported uptime is 100; with at least
    one it is the share of successes among the recorded calls, times 100,
    in binary64 arithmetic: the quotient rounded, and the product rounded.
    For counters that are not negative the result lies between 0 and 100,
    differs from the exact value of the ratio times 100 by at most that
    value times 2^-52 + 2^-106, and is exactly 100 without failures and
    exactly 0 without successes. *)
Theorem uptime_is_100_without_calls_else_success_ratio :
  forall cb : t,
    (successCount cb + failureCount cb = 0 ->
       m_uptime (getMetrics cb) = 100%Q) /\
    (successCount cb + failureCount cb <> 0 ->
       m_uptime (getMetrics cb) =
         Binary64.mul
           (Binary64.div (inject_Z (successCount cb))
                         (inject_Z (successCount cb + failureCount cb)))
           100) /\
    (0 <= successCount cb -> 0 <= failureCount cb ->
     successCount cb + failureCount cb <> 0 ->
       (0 <= m_uptime (getMetrics cb) <= 100)%Q /\
       (inject_Z (successCount cb) / inject_Z (successCount cb + failureCount cb) * 100
        - inject_Z (successCount cb) / inject_Z (successCount cb + failureCount cb) * 100
          * (2 * Binary64.epsilon + Binary64.epsilon * Binary64.epsilon)
        <= m_uptime (getMetrics cb))%Q /\
       (m_uptime (getMetrics cb)
        <= inject_Z (successCount cb) / inject_Z (successCount cb + failureCount cb) * 100
           + inject_Z (successCount cb) / inject_Z (successCount cb + failureCount cb) * 100
             * (2 * Binary64.epsilon + Binary64.epsilon * Binary64.epsilon))%Q /\
       (failureCount cb = 0 -> m_uptime (getMetrics cb) = 100%Q) /\
       (successCount cb = 0 -> m_uptime (getMetrics cb) = 0%Q)).
Proof.
  intros cb. unfold getMetrics, calculateUptime; cbn [m_uptime].
  rewrite (Z.add_comm (failureCount cb) (successCount cb)).
  split; [| split].
  - intros H. rewrite H. reflexivity.
  - intros H.
    destruct (Z.eqb_spec (successCount cb + failureCount cb) 0) as [E | _];
      [contradiction | reflexivity].
  - intros Hs Hf H.
    destruct (Z.eqb_spec (successCount cb + failureCount cb) 0) as [E | _]; [contradiction |].
    destruct (percentage_of_counts (successCount cb) (successCount cb + failureCount cb))
      as [Hrange [Hlo Hhi]]; [lia | lia |].
    split; [exact Hrange |]. split; [exact Hlo |]. split; [exact Hhi |].
    assert (Hn : ~ (inject_Z (successCount cb + failureCount cb) == 0)%Q).
    { intros E. unfold Qeq in E. cbn in E. lia. }
    split.
    + intros Hnone. rewrite Hnone, Z.add_0_r in *. unfold Binary64.mul, Binary64.div.
      rewrite (fl_comp (inject_Z (successCount cb) / inject_Z (successCount cb)) 1)
        by (field; exact Hn).
      reflexivity.
    + intros Hnone. rewrite Hnone. unfold Binary64.mul, Binary64.div.
      rewrite (fl_zero (inject_Z 0 / inject_Z (0 + failureCount cb)))
        by (unfold Qdiv; rewrite Qmult_0_l; reflexivity).
      reflexivity.
Qed.

Lemma uptime_is_100_without_calls_else_success_ratio_witness :
  m_uptime (getMetrics (new default_circuitBreaker_config "auth" no_options)) = 100%Q /\
  m_uptime (getMetrics sampleHalfOpen)
    = Binary64.mul (Binary64.div (inject_Z 7) (inject_Z (7 + 2))) 100 /\
  (0 <= m_uptime (getMetrics sampleHalfOpen) <= 100)%Q.
Proof.
  destruct (uptime_is_100_without_calls_else_success_ratio
              (new default_circuitBreaker_config "auth" no_options)) as [Hnone _].
  destruct (uptime_is_100_without_calls_else_success_ratio sampleHalfOpen)
    as [_ [Hvalue Hbounds]].
  split; [apply Hnone; reflexivity |].
  split; [apply Hvalue; cbn; lia | apply Hbounds; cbn; lia].
Defined.

(** Seven successes and two failures: the uptime is the binary64 number
    written 77.77777777777779, not the ratio 700/9 itself, and it is what
    the Standard Library's IEEE 754 operations give. *)
Example uptime_of_seven_in_nine :
  m_uptime (getMetrics sampleHalfOpen) = (5473124547151645 # 70368744177664)%Q /\
  ~ (m_uptime (getMetrics sampleHalfOpen) == 700 # 9)%Q /\
  Binary64.toQ (SFmul 53 1024 (SFdiv 53 1024 (Binary64.ofZ 7) (Binary64.ofZ 9))
                      (Binary64.ofZ 100))
    = Some (m_uptime (getMetrics sampleHalfOpen)).
Proof. repeat split; try (vm_compute; reflexivity). vm_compute. discriminate. Qed.

End BreakerFacts.

Section BreakerStateMachine.

Import CircuitBreaker.

Context {W T : Type}.
Variable clock : W -> Z.

Lemma isExpectedError_options (cb cb' : t) (error : Error) :
  options cb' = options cb -> isExpectedError cb' error = isExpectedError cb error.
Proof. intros H. unfold isExpectedError. rewrite H. reflexivity. Qed.

Lemma failsUnexpectedly_options (cb cb' : t) (fn : W -> (Error + T) * W) :
  options cb' = options cb -> failsUnexpectedly cb fn -> failsUnexpectedly cb' fn.
Proof.
  intros Ho Hf w. destruct (Hf w) as [e [He Hx]].
  exists e. split; [assumption |]. rewrite (isExpectedError_options cb cb' e Ho). assumption.
Qed.

Lemma guard_not_open (now : Z) (cb : t) : state cb <> OPEN -> guard now cb = inr cb.
Proof. unfold guard. destruct (state cb); congruence. Qed.

Lemma guard_open_early (now retryAt : Z) (cb : t) :
  state cb = OPEN -> nextRetryTime cb = Some retryAt -> now < retryAt ->
  guard now cb = inl (open_error cb).
Proof.
  intros Hs Hr Hlt. unfold guard, shouldAttemptReset. rewrite Hs, Hr.
  destruct (Z.leb_spec retryAt now); [lia | reflexivity].
Qed.

Lemma guard_open_due (now retryAt : Z) (cb : t) :
  state cb = OPEN -> nextRetryTime cb = Some retryAt -> retryAt <= now ->
  guard now cb = inr (set_state HALF_OPEN cb).
Proof.
  intros Hs Hr Hle. unfold guard, shouldAttemptReset. rewrite Hs, Hr.
  destruct (Z.leb_spec retryAt now); [reflexivity | lia].
Qed.

(** What [execute] comes to once the guard lets the call through. *)
Lemma execute_passed (fn : W -> (Error + T) * W) (cb cb1 : t) (w : W) :
  guard (clock w) cb = inr cb1 ->
  execute clock fn cb w =
    (fst (fn w),
     match fst (fn w) with
     | inr _ => onSuccess cb1
     | inl error => onFailure error (clock (snd (fn w))) (clock (snd (fn w))) cb1
     end,
     snd (fn w)).
Proof.
  intros Hg. unfold execute. rewrite Hg.
  destruct (fn w) as [[e | r] w1]; reflexivity.
Qed.

Lemma executeAll_app (fns gns : list (W -> (Error + T) * W)) (cb : t) (w : W) :
  executeAll clock (fns ++ gns) cb w =
    executeAll clock gns (fst (executeAll clock fns cb w)) (snd (executeAll clock fns cb w)).
Proof.
  revert cb w. induction fns as [| fn fns IH]; intros cb w; simpl.
  - reflexivity.
  - destruct (execute clock fn cb w) as [[r cb1] w1]. apply IH.
Qed.

(** Failures that stay below the threshold keep the breaker CLOSED and
    are counted one by one. *)
Lemma closed_below_threshold (fns : list (W -> (Error + T) * W)) :
  forall (cb : t) (w : W),
    state cb = CLOSED ->
    Forall (failsUnexpectedly cb) fns ->
    failureCount cb + Z.of_nat (length fns) < threshold (options cb) ->
    state (fst (executeAll clock fns cb w)) = CLOSED /\
    failureCount (fst (executeAll clock fns cb w)) = failureCount cb + Z.of_nat (length fns) /\
    options (fst (executeAll clock fns cb w)) = options cb.
Proof.
  induction fns as [| fn fns IH]; intros cb w Hs Hall Hlt.
  - simpl. repeat split; try assumption. lia.
  - inversion Hall as [| ? ? Hfn Hrest]; subst.
    cbn [executeAll].
    rewrite (execute_passed fn cb cb w) by (apply guard_not_open; congruence).
    destruct (Hfn w) as [e [He Hx]]. rewrite He.
    rewrite (onFailure_counted cb e _ _ Hx). rewrite Hs.
    cbn [length] in Hlt.
    destruct (Z.leb_spec (threshold (options cb)) (failureCount cb + 1)); [lia |].
    set (cb1 := mk _ _ _ _ _ _ _).
    destruct (IH cb1 (snd (fn w))) as [H1 [H2 H3]].
    + reflexivity.
    + eapply List.Forall_impl; [| exact Hrest].
      intros g Hg. apply (failsUnexpectedly_options cb cb1 g); [reflexivity | exact Hg].
    + subst cb1; simpl. lia.
    + rewrite H1, H2, H3. subst cb1; simpl. repeat split; try reflexivity. lia.
Qed.

Lemma set_state_same (cb : t) : set_state (state cb) cb = cb.
Proof. destruct cb; reflexivity. Qed.

(** The call that reaches the threshold opens the breaker. *)
Lemma closed_reaching_threshold (fn : W -> (Error + T) * W) (cb : t) (w : W) :
  state cb = CLOSED ->
  failsUnexpectedly cb fn ->
  threshold (options cb) <= failureCount cb + 1 ->
  state (snd (fst (execute clock fn cb w))) = OPEN /\
  nextRetryTime (snd (fst (execute clock fn cb w))) =
    Some (clock (snd (execute clock fn cb w)) + resetTimeout (options cb)).
Proof.
  intros Hs Hfn Hge.
  rewrite (execute_passed fn cb cb w) by (apply guard_not_open; congruence).
  destruct (Hfn w) as [e [He Hx]]. rewrite He. cbn [fst snd].
  rewrite (onFailure_counted cb e _ _ Hx), Hs.
  destruct (Z.leb_spec (threshold (options cb)) (failureCount cb + 1)); [| lia].
  split; reflexivity.
Qed.

(** C1: the breaker follows the transition table.  From CLOSED with no
    failure counted and threshold [n], [n] consecutive calls failing with
    errors outside the allow-list leave it CLOSED until the [n]-th, which
    opens it with [nextRetryTime] one [resetTimeout] after that failure;
    while OPEN before [nextRetryTime], [execute] refuses the call and the
    wrapped function is not run (breaker and world stay as they are); from
    [nextRetryTime] on, [execute] moves to HALF_OPEN and runs the function
    once; a call served in HALF_OPEN that succeeds closes the breaker with
    both counters at 0; one that fails outside the allow-list reopens it
    with a new [nextRetryTime]. *)
Theorem circuit_breaker_state_machine :
  forall cb : t,
    (forall (n : nat) (fns : list (W -> (Error + T) * W)) (w : W),
        state cb = CLOSED -> failureCount cb = 0 ->
        threshold (options cb) = Z.of_nat n -> (1 <= n)%nat ->
        length fns = n -> Forall (failsUnexpectedly cb) fns ->
        (forall k, (k < n)%nat ->
           state (fst (executeAll clock (firstn k fns) cb w)) = CLOSED) /\
        state (fst (executeAll clock fns cb w)) = OPEN /\
        nextRetryTime (fst (executeAll clock fns cb w)) =
          Some (clock (snd (executeAll clock fns cb w)) + resetTimeout (options cb))) /\
    (forall (retryAt : Z) (fn : W -> (Error + T) * W) (w : W),
        state cb = OPEN -> nextRetryTime cb = Some retryAt -> clock w < retryAt ->
        execute clock fn cb w = (inl (open_error cb), cb, w)) /\
    (forall (retryAt : Z) (fn : W -> (Error + T) * W) (w : W),
        state cb = OPEN -> nextRetryTime cb = Some retryAt -> retryAt <= clock w ->
        guard (clock w) cb = inr (set_state HALF_OPEN cb) /\
        fst (fst (execute clock fn cb w)) = fst (fn w) /\
        snd (execute clock fn cb w) = snd (fn w)) /\
    (forall (fn : W -> (Error + T) * W) (w : W) (served : t) (result : T),
        guard (clock w) cb = inr served -> state served = HALF_OPEN ->
        fst (fn w) = inr result ->
        state (snd (fst (execute clock fn cb w))) = CLOSED /\
        failureCount (snd (fst (execute clock fn cb w))) = 0 /\
        successCount (snd (fst (execute clock fn cb w))) = 0) /\
    (forall (fn : W -> (Error + T) * W) (w : W) (served : t) (error : Error),
        guard (clock w) cb = inr served -> state served = HALF_OPEN ->
        fst (fn w) = inl error -> isExpectedError cb error = false ->
        state (snd (fst (execute clock fn cb w))) = OPEN /\
        nextRetryTime (snd (fst (execute clock fn cb w))) =
          Some (clock (snd (fn w)) + resetTimeout (options cb))).
Proof.
  intros cb. repeat apply conj.
  - intros n fns w Hs Hf0 Hthr Hn Hlen Hall. split.
    + intros k Hk.
      rewrite <- (firstn_skipn k fns) in Hall. apply Forall_app in Hall as [Hpre _].
      apply closed_below_threshold; [assumption | assumption |].
      rewrite length_firstn, Hf0, Hthr. lia.
    + destruct (exists_last (l := fns)) as [init [fn Hsplit]].
      { intros ->. simpl in Hlen. lia. }
      subst fns. rewrite length_app in Hlen. simpl in Hlen.
      apply Forall_app in Hall as [Hinit Hlast].
      inversion Hlast as [| ? ? Hfn _]; subst.
      destruct (closed_below_threshold init cb w Hs Hinit) as [H1 [H2 H3]];
        [rewrite Hf0, Hthr; lia |].
      rewrite executeAll_app.
      set (cb1 := fst (executeAll clock init cb w)) in *.
      set (w1 := snd (executeAll clock init cb w)) in *.
      destruct (closed_reaching_threshold fn cb1 w1 H1) as [Ho Hr].
      { apply (failsUnexpectedly_options cb cb1 fn H3 Hfn). }
      { rewrite H2, H3, Hf0, Hthr. lia. }
      cbn [executeAll].
      destruct (execute clock fn cb1 w1) as [[r cb2] w2]. cbn [fst snd] in *.
      rewrite <- H3. split; assumption.
  - intros retryAt fn w Hs Hr Hlt. unfold execute.
    rewrite (guard_open_early _ retryAt cb Hs Hr Hlt). reflexivity.
  - intros retryAt fn w Hs Hr Hle.
    pose proof (guard_open_due _ retryAt cb Hs Hr Hle) as Hg.
    rewrite (execute_passed fn cb _ w Hg). repeat split. exact Hg.
  - intros fn w served result Hg Hh Hok.
    rewrite (execute_passed fn cb served w Hg), Hok. cbn [fst snd].
    unfold onSuccess. simpl. rewrite Hh. repeat split.
  - intros fn w served error Hg Hh Hko Hx.
    rewrite (execute_passed fn cb served w Hg), Hko. cbn [fst snd].
    assert (Ho : options served = options cb).
    { unfold guard in Hg. destruct (state cb); try (inversion Hg; reflexivity).
      destruct (shouldAttemptReset (clock w) cb); inversion Hg; reflexivity. }
    rewrite (onFailure_counted served error), Hh, Ho;
      [split; reflexivity | rewrite (isExpectedError_options cb served error Ho); exact Hx].
Qed.

End BreakerStateMachine.

Section BreakerScenario.

Import CircuitBreaker.

Lemma refusing_failsUnexpectedly (cb : t) :
  expectedErrors (options cb) = [] -> failsUnexpectedly cb refusing.
Proof.
  intros He w. eexists. split; [reflexivity |].
  unfold isExpectedError. rewrite He. reflexivity.
Qed.

Lemma circuit_breaker_state_machine_witness :
  (state openedBreaker = OPEN /\ nextRetryTime openedBreaker = Some 30015) /\
  execute clockOf answering openedBreaker 20000
    = (inl (open_error openedBreaker), openedBreaker, 20000) /\
  (guard 30015 openedBreaker = inr (set_state HALF_OPEN openedBreaker) /\
   snd (execute clockOf answering openedBreaker 30015) = 30020) /\
  (state (snd (fst (execute clockOf answering openedBreaker 30015))) = CLOSED /\
   failureCount (snd (fst (execute clockOf answering openedBreaker 30015))) = 0 /\
   successCount (snd (fst (execute clockOf answering openedBreaker 30015))) = 0) /\
  (state (snd (fst (execute clockOf refusing openedBreaker 30015))) = OPEN /\
   nextRetryTime (snd (fst (execute clockOf refusing openedBreaker 30015))) = Some 60020).
Proof.
  destruct (@circuit_breaker_state_machine Z unit clockOf specBreaker) as [P1 _].
  destruct (@circuit_breaker_state_machine Z unit clockOf openedBreaker)
    as [_ [P2 [P3 [P4 P5]]]].
  repeat apply conj.
  - apply (P1 3%nat [refusing; refusing; refusing] 0);
      try reflexivity; [lia | repeat constructor; apply refusing_failsUnexpectedly; reflexivity].
  - apply (P1 3%nat [refusing; refusing; refusing] 0);
      try reflexivity; [lia | repeat constructor; apply refusing_failsUnexpectedly; reflexivity].
  - apply (P2 30015 answering 20000); [reflexivity | reflexivity | unfold clockOf; lia].
  - apply (P3 30015 answering 30015); [reflexivity | reflexivity | unfold clockOf; lia].
  - apply (P3 30015 answering 30015); [reflexivity | reflexivity | unfold clockOf; lia].
  - apply (P4 answering 30015 (set_state HALF_OPEN openedBreaker) tt); reflexivity.
  - apply (P4 answering 30015 (set_state HALF_OPEN openedBreaker) tt); reflexivity.
  - apply (P4 answering 30015 (set_state HALF_OPEN openedBreaker) tt); reflexivity.
  - apply (P5 refusing 30015 (set_state HALF_OPEN openedBreaker)
              (mkError "connect ECONNREFUSED" (Some "ECONNREFUSED"%string) None));
      reflexivity.
  - apply (P5 refusing 30015 (set_state HALF_OPEN openedBreaker)
              (mkError "connect ECONNREFUSED" (Some "ECONNREFUSED"%string) None));
      reflexivity.
Defined.

(** Counting the runs of the wrapped function: the world is the clock
    together with the number of runs so far. *)
Example rejected_call_never_runs :
  snd (execute fst (fun w => (inr tt, (fst w + 5, S (snd w)))) openedBreaker (20000, 0%nat))
    = (20000, 0%nat).
Proof. reflexivity. Qed.

Example trial_call_runs_once :
  snd (execute fst (fun w => (inr tt, (fst w + 5, S (snd w)))) openedBreaker (30015, 0%nat))
    = (30020, 1%nat).
Proof. reflexivity. Qed.

(** Below the threshold the breaker stays closed, and a success in between
    starts the count again. *)
Example success_restarts_the_count :
  let cb := fst (executeAll clockOf [refusing; refusing; answering; refusing; refusing]
                            specBreaker 0) in
  state cb = CLOSED /\ failureCount cb = 2 /\ successCount cb = 1.
Proof. repeat split. Qed.

End BreakerScenario.

(** ** Load balancer *)

Section SelectionFacts.

Import LoadBalancer.

Lemma healthy_candidates (lb : t) (instance : ServiceInstance) :
  List.In instance (getHealthyInstances lb) ->
  status (health instance) = healthy /\ List.In instance (instances lb).
Proof.
  unfold getHealthyInstances. intros H. apply filter_In in H as [Hin Hh].
  split; [| exact Hin].
  unfold is_healthy in Hh. destruct (status (health instance)); simpl in Hh; congruence.
Qed.

Lemma nth_error_selectsFrom (candidates : list ServiceInstance) (i : nat) :
  (i < length candidates)%nat -> selectsFrom candidates (nth_error candidates i).
Proof.
  intros Hi. destruct (nth_error candidates i) as [x |] eqn:E.
  - exists x. split; [reflexivity |]. eapply nth_error_In; exact E.
  - apply nth_error_None in E. lia.
Qed.

Lemma roundRobin_selectsFrom (candidates : list ServiceInstance) (lb : t) :
  candidates <> [] -> selectsFrom candidates (fst (roundRobinSelection candidates lb)).
Proof.
  intros Hne. unfold roundRobinSelection; cbn [fst].
  apply nth_error_selectsFrom. apply Nat.mod_upper_bound.
  destruct candidates; [congruence | simpl; lia].
Qed.

Lemma fold_least_In (rest : list ServiceInstance) :
  forall first,
    List.In
      (fold_left
         (fun prev current =>
            if currentConnections prev <=? currentConnections current then prev else current)
         rest first)
      (first :: rest).
Proof.
  induction rest as [| x rest IH]; intros first; cbn [fold_left].
  - left; reflexivity.
  - destruct (currentConnections first <=? currentConnections x).
    + destruct (IH first) as [H | H]; [left; exact H | right; right; exact H].
    + right. apply IH.
Qed.

Lemma leastConnections_selectsFrom (candidates : list ServiceInstance) :
  candidates <> [] -> selectsFrom candidates (leastConnectionsSelection candidates).
Proof.
  intros Hne. destruct candidates as [| first rest]; [congruence |].
  eexists. split; [reflexivity |]. apply fold_least_In.
Qed.

Lemma weightedScan_In (candidates : list ServiceInstance) :
  forall remaining instance,
    weightedScan remaining candidates = Some instance -> List.In instance candidates.
Proof.
  induction candidates as [| x rest IH]; intros remaining instance H; cbn [weightedScan] in H.
  - discriminate.
  - destruct (Qle_bool (Binary64.sub remaining (weight x)) 0).
    + inversion H; subst. left; reflexivity.
    + right. eapply IH; exact H.
Qed.

Lemma weighted_selectsFrom (rand : Q) (candidates : list ServiceInstance) :
  candidates <> [] -> selectsFrom candidates (weightedSelection rand candidates).
Proof.
  intros Hne. unfold weightedSelection.
  destruct (weightedScan _ candidates) as [x |] eqn:E.
  - exists x. split; [reflexivity |]. eapply weightedScan_In; exact E.
  - apply nth_error_selectsFrom. destruct candidates; [congruence | simpl; lia].
Qed.

Lemma random_index_in_range (rand : Q) (n : nat) :
  (0 <= rand)%Q -> (rand < 1)%Q -> (0 < n)%nat ->
  0 <= Math_floor (rand * inject_Z (Z.of_nat n))%Q < Z.of_nat n.
Proof.
  intros H0 H1 Hn. unfold Math_floor.
  assert (Hpos : (0 < inject_Z (Z.of_nat n))%Q).
  { change 0%Q with (inject_Z 0). rewrite <- Zlt_Qlt. lia. }
  split.
  - change 0 with (Qfloor 0). apply Qfloor_resp_le.
    apply Qmult_le_0_compat; [exact H0 | apply Qlt_le_weak; exact Hpos].
  - rewrite Zlt_Qlt. eapply Qle_lt_trans; [apply Qfloor_le |].
    rewrite <- (Qmult_1_l (inject_Z (Z.of_nat n))) at 2.
    apply Qmult_lt_compat_r; assumption.
Qed.

Lemma random_selectsFrom (rand : Q) (candidates : list ServiceInstance) :
  (0 <= rand)%Q -> (rand < 1)%Q ->
  candidates <> [] -> selectsFrom candidates (randomSelection rand candidates).
Proof.
  intros H0 H1 Hne. unfold randomSelection.
  assert (Hlen : (0 < length candidates)%nat)
    by (destruct candidates; [congruence | simpl; lia]).
  pose proof (random_index_in_range rand (length candidates) H0 H1 Hlen) as [Hlo Hhi].
  destruct (Z.ltb_spec (Math_floor (rand * inject_Z (Z.of_nat (length candidates)))%Q) 0);
    [lia |].
  apply nth_error_selectsFrom. lia.
Qed.

Lemma getNextInstance_selectsFrom (rand : Q) (lb : t) :
  (0 <= rand)%Q -> (rand < 1)%Q ->
  getHealthyInstances lb <> [] ->
  selectsFrom (getHealthyInstances lb) (fst (getNextInstance rand lb)).
Proof.
  intros H0 H1 Hne. unfold getNextInstance.
  destruct (Nat.eqb_spec (length (getHealthyInstances lb)) 0) as [E | _].
  - destruct (getHealthyInstances lb); [congruence | discriminate].
  - destruct (strategy (options lb)); cbn [fst].
    + apply roundRobin_selectsFrom; assumption.
    + apply leastConnections_selectsFrom; assumption.
    + apply weighted_selectsFrom; assumption.
    + apply random_selectsFrom; assumption.
    + apply roundRobin_selectsFrom; assumption.
Qed.

(** The healthy set is empty exactly when no instance of the pool has the
    status [healthy]. *)
Lemma no_healthy_instances (lb : t) :
  getHealthyInstances lb = []
  <-> forall instance, List.In instance (instances lb) -> status (health instance) <> healthy.
Proof.
  unfold getHealthyInstances. split.
  - intros Hempty instance Hin Hstatus.
    assert (Hfiltered : List.In instance (List.filter is_healthy (instances lb))).
    { apply filter_In. split; [exact Hin |]. unfold is_healthy. rewrite Hstatus. reflexivity. }
    rewrite Hempty in Hfiltered. exact Hfiltered.
  - intros Hnone.
    destruct (List.filter is_healthy (instances lb)) as [| x rest] eqn:E; [reflexivity |].
    exfalso.
    assert (Hin : List.In x (List.filter is_healthy (instances lb)))
      by (rewrite E; left; reflexivity).
    apply (healthy_candidates lb x) in Hin. destruct Hin as [Hstatus Hin].
    exact (Hnone x Hin Hstatus).
Qed.

(** C3: whatever the pool and the strategy, [getNextInstance] returns only
    instances of the pool whose health status is [healthy], and it returns
    [null] exactly when no instance of the pool has the status [healthy].
    The random draw is a [Math.random()] value, in [0, 1). *)
Theorem getNextInstance_returns_only_healthy :
  forall (lb : t) (rand : Q),
    (0 <= rand)%Q -> (rand < 1)%Q ->
    (forall instance,
        fst (getNextInstance rand lb) = Some instance ->
        status (health instance) = healthy /\ List.In instance (instances lb)) /\
    (fst (getNextInstance rand lb) = None
     <-> forall instance,
           List.In instance (instances lb) -> status (health instance) <> healthy).
Proof.
  intros lb rand H0 H1. rewrite <- no_healthy_instances.
  destruct (getHealthyInstances lb) as [| h hs] eqn:E.
  - assert (Hnone : fst (getNextInstance rand lb) = None)
      by (unfold getNextInstance; rewrite E; reflexivity).
    rewrite Hnone. split; [discriminate | tauto].
  - destruct (getNextInstance_selectsFrom rand lb H0 H1) as [x [Hx Hin]];
      [rewrite E; discriminate |].
    rewrite Hx. split.
    + intros instance Heq. inversion Heq; subst. apply healthy_candidates. exact Hin.
    + split; discriminate.
Qed.

End SelectionFacts.

Section SelectionScenario.

Import LoadBalancer.

Example sample_least_connections :
  fst (getNextInstance (1 # 2) (samplePool least_connections)) = Some instB.
Proof. reflexivity. Qed.

Example sample_weighted :
  fst (getNextInstance (1 # 2) (samplePool weighted)) = Some instB.
Proof. reflexivity. Qed.

Example sample_random :
  fst (getNextInstance (9 # 10) (samplePool random)) = Some instC.
Proof. reflexivity. Qed.

Lemma getNextInstance_returns_only_healthy_witness :
  (forall instance,
      fst (getNextInstance (9 # 10) (samplePool random)) = Some instance ->
      status (health instance) = healthy /\
      List.In instance (instances (samplePool random))) /\
  (fst (getNextInstance (9 # 10) (samplePool random)) = None
   <-> forall instance,
         List.In instance (instances (samplePool random)) ->
         status (health instance) <> healthy).
Proof.
  apply (getNextInstance_returns_only_healthy (samplePool random) (9 # 10)).
  - unfold Qle; simpl; lia.
  - unfold Qlt; simpl; lia.
Defined.

Lemma healthy_of_set_currentIndex (i : nat) (lb : t) :
  getHealthyInstances (set_currentIndex i lb) = getHealthyInstances lb.
Proof. reflexivity. Qed.

Lemma roundRobin_step (rand : Q) (lb : t) :
  (strategy (options lb) = round_robin \/ exists n, strategy (options lb) = undeclared n) ->
  getHealthyInstances lb <> [] ->
  getNextInstance rand lb =
    (nth_error (getHealthyInstances lb)
               (currentIndex lb mod length (getHealthyInstances lb))%nat,
     set_currentIndex ((currentIndex lb + 1) mod length (getHealthyInstances lb))%nat lb).
Proof.
  intros Hs Hne. unfold getNextInstance.
  destruct (Nat.eqb_spec (length (getHealthyInstances lb)) 0) as [E | _].
  - destruct (getHealthyInstances lb); [congruence | discriminate].
  - destruct Hs as [-> | [n ->]]; reflexivity.
Qed.

(** C8: under round-robin a selection returns the healthy instance at the
    cursor and moves the cursor one step forward modulo the number of
    healthy instances; with the healthy instances [A, B, C] and the cursor
    at 0, four selections in a row return A, B, C, A. *)
Theorem round_robin_cycles :
  forall (lb : t),
    strategy (options lb) = round_robin ->
    (forall rand,
        getHealthyInstances lb <> [] ->
        fst (getNextInstance rand lb) =
          nth_error (getHealthyInstances lb)
                    (currentIndex lb mod length (getHealthyInstances lb))%nat /\
        currentIndex (snd (getNextInstance rand lb)) =
          ((currentIndex lb + 1) mod length (getHealthyInstances lb))%nat /\
        instances (snd (getNextInstance rand lb)) = instances lb) /\
    (forall (A B C : ServiceInstance) (r1 r2 r3 r4 : Q),
        getHealthyInstances lb = [A; B; C] -> currentIndex lb = 0%nat ->
        fst (selectMany [r1; r2; r3; r4] lb) = [Some A; Some B; Some C; Some A]).
Proof.
  intros lb Hs. split.
  - intros rand Hne.
    rewrite (roundRobin_step rand lb (or_introl Hs) Hne). repeat split.
  - intros A B C r1 r2 r3 r4 Hh Hc.
    assert (Hstep : forall r i,
              getNextInstance r (set_currentIndex i lb) =
                (nth_error [A; B; C] (i mod 3)%nat, set_currentIndex ((i + 1) mod 3)%nat lb)).
    { intros r i.
      rewrite (roundRobin_step r (set_currentIndex i lb));
        [| left; exact Hs | rewrite healthy_of_set_currentIndex, Hh; discriminate].
      rewrite healthy_of_set_currentIndex, Hh. reflexivity. }
    assert (Hlb : lb = set_currentIndex 0 lb) by (destruct lb; simpl in Hc; subst; reflexivity).
    rewrite Hlb. cbn [selectMany].
    repeat (rewrite Hstep; cbn [Nat.modulo Nat.divmod Nat.add fst snd nth_error]).
    reflexivity.
Qed.

Lemma round_robin_cycles_witness :
  fst (selectMany [0; 0; 0; 0]%Q (samplePool round_robin))
    = [Some instA; Some instB; Some instC; Some instA] /\
  currentIndex (snd (getNextInstance 0 (samplePool round_robin))) = 1%nat.
Proof.
  destruct (round_robin_cycles (samplePool round_robin) eq_refl) as [Hgen Habc].
  split.
  - apply (Habc instA instB instC); reflexivity.
  - destruct (Hgen 0%Q) as [_ [Hc _]]; [discriminate | exact Hc].
Defined.

End SelectionScenario.

Section ProbeFacts.

Import LoadBalancer.

Lemma axios_get_resolves (timeoutMs : Z) (o : ProbeOutcome) :
  (exists s, axios_get timeoutMs (fun status => status =? 200) o = inr s) <-> o = Answered 200.
Proof.
  split.
  - intros [s H]. destruct o as [c | | c d]; simpl in H; try discriminate.
    destruct (Z.eqb_spec c 200); [subst; reflexivity | discriminate].
  - intros ->. exists 200. reflexivity.
Qed.

(** C4, as the probe implements it: the instance is marked [healthy] if and
    only if the GET answers with status 200 exactly within the timeout, and
    then no error is kept; every other outcome (any other status, other
    2xx codes included, a timeout, a transport error) marks it [unhealthy]
    and records the error message. *)
Theorem probe_healthy_iff_status_200 :
  forall (lb : t) (startTime endTime checkedAt : Z) (o : ProbeOutcome)
         (instance : ServiceInstance),
    (status (health (checkInstanceHealth lb startTime endTime checkedAt o instance)) = healthy
     <-> o = Answered 200) /\
    (o = Answered 200 ->
     error (health (checkInstanceHealth lb startTime endTime checkedAt o instance)) = None) /\
    (o <> Answered 200 ->
     status (health (checkInstanceHealth lb startTime endTime checkedAt o instance)) = unhealthy /\
     exists err,
       axios_get (healthCheckTimeout (options lb)) (fun status => status =? 200) o = inl err /\
       error (health (checkInstanceHealth lb startTime endTime checkedAt o instance))
         = Some (message err)).
Proof.
  intros lb startTime endTime checkedAt o instance.
  pose proof (axios_get_resolves (healthCheckTimeout (options lb)) o) as Hres.
  unfold checkInstanceHealth.
  destruct (axios_get (healthCheckTimeout (options lb)) (fun status => status =? 200) o)
    as [err | s] eqn:E; cbn.
  - assert (Hne : o <> Answered 200).
    { intros Ho. apply Hres in Ho as [s Hs]. discriminate. }
    repeat split; try (intros; congruence).
    exists err. split; reflexivity.
  - assert (Ho : o = Answered 200) by (apply Hres; exists s; reflexivity).
    repeat split; try (intros; congruence).
Qed.

Lemma probe_healthy_iff_status_200_witness :
  status (health (checkInstanceHealth (samplePool round_robin) 0 12 13 (Answered 200) instD))
    = healthy /\
  error (health (checkInstanceHealth (samplePool round_robin) 0 12 13 (Answered 200) instD))
    = None /\
  status (health (checkInstanceHealth (samplePool round_robin) 0 5001 5002 TimedOut instA))
    = unhealthy /\
  error (health (checkInstanceHealth (samplePool round_robin) 0 5001 5002 TimedOut instA))
    = Some "timeout of 5000ms exceeded"%string.
Proof.
  destruct (probe_healthy_iff_status_200 (samplePool round_robin) 0 12 13 (Answered 200) instD)
    as [Hiff [Hnone _]].
  destruct (probe_healthy_iff_status_200 (samplePool round_robin) 0 5001 5002 TimedOut instA)
    as [_ [_ Hbad]].
  split; [apply Hiff; reflexivity |].
  split; [apply Hnone; reflexivity |].
  destruct Hbad as [Hs [err [Herr Hmsg]]]; [discriminate |].
  split; [exact Hs |].
  rewrite Hmsg. inversion Herr. reflexivity.
Defined.

(** A 204 answer is a 2xx answer, and the probe marks the instance
    [unhealthy]: health does not follow from "any 2xx". *)
Lemma probe_204_not_healthy :
  ~ (status (health (checkInstanceHealth (samplePool round_robin) 0 12 13 (Answered 204) instA))
       = healthy
     <-> 200 <= 204 < 300).
Proof.
  intros [_ H]. assert (Hs : 200 <= 204 < 300) by lia.
  apply H in Hs. vm_compute in Hs. discriminate.
Qed.

Example probe_204_error_recorded :
  health (checkInstanceHealth (samplePool round_robin) 0 12 13 (Answered 204) instA)
    = {| name := "content"; h_url := url instA; status := unhealthy; responseTime := 12;
         lastChecked := 13; error := Some "Request failed with status code 204"%string |}.
Proof. reflexivity. Qed.

End ProbeFacts.

(** ** Breaker rejection at the proxy layer *)

Section OpenRejection.

Import CircuitBreaker ProxyService.

Lemma open_error_recognised (cb : CircuitBreaker.t) :
  includes (message (open_error cb)) "Circuit breaker is OPEN" = true.
Proof. apply includes_prefix. reflexivity. Qed.

(** C6: while the breaker is OPEN and the clock is before [nextRetryTime],
    [execute] fails with the error "Circuit breaker is OPEN for <service>"
    and leaves the world as it was, so the wrapped function is not run: for
    the load-balanced proxy the balancer's cursor and the list of attempted
    targets do not change.  The proxy wrapper answers that rejection with
    status 503 and code SERVICE_UNAVAILABLE, and never hands it to the next
    error handler; it writes nothing only if the response had already been
    started. *)
Theorem open_breaker_rejects_with_503 :
  forall (cb : CircuitBreaker.t) (retryAt : Z),
    state cb = OPEN -> nextRetryTime cb = Some retryAt ->
    (forall (W T : Type) (clock : W -> Z) (fn : W -> (Error + T) * W) (w : W),
        clock w < retryAt ->
        execute clock fn cb w
          = (inl (new_Error ("Circuit breaker is OPEN for " +:+ CircuitBreaker.serviceName cb)),
             cb, w)) /\
    (forall (W : Type) (clock : W -> Z) (headersSent : W -> bool)
            (proxyMiddleware : W -> (Error + unit) * W) (name : string) (w : W),
        clock w < retryAt ->
        wrapWithCircuitBreaker clock headersSent proxyMiddleware cb name w
          = (if headersSent w then NothingWritten else Sent 503 (unavailableBody name), cb, w)) /\
    (forall (name : string) (upstream : string -> Error + unit) (rand : Q) (w : GatewayWorld),
        now w < retryAt -> responseStarted w = false ->
        wrapWithCircuitBreaker now responseStarted (routedProxy name upstream rand) cb name w
          = (Sent 503 (unavailableBody name), cb, w) /\
        pool (snd (wrapWithCircuitBreaker now responseStarted
                     (routedProxy name upstream rand) cb name w)) = pool w /\
        attempts (snd (wrapWithCircuitBreaker now responseStarted
                         (routedProxy name upstream rand) cb name w)) = attempts w).
Proof.
  intros cb retryAt Hs Hr.
  assert (Hexec : forall (W T : Type) (clock : W -> Z) (fn : W -> (Error + T) * W) (w : W),
             clock w < retryAt ->
             execute clock fn cb w = (inl (open_error cb), cb, w)).
  { intros W T clock fn w Hlt. unfold execute.
    rewrite (guard_open_early _ retryAt cb Hs Hr Hlt). reflexivity. }
  assert (Hwrap : forall (W : Type) (clock : W -> Z) (headersSent : W -> bool)
                         (proxyMiddleware : W -> (Error + unit) * W) (name : string) (w : W),
             clock w < retryAt ->
             wrapWithCircuitBreaker clock headersSent proxyMiddleware cb name w
               = (if headersSent w then NothingWritten else Sent 503 (unavailableBody name),
                  cb, w)).
  { intros W clock headersSent proxyMiddleware name w Hlt.
    unfold wrapWithCircuitBreaker. rewrite (Hexec W unit clock proxyMiddleware w Hlt).
    rewrite open_error_recognised. destruct (headersSent w); reflexivity. }
  split; [exact Hexec |]. split; [exact Hwrap |].
  intros name upstream rand w Hlt Hh.
  rewrite (Hwrap GatewayWorld now responseStarted (routedProxy name upstream rand) name w Hlt).
  rewrite Hh. repeat split.
Qed.

Lemma open_breaker_rejects_with_503_witness :
  wrapWithCircuitBreaker now responseStarted
      (routedProxy "content" (fun _ => inr tt) 0) openedBreaker "content" sampleWorld
    = (Sent 503 (unavailableBody "content"), openedBreaker, sampleWorld) /\
  execute now (routedProxy "content" (fun _ => inr tt) 0) openedBreaker sampleWorld
    = (inl (new_Error "Circuit breaker is OPEN for content"), openedBreaker, sampleWorld).
Proof.
  destruct (open_breaker_rejects_with_503 openedBreaker 30015 eq_refl eq_refl)
    as [Hexec [_ Hrouted]].
  split.
  - apply (Hrouted "content"%string (fun _ => inr tt) 0%Q sampleWorld); [simpl; lia | reflexivity].
  - apply (Hexec GatewayWorld unit now (routedProxy "content" (fun _ => inr tt) 0) sampleWorld).
    simpl; lia.
Defined.

(** With the breaker closed the same request does reach the balancer: the
    first healthy instance is attempted and the cursor moves on. *)
Example closed_breaker_lets_the_request_through :
  let '(reply, _, w') :=
    wrapWithCircuitBreaker now responseStarted
      (routedProxy "content" (fun _ => inr tt) 0) specBreaker "content" sampleWorld in
  reply = Proxied /\
  attempts w' = [LoadBalancer.url instA] /\
  LoadBalancer.currentIndex (pool w') = 1%nat.
Proof. cbn. repeat split. Qed.

End OpenRejection.

(** ** Rate-limit store *)

Section RateLimitFacts.

Import RedisStore.

Lemma ceil_seconds_positive (windowMs : Z) :
  0 < windowMs -> 0 < Math_ceil (inject_Z windowMs / 1000)%Q.
Proof.
  intros Hpos. unfold Math_ceil.
  assert (Hq : (0 < inject_Z windowMs / 1000)%Q).
  { apply Qlt_shift_div_l; [reflexivity |]. rewrite Qmult_0_l.
    change 0%Q with (inject_Z 0). rewrite <- Zlt_Qlt. exact Hpos. }
  pose proof (Qle_ceiling (inject_Z windowMs / 1000)%Q) as Hc.
  assert (Hlt : (inject_Z 0 < inject_Z (Qceiling (inject_Z windowMs / 1000)))%Q)
    by (eapply Qlt_le_trans; [exact Hq | exact Hc]).
  rewrite <- Zlt_Qlt in Hlt. exact Hlt.
Qed.

Lemma INCR_entry (now : Z) (key : string) (db : gmap string Redis.Entry) :
  exists e,
    snd (Redis.INCR now key db) !! key = Some e /\
    Redis.live now e = true /\
    Redis.value e = fst (Redis.INCR now key db) /\
    Redis.value e = match Redis.get now key db with
                    | Some old => Redis.value old + 1
                    | None => 1
                    end.
Proof.
  unfold Redis.INCR. destruct (Redis.get now key db) as [old |] eqn:E; cbn [fst snd].
  - eexists. split; [apply lookup_insert_eq |]. cbn. repeat split.
    unfold Redis.get in E. destruct (db !! key) as [e0 |]; [| discriminate].
    destruct (Redis.live now e0) eqn:L; [| discriminate].
    inversion E; subst. exact L.
  - eexists. split; [apply lookup_insert_eq |]. cbn. repeat split.
Qed.

Lemma INCR_other (now : Z) (key k : string) (db : gmap string Redis.Entry) :
  k <> key -> snd (Redis.INCR now key db) !! k = db !! k.
Proof.
  intros Hne. unfold Redis.INCR.
  destruct (Redis.get now key db); cbn [snd]; apply lookup_insert_ne; congruence.
Qed.

Lemma increment_connected (store : t) (key : string) (windowMs now : Z)
    (db : gmap string Redis.Entry) :
  client store = true ->
  increment store key windowMs now db =
    (inr {| count := if fst (Redis.INCR now (prefix store +:+ key) db) =? 0 then 1
                     else fst (Redis.INCR now (prefix store +:+ key) db);
            resetTime := now + windowMs |},
     snd (Redis.EXPIRE now (prefix store +:+ key) (Math_ceil (inject_Z windowMs / 1000))
            (snd (Redis.INCR now (prefix store +:+ key) db)))).
Proof.
  intros Hc. unfold increment. rewrite Hc. cbn [negb].
  destruct (Redis.INCR now (prefix store +:+ key) db) as [reply0 db1]. cbn [fst snd].
  destruct (Redis.EXPIRE now (prefix store +:+ key) _ db1) as [reply1 db2]. reflexivity.
Qed.

(** C7, as the store implements it: every increment, the first of a window
    or a later one, counts the request, sets the key's expiry to the window
    duration (in whole seconds, rounded up) counted from that increment,
    and reports [resetTime = now + windowMs]; no other key is touched. *)
Theorem increment_sets_expiry_every_time :
  forall (store : t) (key : string) (windowMs now : Z) (db : gmap string Redis.Entry),
    client store = true -> 0 < windowMs ->
    fst (increment store key windowMs now db) =
      inr {| count := match Redis.get now (prefix store +:+ key) db with
                      | Some old => if Redis.value old + 1 =? 0 then 1 else Redis.value old + 1
                      | None => 1
                      end;
             resetTime := now + windowMs |} /\
    windowEnd now (prefix store +:+ key) (snd (increment store key windowMs now db)) =
      Some (now + Math_ceil (inject_Z windowMs / 1000) * 1000) /\
    (forall k, k <> prefix store +:+ key ->
               snd (increment store key windowMs now db) !! k = db !! k).
Proof.
  intros store key windowMs now db Hc Hpos.
  rewrite (increment_connected store key windowMs now db Hc). cbn [fst snd].
  set (fullKey := prefix store +:+ key).
  destruct (INCR_entry now fullKey db) as [e [He [Hlive [Hreply Hval]]]].
  assert (Hget : Redis.get now fullKey (snd (Redis.INCR now fullKey db)) = Some e).
  { unfold Redis.get. rewrite He, Hlive. reflexivity. }
  pose proof (ceil_seconds_positive windowMs Hpos) as Hsecs.
  repeat apply conj.
  - rewrite <- Hreply, Hval. destruct (Redis.get now fullKey db); reflexivity.
  - unfold windowEnd, Redis.EXPIRE. rewrite Hget. cbn [snd].
    unfold Redis.get. rewrite lookup_insert_eq. unfold Redis.live. cbn.
    destruct (Z.ltb_spec now (now + Math_ceil (inject_Z windowMs / 1000) * 1000));
      [reflexivity | lia].
  - intros k Hne. unfold Redis.EXPIRE. rewrite Hget. cbn [snd].
    rewrite lookup_insert_ne by congruence. apply INCR_other. exact Hne.
Qed.

Lemma increment_sets_expiry_every_time_witness :
  fst (increment sampleStore "user:42" 60000 1000 afterFirst)
    = inr {| count := 2; resetTime := 61000 |} /\
  windowEnd 1000 "rl:user:42" afterSecond = Some 61000 /\
  (forall k, k <> "rl:user:42"%string -> afterSecond !! k = afterFirst !! k).
Proof.
  apply (increment_sets_expiry_every_time sampleStore "user:42" 60000 1000 afterFirst).
  - reflexivity.
  - lia.
Defined.

(** The second request falls inside the window the first one started (the
    counter is live and reaches 2), and it moves the expiry from 60 s to
    61 s and the reported reset time with it. *)
Lemma later_increment_moves_window_end :
  windowEnd 1000 "rl:user:42" afterFirst = Some 60000 /\
  fst (increment sampleStore "user:42" 60000 0 ∅) = inr {| count := 1; resetTime := 60000 |} /\
  fst (increment sampleStore "user:42" 60000 1000 afterFirst)
    = inr {| count := 2; resetTime := 61000 |} /\
  windowEnd 1000 "rl:user:42" afterSecond = Some 61000 /\
  windowEnd 1000 "rl:user:42" afterSecond <> windowEnd 1000 "rl:user:42" afterFirst.
Proof.
  assert (H1 : windowEnd 1000 "rl:user:42" afterFirst = Some 60000) by (vm_compute; reflexivity).
  assert (H2 : windowEnd 1000 "rl:user:42" afterSecond = Some 61000) by (vm_compute; reflexivity).
  repeat apply conj; try assumption; try (vm_compute; reflexivity).
  rewrite H1, H2. discriminate.
Qed.

End RateLimitFacts.

(** ** Monitoring service *)

Section PercentileFacts.

Import MonitoringService.

Lemma Math_round_integer (z : Z) : Math_round (inject_Z z) = z.
Proof.
  unfold Math_round, Qfloor, inject_Z, Qplus; simpl.
  symmetry. apply (Z.div_unique_pos (z * 2 + 1) 2 z 1); lia.
Qed.

Lemma Math_round_mono (x y : Q) : (x <= y)%Q -> Math_round x <= Math_round y.
Proof.
  intros H. unfold Math_round. apply Qfloor_resp_le.
  apply Qplus_le_compat; [exact H | apply Qle_refl].
Qed.


(** For a percentile of at most 99 it stays inside an array of any
    length. *)
Lemma percentile_index_in_range_99 (n : nat) (percentile : Q) :
  (0 < n)%nat -> (percentile <= 99)%Q ->
  Z.max 0 (Math_ceil (Binary64.mul (Binary64.div percentile 100) (inject_Z (Z.of_nat n))) - 1)
    <= Z.of_nat n - 1.
Proof.
  intros Hn Hp. unfold Binary64.mul, Binary64.div.
  assert (Hn0 : (0 <= inject_Z (Z.of_nat n))%Q)
    by (change 0%Q with (inject_Z 0); rewrite <- Zle_Qle; lia).
  assert (Hc : (Binary64.fl (percentile / 100) <= Binary64.fl (99 / 100))%Q).
  { apply fl_mono. apply Qmult_le_compat_r; [exact Hp | discriminate]. }
  assert (Hc99 : (Binary64.fl (99 / 100) * (1 + Binary64.epsilon) <= 1)%Q)
    by (vm_compute; discriminate).
  assert (Hc99' : (0 <= Binary64.fl (99 / 100))%Q) by (vm_compute; discriminate).
  set (c99 := Binary64.fl (99 / 100)) in *.
  set (c := Binary64.fl (percentile / 100)) in *.
  set (m := inject_Z (Z.of_nat n)) in *.
  assert (Hfl : (Binary64.fl (c * m) <= m)%Q).
  { destruct (Qlt_le_dec (c * m) 0) as [Hneg | Hpos].
    - apply Qle_trans with (Binary64.fl 0); [apply fl_mono; lra | rewrite fl_0; exact Hn0].
    - destruct (fl_near (c * m) Hpos) as [_ Hhi].
      assert (Hcm : (c * m <= c99 * m)%Q) by (apply Qmult_le_compat_r; assumption).
      assert (Hm : (c99 * (1 + Binary64.epsilon) * m <= 1 * m)%Q)
        by (apply Qmult_le_compat_r; assumption).
      unfold Binary64.epsilon in *. lra. }
  subst m. apply Qceiling_resp_le in Hfl. rewrite Qceiling_Z in Hfl.
  unfold Math_ceil. lia.
Qed.

Lemma calculatePercentile_in_range (sortedArray : list Q) (percentile : Q) :
  sortedArray <> [] ->
  Z.max 0 (Math_ceil (Binary64.mul (Binary64.div percentile 100)
                                   (inject_Z (Z.of_nat (length sortedArray)))) - 1)
    <= Z.of_nat (length sortedArray) - 1 ->
  exists v,
    nth_error sortedArray
      (Z.to_nat (Z.max 0 (Math_ceil
                            (Binary64.mul (Binary64.div percentile 100)
                                          (inject_Z (Z.of_nat (length sortedArray)))) - 1)))
      = Some v /\
    calculatePercentile sortedArray percentile = Some (Math_round v).
Proof.
  intros Hne Hidx.
  assert (Hlen : (0 < length sortedArray)%nat)
    by (destruct sortedArray; [congruence | simpl; lia]).
  unfold calculatePercentile.
  destruct (Nat.eqb_spec (length sortedArray) 0) as [E | _]; [lia |].
  destruct (nth_error sortedArray _) as [v |] eqn:E.
  - exists v. split; reflexivity.
  - apply nth_error_None in E. lia.
Qed.

Lemma calculatePercentile_within_99 (sortedArray : list Q) (percentile : Q) :
  sortedArray <> [] -> (percentile <= 99)%Q ->
  exists v,
    nth_error sortedArray
      (Z.to_nat (Z.max 0 (Math_ceil
                            (Binary64.mul (Binary64.div percentile 100)
                                          (inject_Z (Z.of_nat (length sortedArray)))) - 1)))
      = Some v /\
    calculatePercentile sortedArray percentile = Some (Math_round v).
Proof.
  intros Hne Hp. apply calculatePercentile_in_range; [exact Hne |].
  apply percentile_index_in_range_99; [| exact Hp].
  destruct sortedArray; [congruence | simpl; lia].
Qed.

Lemma calculatePercentile_some (l : list Q) (percentile : Q) :
  (percentile <= 99)%Q -> exists p, calculatePercentile l percentile = Some p.
Proof.
  intros Hp. destruct l as [| x l].
  - exists 0. reflexivity.
  - destruct (calculatePercentile_within_99 (x :: l) percentile) as [v [_ Hv]];
      [discriminate | exact Hp |].
    eexists. exact Hv.
Qed.







(** The rounded quotient and product of that case are the ones of the
    Standard Library's IEEE 754 operations. *)
Example percentile_product_of_seven :
  Binary64.toQ (SFmul 53 1024 (SFdiv 53 1024 (Binary64.ofZ 7) (Binary64.ofZ 100))
                      (Binary64.ofZ 100))
    = Some (Binary64.mul (Binary64.div 7 100) 100) /\
  (7 < Binary64.mul (Binary64.div 7 100) 100)%Q.
Proof. split; vm_compute; reflexivity. Qed.

Example sortAscending_sample :
  sortAscending [300; 100; 250; 150; 200]%Q = [100; 150; 200; 250; 300]%Q.
Proof. reflexivity. Qed.

End PercentileFacts.

Section HealthScoreFacts.

Import MonitoringService.

Lemma errorRate_impact_antitone (e1 e2 : Q) :
  (e1 <= e2)%Q ->
  (Qmax 0 (Binary64.sub 100 (Binary64.mul e2 2))
   <= Qmax 0 (Binary64.sub 100 (Binary64.mul e1 2)))%Q.
Proof.
  intros H. apply Q.max_le_compat_l.
  apply sub_mono; [apply Qle_refl |]. apply mul_mono_r; [discriminate | exact H].
Qed.

Lemma responseTime_impact_antitone (r1 r2 : Q) :
  (r1 <= r2)%Q ->
  (Qmax 0 (Binary64.sub 100 (Qmin (Binary64.div r2 50) 100))
   <= Qmax 0 (Binary64.sub 100 (Qmin (Binary64.div r1 50) 100)))%Q.
Proof.
  intros H. apply Q.max_le_compat_l.
  apply sub_mono; [apply Qle_refl |]. apply Q.min_le_compat_r.
  apply div_mono_l; [reflexivity | exact H].
Qed.

(** The weighted sum of the four impacts, each share rounded as it is
    added, does not fall when no impact falls. *)
Lemma weightedScore_mono (v1 v2 v3 v4 u1 u2 u3 u4 i1 i2 i3 i4 j1 j2 j3 j4 : Q) :
  (i1 <= j1)%Q -> (i2 <= j2)%Q -> (i3 <= j3)%Q -> (i4 <= j4)%Q ->
  (weightedScore [ {| value := v1; weight := 30; impact := i1 |};
                   {| value := v2; weight := 25; impact := i2 |};
                   {| value := v3; weight := 20; impact := i3 |};
                   {| value := v4; weight := 25; impact := i4 |} ]
   <= weightedScore [ {| value := u1; weight := 30; impact := j1 |};
                      {| value := u2; weight := 25; impact := j2 |};
                      {| value := u3; weight := 20; impact := j3 |};
                      {| value := u4; weight := 25; impact := j4 |} ])%Q.
Proof.
  intros H1 H2 H3 H4. unfold weightedScore. cbn [fold_left value weight impact].
  assert (Htotal : (0 < Binary64.add (Binary64.add (Binary64.add (Binary64.add 0 30) 25) 20) 25)%Q)
    by (vm_compute; reflexivity).
  set (totalWeight := Binary64.add (Binary64.add (Binary64.add (Binary64.add 0 30) 25) 20) 25)
    in *.
  assert (Hshare : forall i j w : Q,
             (0 <= w)%Q -> (i <= j)%Q ->
             (Binary64.div (Binary64.mul i w) totalWeight
              <= Binary64.div (Binary64.mul j w) totalWeight)%Q).
  { intros i j w Hw Hij. apply div_mono_l; [exact Htotal |]. apply mul_mono_r; assumption. }
  clearbody totalWeight.
  apply add_mono; [apply add_mono; [apply add_mono; [apply add_mono |] |] |].
  - apply Qle_refl.
  - apply Hshare; [discriminate | exact H1].
  - apply Hshare; [discriminate | exact H2].
  - apply Hshare; [discriminate | exact H3].
  - apply Hshare; [discriminate | exact H4].
Qed.

(** The score before rounding falls when the error rate or the p95 latency
    rises, for equal throughput and availability. *)
Lemma weightedScore_antitone (e1 e2 r1 r2 t a1 a2 : Q) :
  (e1 <= e2)%Q -> (r1 <= r2)%Q -> (a1 == a2)%Q ->
  (weightedScore (scoreFactors e2 r2 t a2) <= weightedScore (scoreFactors e1 r1 t a1))%Q.
Proof.
  intros He Hr Ha. unfold scoreFactors. apply weightedScore_mono.
  - apply errorRate_impact_antitone. exact He.
  - apply responseTime_impact_antitone. exact Hr.
  - apply Qle_refl.
  - rewrite Ha. apply Qle_refl.
Qed.

Lemma getHealthScore_defined (tMetrics tAvailability : Z) (requestMetrics : list RequestMetrics) :
  exists p,
    p95 (responseTimeSummary (getAggregatedMetrics tMetrics requestMetrics)) = Some p /\
    getHealthScore tMetrics tAvailability requestMetrics =
      Some {| score :=
                Math_round
                  (weightedScore
                     (scoreFactors
                        (errorRateOf (getAggregatedMetrics tMetrics requestMetrics))
                        (inject_Z p)
                        (inject_Z (requestCount (getAggregatedMetrics tMetrics requestMetrics)))
                        (calculateAvailability tAvailability requestMetrics)));
              factors :=
                scoreFactors
                  (errorRateOf (getAggregatedMetrics tMetrics requestMetrics))
                  (inject_Z p)
                  (inject_Z (requestCount (getAggregatedMetrics tMetrics requestMetrics)))
                  (calculateAvailability tAvailability requestMetrics) |}.
Proof.
  unfold getHealthScore.
  destruct (calculatePercentile_some
              (sortAscending (map responseTime (recent tMetrics requestMetrics))) 95)
    as [p Hp]; [unfold Qle; simpl; lia |].
  exists p.
  assert (H95 : p95 (responseTimeSummary (getAggregatedMetrics tMetrics requestMetrics)) = Some p)
    by exact Hp.
  rewrite H95. split; reflexivity.
Qed.

(** C9: of two metric states with the same throughput and the same
    availability, the one whose error rate and p95 latency are not lower
    has a health score that is not higher; in particular the score does not
    rise when the error rate rises at equal p95, or the p95 at equal error
    rate.  Both scores are defined. *)
Theorem health_score_antitone_in_error_rate_and_p95 :
  forall (tM1 tA1 : Z) (state1 : list RequestMetrics)
         (tM2 tA2 : Z) (state2 : list RequestMetrics),
    requestCount (getAggregatedMetrics tM1 state1)
      = requestCount (getAggregatedMetrics tM2 state2) ->
    (calculateAvailability tA1 state1 == calculateAvailability tA2 state2)%Q ->
    (errorRateOf (getAggregatedMetrics tM1 state1)
       <= errorRateOf (getAggregatedMetrics tM2 state2))%Q ->
    (forall p1 p2,
        p95 (responseTimeSummary (getAggregatedMetrics tM1 state1)) = Some p1 ->
        p95 (responseTimeSummary (getAggregatedMetrics tM2 state2)) = Some p2 ->
        p1 <= p2) ->
    exists s1 s2,
      getHealthScore tM1 tA1 state1 = Some s1 /\
      getHealthScore tM2 tA2 state2 = Some s2 /\
      score s2 <= score s1.
Proof.
  intros tM1 tA1 state1 tM2 tA2 state2 Hthroughput Havail Herr Hp95.
  destruct (getHealthScore_defined tM1 tA1 state1) as [p1 [Hp1 Hscore1]].
  destruct (getHealthScore_defined tM2 tA2 state2) as [p2 [Hp2 Hscore2]].
  eexists. eexists. split; [exact Hscore1 |]. split; [exact Hscore2 |].
  cbn [score]. apply Math_round_mono.
  rewrite <- Hthroughput.
  apply weightedScore_antitone; [exact Herr | | exact Havail].
  rewrite <- Zle_Qle. apply Hp95; assumption.
Qed.

Lemma health_score_antitone_in_error_rate_and_p95_witness :
  exists s1 s2,
    getHealthScore 5000 5000 calmState = Some s1 /\
    getHealthScore 5000 5000 troubledState = Some s2 /\
    score s2 <= score s1.
Proof.
  apply (health_score_antitone_in_error_rate_and_p95 5000 5000 calmState 5000 5000 troubledState).
  - vm_compute. reflexivity.
  - vm_compute. reflexivity.
  - vm_compute. discriminate.
  - intros p1 p2 H1 H2. vm_compute in H1, H2.
    inversion H1; inversion H2; subst. lia.
Defined.

Example calm_and_troubled_scores :
  option_map score (getHealthScore 5000 5000 calmState) = Some 79 /\
  option_map score (getHealthScore 5000 5000 troubledState) = Some 38.
Proof. split; vm_compute; reflexivity. Qed.

End HealthScoreFacts.

(** * Further properties of the gateway code *)

(** ** Circuit breaker: invariant and manual overrides *)

(** Closes the arithmetic and equational side goals of the consistency
    conditions. *)
Ltac consistency :=
  try assumption; try lia; try congruence;
  try (intros; first [assumption | lia | congruence | auto]).

Section BreakerInvariant.

Import CircuitBreaker.

Context {W T : Type}.
Variable clock : W -> Z.

Lemma consistent_onSuccess (cb : t) :
  consistent cb -> state cb <> OPEN -> consistent (onSuccess cb).
Proof.
  unfold consistent, onSuccess.
  destruct cb as [n o s f l r sc]; simpl. intros (Hf & Hs & Hc & Hn & Ht) Hopen.
  destruct s; simpl; try congruence; repeat split; consistency.
Qed.

Lemma consistent_onFailure (error : Error) (tFail tOpen : Z) (cb : t) :
  consistent cb -> state cb <> OPEN -> consistent (onFailure error tFail tOpen cb).
Proof.
  intros Hcons Hopen. unfold onFailure.
  destruct (isExpectedError cb error); [exact Hcons |].
  unfold consistent in *.
  destruct cb as [n o s f l r sc]; simpl in *.
  destruct Hcons as (Hf & Hs & Hc & Hn & Ht).
  destruct s; simpl; try congruence.
  - destruct (Z.leb_spec (threshold o) (f + 1)); simpl; repeat split; consistency.
  - repeat split; consistency.
Qed.

Lemma consistent_guard (now : Z) (cb served : t) :
  consistent cb -> guard now cb = inr served -> consistent served /\ state served <> OPEN.
Proof.
  unfold guard, consistent.
  destruct cb as [n o s f l r sc]; simpl. intros (Hf & Hs & Hc & Hn & Ht) Hg.
  destruct s; simpl in Hg.
  - inversion Hg; subst; simpl. repeat split; consistency.
  - destruct (shouldAttemptReset now _); inversion Hg; subst; simpl.
    repeat split; consistency.
  - inversion Hg; subst; simpl. repeat split; consistency.
Qed.

(** The consistency conditions hold for a new breaker and are kept by
    [execute], [forceOpen] and [forceClose]; so a breaker never sits in
    OPEN without a retry time. *)
Theorem breaker_consistency_is_invariant :
  (forall cfg name o, consistent (new cfg name o)) /\
  (forall cb (fn : W -> (Error + T) * W) w,
      consistent cb -> consistent (snd (fst (execute clock fn cb w)))) /\
  (forall cb now, consistent cb -> consistent (forceOpen now cb)) /\
  (forall cb, consistent cb -> consistent (forceClose cb)) /\
  (forall cb, consistent cb -> state cb = OPEN ->
              exists retryAt, nextRetryTime cb = Some retryAt).
Proof.
  repeat apply conj.
  - intros cfg name o. unfold consistent, new; simpl. repeat split; consistency.
  - intros cb fn w Hcons. unfold execute.
    destruct (guard (clock w) cb) as [rejected | served] eqn:Hg; [exact Hcons |].
    destruct (consistent_guard _ _ _ Hcons Hg) as [Hserved Hnot].
    destruct (fn w) as [[error | result] w1]; cbn [fst snd].
    + apply consistent_onFailure; assumption.
    + apply consistent_onSuccess; assumption.
  - intros cb now. unfold consistent, forceOpen.
    destruct cb as [n o s f l r sc]; simpl. intros (Hf & Hs & Hc & Hn & Ht).
    repeat split; consistency.
  - intros cb. unfold consistent, forceClose, reset.
    destruct cb as [n o s f l r sc]; simpl. intros (Hf & Hs & Hc & Hn & Ht).
    repeat split; consistency.
  - intros cb (Hf & Hs & Hc & Hn & Ht) Hopen.
    destruct (nextRetryTime cb) as [retryAt |] eqn:E; [exists retryAt; reflexivity |].
    exfalso. apply Hn; [congruence | reflexivity].
Qed.

End BreakerInvariant.

Section BreakerOverrides.

Import CircuitBreaker.

Lemma consistent_openedBreaker : consistent openedBreaker.
Proof.
  unfold consistent. vm_compute.
  repeat split; intros; congruence.
Qed.

Lemma breaker_consistency_is_invariant_witness :
  consistent (snd (fst (execute clockOf answering openedBreaker 30015))) /\
  consistent (forceOpen 5 openedBreaker) /\
  consistent (forceClose openedBreaker) /\
  exists retryAt, nextRetryTime openedBreaker = Some retryAt.
Proof.
  destruct (@breaker_consistency_is_invariant Z unit clockOf) as (_ & He & Ho & Hc & Hr).
  split; [| split; [| split]].
  - apply He. exact consistent_openedBreaker.
  - apply Ho. exact consistent_openedBreaker.
  - apply Hc. exact consistent_openedBreaker.
  - apply Hr; [exact consistent_openedBreaker | reflexivity].
Defined.

(** Manual overrides.  After [forceOpen] at time [t0], whatever the state
    was, every call attempted before [t0 + resetTimeout] is refused without
    running the wrapped function, and the first one from that time on is
    run as the trial call.  After [forceClose] the counters and both
    times are cleared and the next call is run. *)
Theorem manual_overrides :
  forall {W T : Type} (clock : W -> Z) (cb : t) (fn : W -> (Error + T) * W) (w : W),
    (forall t0, clock w < t0 + resetTimeout (options cb) ->
                execute clock fn (forceOpen t0 cb) w
                  = (inl (open_error cb), forceOpen t0 cb, w)) /\
    (forall t0, t0 + resetTimeout (options cb) <= clock w ->
                fst (fst (execute clock fn (forceOpen t0 cb) w)) = fst (fn w) /\
                snd (execute clock fn (forceOpen t0 cb) w) = snd (fn w)) /\
    getState (forceClose cb)
      = {| s_state := CLOSED; s_failureCount := 0;
           s_lastFailureTime := None; s_nextRetryTime := None |} /\
    successCount (forceClose cb) = 0 /\
    fst (fst (execute clock fn (forceClose cb) w)) = fst (fn w) /\
    snd (execute clock fn (forceClose cb) w) = snd (fn w).
Proof.
  intros W T clock cb fn w. repeat apply conj.
  - intros t0 Hlt. unfold execute.
    rewrite (guard_open_early (clock w) (t0 + resetTimeout (options cb)) (forceOpen t0 cb));
      [reflexivity | reflexivity | reflexivity | exact Hlt].
  - intros t0 Hle.
    rewrite (execute_passed clock fn (forceOpen t0 cb) (set_state HALF_OPEN (forceOpen t0 cb)) w);
      [split; reflexivity |].
    apply (guard_open_due (clock w) (t0 + resetTimeout (options cb)));
      [reflexivity | reflexivity | exact Hle].
  - reflexivity.
  - reflexivity.
  - rewrite (execute_passed clock fn (forceClose cb) (forceClose cb) w); [reflexivity |].
    apply guard_not_open. discriminate.
  - rewrite (execute_passed clock fn (forceClose cb) (forceClose cb) w); [reflexivity |].
    apply guard_not_open. discriminate.
Qed.

Lemma manual_overrides_witness :
  execute clockOf answering (forceOpen 100 specBreaker) 20000
    = (inl (open_error specBreaker), forceOpen 100 specBreaker, 20000) /\
  snd (execute clockOf answering (forceOpen 100 specBreaker) 30100) = 30105.
Proof.
  destruct (@manual_overrides Z unit clockOf specBreaker answering 20000) as (Hearly & _).
  destruct (@manual_overrides Z unit clockOf specBreaker answering 30100) as (_ & Hdue & _).
  split.
  - apply (Hearly 100). unfold clockOf; simpl; lia.
  - apply (Hdue 100). unfold clockOf; simpl; lia.
Defined.

End BreakerOverrides.

(** ** Circuit-breaker manager *)

Section ManagerFacts.

Import CircuitBreaker CircuitBreakerManager.

(** [getCircuitBreaker] is get-or-create: the breaker it returns is the
    one registered under the name afterwards; a breaker already registered
    is returned as it is and the options passed are ignored; asking again,
    with any options, returns the same breaker and changes nothing; no
    other name is touched. *)
Theorem getCircuitBreaker_get_or_create :
  forall (cfg : CircuitBreakerConfig) (name : string) (o o' : option PartialOptions)
         (m : gmap string CircuitBreaker.t),
    snd (getCircuitBreaker cfg name o m) !! name = Some (fst (getCircuitBreaker cfg name o m)) /\
    getCircuitBreaker cfg name o' (snd (getCircuitBreaker cfg name o m))
      = getCircuitBreaker cfg name o m /\
    (forall registered, m !! name = Some registered ->
                        getCircuitBreaker cfg name o m = (registered, m)) /\
    (m !! name = None ->
     fst (getCircuitBreaker cfg name o m)
       = new cfg name (match o with Some p => p | None => no_options end)) /\
    (forall other, other <> name ->
                   snd (getCircuitBreaker cfg name o m) !! other = m !! other).
Proof.
  intros cfg name o o' m. unfold getCircuitBreaker.
  destruct (m !! name) as [registered |] eqn:E; cbn [fst snd].
  - rewrite E. repeat split; congruence.
  - rewrite lookup_insert_eq. repeat split; try congruence.
    intros other Hne. apply lookup_insert_ne. congruence.
Qed.

(** The two administrative routes act on one service only.  The reset
    route leaves the named breaker CLOSED with cleared counters, the open
    route leaves it OPEN until [now + resetTimeout]; both register a
    breaker for a name that had none, and leave every other breaker as it
    was. *)
Theorem admin_routes_act_on_one_service :
  forall (cfg : CircuitBreakerConfig) (now : Z) (name : string)
         (m : gmap string CircuitBreaker.t),
    (exists cb,
        snd (resetRoute cfg name m) !! name = Some cb /\
        getState cb = fst (resetRoute cfg name m) /\
        state cb = CLOSED /\ failureCount cb = 0 /\ successCount cb = 0 /\
        nextRetryTime cb = None) /\
    (exists cb,
        snd (openRoute cfg now name m) !! name = Some cb /\
        getState cb = fst (openRoute cfg now name m) /\
        state cb = OPEN /\
        nextRetryTime cb = Some (now + resetTimeout (options cb))) /\
    dom (snd (resetRoute cfg name m)) = {[name]} ∪ dom m /\
    dom (snd (openRoute cfg now name m)) = {[name]} ∪ dom m /\
    (forall other, other <> name ->
                   snd (resetRoute cfg name m) !! other = m !! other /\
                   snd (openRoute cfg now name m) !! other = m !! other).
Proof.
  intros cfg now name m. unfold resetRoute, openRoute, getCircuitBreaker.
  destruct (m !! name) as [registered |] eqn:E; cbn [fst snd].
  - repeat apply conj.
    + eexists. split; [apply lookup_insert_eq |]. repeat split.
    + eexists. split; [apply lookup_insert_eq |]. repeat split.
    + rewrite dom_insert_L. reflexivity.
    + rewrite dom_insert_L. reflexivity.
    + intros other Hne. split; apply lookup_insert_ne; congruence.
  - repeat apply conj.
    + eexists. split; [apply lookup_insert_eq |]. repeat split.
    + eexists. split; [apply lookup_insert_eq |]. repeat split.
    + rewrite !dom_insert_L, (assoc_L (∪)), union_idemp_L. reflexivity.
    + rewrite !dom_insert_L, (assoc_L (∪)), union_idemp_L. reflexivity.
    + intros other Hne. split; rewrite !lookup_insert_ne by congruence; reflexivity.
Qed.




(** A breaker registered as [__proto__], by a request to an administration
    route with that service name, does not show among the states. *)
Example states_leave_out_proto :
  getAllStates {["__proto__"%string := specBreaker; "content"%string := specBreaker]}
  = {["content"%string := getState specBreaker]}.
Proof. vm_compute. reflexivity. Qed.

End ManagerFacts.

(** ** Load balancer: registry, probes and summaries *)

Section RegistryFacts.

Import LoadBalancer.

Lemma filter_imap_none {A : Type} (l : list A) :
  forall f : nat -> A -> ServiceInstance,
    (forall i x, is_healthy (f i x) = false) ->
    List.filter is_healthy (imap f l) = [].
Proof.
  induction l as [| x l IH]; intros f Hf; [reflexivity |].
  rewrite imap_cons. cbn [List.filter]. rewrite Hf.
  apply IH. intros i y. apply Hf.
Qed.

(** A balancer as the constructor leaves it has no healthy instance: until
    a probe has answered, [getNextInstance] returns [null] under every
    strategy and leaves the balancer as it is. *)
Theorem fresh_balancer_selects_nothing :
  forall (cfg : Config) (name : string) (urls : list string) (o : PartialOptions)
         (nowFor : nat -> Z) (rand : Q),
    getHealthyInstances (new cfg name urls o nowFor) = [] /\
    getNextInstance rand (new cfg name urls o nowFor) = (None, new cfg name urls o nowFor) /\
    length (instances (new cfg name urls o nowFor)) = length urls.
Proof.
  intros cfg name urls o nowFor rand.
  assert (Hnone : getHealthyInstances (new cfg name urls o nowFor) = []).
  { unfold getHealthyInstances, new; cbn [instances].
    apply filter_imap_none. intros i x. reflexivity. }
  repeat split.
  - exact Hnone.
  - unfold getNextInstance. rewrite Hnone. reflexivity.
  - unfold new; cbn [instances]. apply length_imap.
Qed.

Lemma checkInstanceHealth_frame (lb : t) (s e c : Z) (o : ProbeOutcome)
    (instance : ServiceInstance) :
  id (checkInstanceHealth lb s e c o instance) = id instance /\
  url (checkInstanceHealth lb s e c o instance) = url instance /\
  weight (checkInstanceHealth lb s e c o instance) = weight instance /\
  currentConnections (checkInstanceHealth lb s e c o instance) = currentConnections instance.
Proof.
  unfold checkInstanceHealth. destruct (axios_get _ _ o); repeat split.
Qed.

Lemma checkInstanceHealth_status (lb : t) (s e c : Z) (o : ProbeOutcome)
    (instance : ServiceInstance) :
  status (health (checkInstanceHealth lb s e c o instance)) = healthy <-> o = Answered 200.
Proof.
  pose proof (axios_get_resolves (healthCheckTimeout (options lb)) o) as Hres.
  unfold checkInstanceHealth.
  destruct (axios_get (healthCheckTimeout (options lb)) (fun status => status =? 200) o)
    as [err | code] eqn:E; cbn.
  - split; [discriminate |]. intros Ho. apply Hres in Ho as [x Hx]. discriminate.
  - split; [| reflexivity]. intros _. apply Hres. exists code. reflexivity.
Qed.

(** A round of probes decides the health of every instance afresh: after
    it the instance at each position is healthy if and only if its own
    probe answered 200, whatever its health was before; the round changes
    no identifier, address, weight or connection count, nor the size of
    the registry or the round-robin cursor. *)
Theorem health_round_decides_health :
  forall (probeOf : nat -> Probe) (lb : t),
    length (instances (performHealthChecks probeOf lb)) = length (instances lb) /\
    currentIndex (performHealthChecks probeOf lb) = currentIndex lb /\
    (forall (i : nat) (instance : ServiceInstance),
        instances lb !! i = Some instance ->
        exists probed,
          instances (performHealthChecks probeOf lb) !! i = Some probed /\
          (status (health probed) = healthy <-> outcome (probeOf i) = Answered 200) /\
          id probed = id instance /\ url probed = url instance /\
          weight probed = weight instance /\
          currentConnections probed = currentConnections instance).
Proof.
  intros probeOf lb. unfold performHealthChecks; cbn [instances currentIndex set_instances].
  repeat split.
  - apply length_imap.
  - intros i instance Hi. eexists. split.
    + rewrite list_lookup_imap, Hi. reflexivity.
    + split; [apply checkInstanceHealth_status |]. apply checkInstanceHealth_frame.
Qed.

Lemma countStatus_partition (l : list ServiceInstance) :
  (countStatus healthy l + countStatus unhealthy l + countStatus unknown l)%nat = length l.
Proof.
  unfold countStatus. induction l as [| x l IH]; [reflexivity |].
  cbn [List.filter length]. destruct (status (health x)); cbn; lia.
Qed.

Lemma countStatus_le (s : HealthStatus) (l : list ServiceInstance) :
  (countStatus s l <= length l)%nat.
Proof.
  pose proof (countStatus_partition l). destruct s; lia.
Qed.

Lemma percentage_in_range (k n : nat) :
  (k <= n)%nat -> (0 < n)%nat ->
  (0 <= Binary64.mul (Binary64.div (inject_Z (Z.of_nat k)) (inject_Z (Z.of_nat n))) 100)%Q /\
  (Binary64.mul (Binary64.div (inject_Z (Z.of_nat k)) (inject_Z (Z.of_nat n))) 100 <= 100)%Q.
Proof.
  intros Hk Hn.
  destruct (percentage_of_counts (Z.of_nat k) (Z.of_nat n)) as [Hrange _]; [lia | lia |].
  exact Hrange.
Qed.

(** The health summary counts every instance once: the healthy, unhealthy
    and unknown counts add up to the total; the healthy percentage lies
    between 0 and 100 and is 0 for an empty registry; and the healthy count
    is the number of instances [getNextInstance] selects from. *)
Theorem health_summary_counts_every_instance :
  forall lb : t,
    (hs_healthy (getHealthSummary lb) + hs_unhealthy (getHealthSummary lb)
       + hs_unknown (getHealthSummary lb))%nat = hs_total (getHealthSummary lb) /\
    hs_healthy (getHealthSummary lb) = length (getHealthyInstances lb) /\
    (0 <= hs_healthyPercentage (getHealthSummary lb))%Q /\
    (hs_healthyPercentage (getHealthSummary lb) <= 100)%Q /\
    (instances lb = [] -> hs_healthyPercentage (getHealthSummary lb) = 0%Q).
Proof.
  intros lb. unfold getHealthSummary;
    cbn [hs_total hs_healthy hs_unhealthy hs_unknown hs_healthyPercentage].
  split; [apply countStatus_partition |]. split; [reflexivity |].
  destruct (Nat.ltb_spec 0 (length (instances lb))) as [Hpos | Hzero].
  - destruct (percentage_in_range (countStatus healthy (instances lb))
                (length (instances lb)) (countStatus_le _ _) Hpos) as [Hlo Hhi].
    repeat split; try assumption.
    intros Hnil. rewrite Hnil in Hpos. simpl in Hpos. lia.
  - repeat split; try (unfold Qle; simpl; lia).
Qed.

End RegistryFacts.

Section AdministrationFacts.

Import LoadBalancer.

Lemma set_instances_same (lb : t) : set_instances (instances lb) lb = lb.
Proof. destruct lb; reflexivity. Qed.

Lemma findIndex_none {A : Type} (pred : A -> bool) (l : list A) :
  (forall x, List.In x l -> pred x = false) -> findIndex pred l = None.
Proof.
  induction l as [| x l IH]; intros H; [reflexivity |].
  cbn [findIndex]. rewrite (H x) by (left; reflexivity).
  rewrite IH; [reflexivity |]. intros y Hy. apply H. right. exact Hy.
Qed.

Lemma findIndex_first {A : Type} (pred : A -> bool) (before : list A) (x : A) (after : list A) :
  (forall y, List.In y before -> pred y = false) -> pred x = true ->
  findIndex pred (before ++ x :: after) = Some (length before).
Proof.
  induction before as [| b before IH]; intros Hb Hx; cbn [findIndex app length].
  - rewrite Hx. reflexivity.
  - rewrite (Hb b) by (left; reflexivity).
    rewrite IH; [reflexivity | | exact Hx]. intros y Hy. apply Hb. right. exact Hy.
Qed.

Lemma removeAt_middle {A : Type} (before : list A) (x : A) (after : list A) :
  removeAt (length before) (before ++ x :: after) = before ++ after.
Proof.
  induction before as [| b before IH]; [reflexivity |].
  cbn [removeAt app length]. rewrite IH. reflexivity.
Qed.

Lemma updateFirst_middle {A : Type} (pred : A -> bool) (f : A -> A)
    (before : list A) (x : A) (after : list A) :
  (forall y, List.In y before -> pred y = false) -> pred x = true ->
  updateFirst pred f (before ++ x :: after) = before ++ f x :: after.
Proof.
  induction before as [| b before IH]; intros Hb Hx; cbn [updateFirst app].
  - rewrite Hx. reflexivity.
  - rewrite (Hb b) by (left; reflexivity).
    rewrite IH; [reflexivity | | exact Hx]. intros y Hy. apply Hb. right. exact Hy.
Qed.

Lemma existsb_none {A : Type} (pred : A -> bool) (l : list A) :
  (forall x, List.In x l -> pred x = false) -> existsb pred l = false.
Proof.
  induction l as [| x l IH]; intros H; [reflexivity |].
  cbn [existsb]. rewrite (H x) by (left; reflexivity).
  apply IH. intros y Hy. apply H. right. exact Hy.
Qed.

(** [removeInstance] removes the first instance registered under the
    address and nothing else: with no such instance it answers [false]
    and leaves the balancer as it was; otherwise it answers [true], the
    instances before and after the removed one keep their order, and the
    cursor is not adjusted.  Removing an address right after adding it,
    when it was not registered before, gives the balancer back. *)
Theorem removeInstance_removes_first_match :
  forall (lb : t) (u : string),
    ((forall x, List.In x (instances lb) -> url x <> u) ->
     removeInstance u lb = (false, lb)) /\
    (forall before x after,
        instances lb = before ++ x :: after ->
        (forall y, List.In y before -> url y <> u) -> url x = u ->
        removeInstance u lb = (true, set_instances (before ++ after) lb)) /\
    (forall w now,
        (forall x, List.In x (instances lb) -> url x <> u) ->
        removeInstance u (addInstance u w now lb) = (true, lb)).
Proof.
  intros lb u.
  assert (Hneq : forall l : list ServiceInstance,
             (forall x, List.In x l -> url x <> u) ->
             forall x, List.In x l -> String.eqb (url x) u = false).
  { intros l H x Hx. apply String.eqb_neq. apply H. exact Hx. }
  assert (Hmid : forall (lb0 : t) before x after,
             instances lb0 = before ++ x :: after ->
             (forall y, List.In y before -> url y <> u) -> url x = u ->
             removeInstance u lb0 = (true, set_instances (before ++ after) lb0)).
  { intros lb0 before x after Hsplit Hb Hx. unfold removeInstance. rewrite Hsplit.
    rewrite findIndex_first;
      [| apply Hneq; exact Hb | apply String.eqb_eq; exact Hx].
    rewrite removeAt_middle. reflexivity. }
  repeat apply conj.
  - intros Hnone. unfold removeInstance.
    rewrite findIndex_none; [reflexivity | apply Hneq; exact Hnone].
  - apply Hmid.
  - intros w now Hnone.
    rewrite (Hmid (addInstance u w now lb) (instances lb)
               (freshInstance (serviceName lb) (length (instances lb)) u w now) []);
      [| reflexivity | exact Hnone | reflexivity].
    rewrite app_nil_r. destruct lb; reflexivity.
Qed.

Lemma removeInstance_removes_first_match_witness :
  removeInstance "http://content-9:3002"
    (addInstance "http://content-9:3002" 1 500 (samplePool round_robin))
  = (true, samplePool round_robin).
Proof.
  apply (removeInstance_removes_first_match (samplePool round_robin) "http://content-9:3002").
  intros x Hx. simpl in Hx.
  repeat (destruct Hx as [<- | Hx]; [discriminate |]). contradiction.
Defined.

(** [updateInstanceWeight] writes the weight of the first instance
    registered under the address and nothing else: with no such instance
    it answers [false] and changes nothing; a second instance with the
    same address keeps its weight. *)
Theorem updateInstanceWeight_writes_first_match :
  forall (lb : t) (u : string) (w : Q),
    ((forall x, List.In x (instances lb) -> url x <> u) ->
     updateInstanceWeight u w lb = (false, lb)) /\
    (forall before x after,
        instances lb = before ++ x :: after ->
        (forall y, List.In y before -> url y <> u) -> url x = u ->
        updateInstanceWeight u w lb
          = (true, set_instances (before ++ set_weight w x :: after) lb)).
Proof.
  intros lb u w. split.
  - intros Hnone. unfold updateInstanceWeight.
    rewrite existsb_none; [reflexivity |].
    intros x Hx. apply String.eqb_neq. apply Hnone. exact Hx.
  - intros before x after Hsplit Hb Hx. unfold updateInstanceWeight. rewrite Hsplit.
    assert (Hex : existsb (fun instance => String.eqb (url instance) u) (before ++ x :: after)
                  = true).
    { apply existsb_exists. exists x. split; [apply in_elt | apply String.eqb_eq; exact Hx]. }
    rewrite Hex. rewrite updateFirst_middle; [reflexivity | | apply String.eqb_eq; exact Hx].
    intros y Hy. apply String.eqb_neq. apply Hb. exact Hy.
Qed.

Lemma updateInstanceWeight_writes_first_match_witness :
  updateInstanceWeight (url instD) 3 (samplePool weighted)
  = (true, set_instances [instA; set_weight 3 instD; instB; instE; instC] (samplePool weighted)).
Proof.
  apply (proj2 (updateInstanceWeight_writes_first_match (samplePool weighted) (url instD) 3)
           [instA] instD [instB; instE; instC]).
  - reflexivity.
  - intros y [<- | []]. discriminate.
  - reflexivity.
Defined.

(** Identifiers are made from the current size of the registry, so they
    can repeat: in a balancer constructed on two or more addresses, once
    the first address is removed the next instance added gets the
    identifier the last constructed instance already has. *)
Theorem added_instance_repeats_an_identifier :
  forall (cfg : Config) (name first : string) (rest : list string) (o : PartialOptions)
         (nowFor : nat -> Z) (u : string) (w : Q) (now : Z),
    rest <> [] ->
    exists kept added,
      instances (addInstance u w now
                   (snd (removeInstance first (new cfg name (first :: rest) o nowFor))))
        !! (length rest - 1)%nat = Some kept /\
      instances (addInstance u w now
                   (snd (removeInstance first (new cfg name (first :: rest) o nowFor))))
        !! length rest = Some added /\
      url added = u /\
      id kept = id added.
Proof.
  intros cfg name first rest o nowFor u w now Hne.
  assert (Hrem : removeInstance first (new cfg name (first :: rest) o nowFor)
                 = (true,
                    set_instances
                      (imap (fun index url0 =>
                               freshInstance name (S index) url0 1 (nowFor (S index))) rest)
                      (new cfg name (first :: rest) o nowFor))).
  { unfold removeInstance, new; cbn [instances]. rewrite imap_cons.
    cbn [findIndex freshInstance url]. rewrite String.eqb_refl. reflexivity. }
  rewrite Hrem. cbn [snd]. unfold addInstance; cbn [instances set_instances serviceName new].
  rewrite length_imap.
  assert (Hlen : (0 < length rest)%nat) by (destruct rest; [congruence | simpl; lia]).
  destruct (rest !! (length rest - 1)%nat) as [lastUrl |] eqn:El;
    [| apply lookup_ge_None in El; lia].
  eexists. eexists. split; [| split; [| split]].
  - rewrite lookup_app_l by (rewrite length_imap; lia).
    rewrite list_lookup_imap, El. reflexivity.
  - rewrite lookup_app_r by (rewrite length_imap; lia).
    rewrite length_imap, Nat.sub_diag. reflexivity.
  - reflexivity.
  - cbn [freshInstance id]. replace (S (length rest - 1)) with (length rest) by lia.
    reflexivity.
Qed.

Lemma added_instance_repeats_an_identifier_witness :
  exists kept added,
    instances (addInstance "http://c:1" 1 9
                 (snd (removeInstance "http://a:1"
                         (new {| cfg_strategy := "round-robin"; cfg_retryAttempts := 3;
                                 cfg_retryDelay := 1000; cfg_healthCheckInterval := 30000;
                                 cfg_healthCheckTimeout := 5000 |}
                              "content" ["http://a:1"; "http://b:1"]%string
                              {| p_strategy := None; p_healthCheckInterval := None;
                                 p_healthCheckTimeout := None; p_retryAttempts := None;
                                 p_retryDelay := None |}
                              (fun _ => 0)))))
      !! (length ["http://b:1"%string] - 1)%nat = Some kept /\
    instances (addInstance "http://c:1" 1 9
                 (snd (removeInstance "http://a:1"
                         (new {| cfg_strategy := "round-robin"; cfg_retryAttempts := 3;
                                 cfg_retryDelay := 1000; cfg_healthCheckInterval := 30000;
                                 cfg_healthCheckTimeout := 5000 |}
                              "content" ["http://a:1"; "http://b:1"]%string
                              {| p_strategy := None; p_healthCheckInterval := None;
                                 p_healthCheckTimeout := None; p_retryAttempts := None;
                                 p_retryDelay := None |}
                              (fun _ => 0)))))
      !! length ["http://b:1"%string] = Some added /\
    url added = "http://c:1"%string /\
    id kept = id added.
Proof.
  apply (added_instance_repeats_an_identifier _ "content" "http://a:1" ["http://b:1"%string]).
  discriminate.
Defined.

End AdministrationFacts.

(** ** Load balancer: what each strategy selects *)

Section StrategyFacts.

Import LoadBalancer.

Lemma fold_least_first_minimum (rest : list ServiceInstance) :
  forall (acc : ServiceInstance) (pre post : list ServiceInstance),
    (forall y, List.In y pre -> currentConnections acc < currentConnections y) ->
    (forall y, List.In y post -> currentConnections acc <= currentConnections y) ->
    exists before after,
      pre ++ acc :: post ++ rest
        = before
            ++ fold_left
                 (fun prev current =>
                    if currentConnections prev <=? currentConnections current
                    then prev else current)
                 rest acc
            :: after /\
      (forall y, List.In y before ->
                 currentConnections
                   (fold_left
                      (fun prev current =>
                         if currentConnections prev <=? currentConnections current
                         then prev else current)
                      rest acc) < currentConnections y) /\
      (forall y, List.In y after ->
                 currentConnections
                   (fold_left
                      (fun prev current =>
                         if currentConnections prev <=? currentConnections current
                         then prev else current)
                      rest acc) <= currentConnections y).
Proof.
  induction rest as [| cur rest IH]; intros acc pre post Hpre Hpost; cbn [fold_left].
  - exists pre, post. rewrite app_nil_r. repeat split; assumption.
  - destruct (Z.leb_spec (currentConnections acc) (currentConnections cur)) as [Hle | Hlt].
    + destruct (IH acc pre (post ++ [cur]) Hpre) as (before & after & Heq & Hb & Ha).
      { intros y Hy. apply in_app_or in Hy as [Hy | [<- | []]]; [apply Hpost; exact Hy | exact Hle]. }
      exists before, after. rewrite <- Heq, <- !app_assoc. repeat split; assumption.
    + destruct (IH cur (pre ++ acc :: post) []) as (before & after & Heq & Hb & Ha).
      { intros y Hy. apply in_app_or in Hy as [Hy | [<- | Hy]].
        - specialize (Hpre y Hy). lia.
        - exact Hlt.
        - specialize (Hpost y Hy). lia. }
      { intros y []. }
      exists before, after. rewrite <- Heq, <- !app_assoc. repeat split; assumption.
Qed.

(** Least-connections returns a healthy instance with the fewest open
    connections, and among several of them the first in registry order:
    every healthy instance before it has strictly more connections, every
    one after it at least as many. *)
Theorem least_connections_selects_first_minimum :
  forall (lb : t) (rand : Q),
    strategy (options lb) = least_connections ->
    getHealthyInstances lb <> [] ->
    exists before picked after,
      getNextInstance rand lb = (Some picked, lb) /\
      getHealthyInstances lb = before ++ picked :: after /\
      (forall y, List.In y before -> currentConnections picked < currentConnections y) /\
      (forall y, List.In y after -> currentConnections picked <= currentConnections y).
Proof.
  intros lb rand Hs Hne. unfold getNextInstance. rewrite Hs.
  destruct (getHealthyInstances lb) as [| first rest] eqn:E; [congruence |].
  cbn [length Nat.eqb leastConnectionsSelection].
  destruct (fold_least_first_minimum rest first [] []) as (before & after & Heq & Hb & Ha);
    [intros y [] | intros y [] |].
  exists before. eexists. exists after.
  split; [reflexivity |]. split; [exact Heq |]. split; assumption.
Qed.

Lemma least_connections_selects_first_minimum_witness :
  exists before picked after,
    getNextInstance 0 (samplePool least_connections)
      = (Some picked, samplePool least_connections) /\
    getHealthyInstances (samplePool least_connections) = before ++ picked :: after /\
    (forall y, List.In y before -> currentConnections picked < currentConnections y) /\
    (forall y, List.In y after -> currentConnections picked <= currentConnections y).
Proof.
  apply (least_connections_selects_first_minimum (samplePool least_connections) 0).
  - reflexivity.
  - discriminate.
Defined.






(** With weights 0.1, 0.2 and 0.3 and the draw 0.5 the total is
    0.6000000000000001 and the product 0.30000000000000004; subtracting
    0.1 and 0.2 leaves 2.7755575615628914e-17, which is positive, so the
    third instance is selected.  In exact arithmetic the product 0.3 is
    within the cumulative weight of the first two. *)
Example rounded_draw_selects_the_third :
  weightedSelection (1 # 2) [tenthA; tenthB; tenthC] = Some tenthC
  /\ Binary64.mul (1 # 2)
       (fold_left (fun sum instance => Binary64.add sum (weight instance))
                  [tenthA; tenthB; tenthC] 0%Q)
     = (1351079888211149 # 4503599627370496)%Q
  /\ ((1 # 2) * ((1 # 10) + (2 # 10) + (3 # 10)) <= (1 # 10) + (2 # 10))%Q.
Proof.
  split; [vm_compute; reflexivity |]. split; [vm_compute; reflexivity |].
  vm_compute. discriminate.
Qed.

Lemma selectMany_round_robin (lb : t) (rands : list Q) :
  strategy (options lb) = round_robin ->
  getHealthyInstances lb <> [] ->
  forall c : nat,
    selectMany rands (set_currentIndex c lb) =
      (map (fun j => nth_error (getHealthyInstances lb)
                               ((c + j) mod length (getHealthyInstances lb))%nat)
           (seq 0 (length rands)),
       set_currentIndex
         (match rands with
          | [] => c
          | _ :: _ => ((c + length rands) mod length (getHealthyInstances lb))%nat
          end) lb).
Proof.
  intros Hs Hne. induction rands as [| r rands IH]; intros c.
  - reflexivity.
  - cbn [selectMany length].
    rewrite (roundRobin_step r (set_currentIndex c lb));
      [| left; exact Hs | rewrite healthy_of_set_currentIndex; exact Hne].
    rewrite healthy_of_set_currentIndex. cbn [currentIndex set_currentIndex].
    change (set_currentIndex ((c + 1) mod length (getHealthyInstances lb))
              (set_currentIndex c lb))
      with (set_currentIndex ((c + 1) mod length (getHealthyInstances lb)) lb).
    rewrite IH. cbn [seq map]. rewrite Nat.add_0_r. f_equal.
    + f_equal. rewrite <- seq_shift, map_map. apply map_ext. intros j.
      rewrite Nat.Div0.add_mod_idemp_l. f_equal. f_equal. lia.
    + f_equal. destruct rands as [| r' rands'].
      * cbn [length]. reflexivity.
      * rewrite Nat.Div0.add_mod_idemp_l. f_equal. cbn [length]. lia.
Qed.

Lemma rotation_by_lookup {A : Type} (h : list A) (c : nat) :
  h <> [] ->
  map (fun j => nth_error h ((c + j) mod length h)%nat) (seq 0 (length h))
    = map Some (rotate c h).
Proof.
  intros Hne.
  assert (Hn : (0 < length h)%nat) by (destruct h; [congruence | simpl; lia]).
  pose proof (Nat.mod_upper_bound c (length h) ltac:(lia)) as Hc.
  unfold rotate. apply nth_error_ext. intros i.
  rewrite !nth_error_map, nth_error_seq.
  destruct (Nat.ltb_spec i (length h)) as [Hi | Hi]; cbn [option_map Nat.add].
  - rewrite <- (Nat.Div0.add_mod_idemp_l c i (length h)).
    destruct (Nat.lt_ge_cases i (length h - c mod length h)) as [Hlow | Hhigh].
    + rewrite nth_error_app1 by (rewrite length_skipn; lia).
      rewrite nth_error_skipn, Nat.mod_small by lia.
      destruct (nth_error h (c mod length h + i)) eqn:E; [reflexivity |].
      apply nth_error_None in E. lia.
    + rewrite nth_error_app2 by (rewrite length_skipn; lia).
      rewrite length_skipn, nth_error_firstn.
      assert (Hmod : ((c mod length h + i) mod length h
                      = i - (length h - c mod length h))%nat).
      { symmetry. apply (Nat.mod_unique _ (length h) 1); lia. }
      rewrite Hmod.
      destruct (Nat.ltb_spec (i - (length h - c mod length h)) (c mod length h)); [| lia].
      destruct (nth_error h (i - (length h - c mod length h))) eqn:E; [reflexivity |].
      apply nth_error_None in E. lia.
  - symmetry. replace (nth_error _ i) with (@None A); [reflexivity |].
    symmetry. apply nth_error_None.
    rewrite length_app, length_skipn, length_firstn. lia.
Qed.

(** One round of round-robin is a rotation of the healthy instances: as
    many consecutive selections as there are healthy instances return them
    in registry order starting at the cursor, each exactly once, and leave
    the cursor where the round started. *)
Theorem round_robin_round_is_a_rotation :
  forall (lb : t) (rands : list Q),
    strategy (options lb) = round_robin ->
    getHealthyInstances lb <> [] ->
    length rands = length (getHealthyInstances lb) ->
    fst (selectMany rands lb)
      = map Some (rotate (currentIndex lb) (getHealthyInstances lb)) /\
    Permutation (rotate (currentIndex lb) (getHealthyInstances lb)) (getHealthyInstances lb) /\
    currentIndex (snd (selectMany rands lb))
      = (currentIndex lb mod length (getHealthyInstances lb))%nat /\
    instances (snd (selectMany rands lb)) = instances lb.
Proof.
  intros lb rands Hs Hne Hlen.
  assert (Hlb : lb = set_currentIndex (currentIndex lb) lb) by (destruct lb; reflexivity).
  pose proof (selectMany_round_robin lb rands Hs Hne (currentIndex lb)) as Hrun.
  rewrite <- Hlb in Hrun. rewrite Hrun. cbn [fst snd].
  split; [| split; [| split]].
  - rewrite Hlen. apply rotation_by_lookup. exact Hne.
  - unfold rotate. rewrite Permutation_app_comm. rewrite firstn_skipn. reflexivity.
  - destruct rands as [| r rands'].
    + simpl in Hlen. destruct (getHealthyInstances lb); [congruence | discriminate].
    + cbn [currentIndex set_currentIndex]. rewrite Hlen.
      rewrite <- Nat.Div0.add_mod_idemp_r, Nat.Div0.mod_same, Nat.add_0_r.
      reflexivity.
  - reflexivity.
Qed.

Lemma round_robin_round_is_a_rotation_witness :
  fst (selectMany [0; 0; 0]%Q (set_currentIndex 2 (samplePool round_robin)))
    = map Some (rotate 2 [instA; instB; instC]) /\
  Permutation (rotate 2 [instA; instB; instC]) [instA; instB; instC] /\
  currentIndex (snd (selectMany [0; 0; 0]%Q (set_currentIndex 2 (samplePool round_robin))))
    = 2%nat /\
  instances (snd (selectMany [0; 0; 0]%Q (set_currentIndex 2 (samplePool round_robin))))
    = instances (samplePool round_robin).
Proof.
  apply (round_robin_round_is_a_rotation (set_currentIndex 2 (samplePool round_robin))
           [0; 0; 0]%Q).
  - reflexivity.
  - discriminate.
  - reflexivity.
Defined.

End StrategyFacts.

(** ** Load balancer: requests with retry *)

Section PositionFacts.

Import LoadBalancer.

Lemma healthyPositions_views_gen (l : list ServiceInstance) :
  forall f : nat -> ServiceInstance -> nat * ServiceInstance,
    (forall i x, snd (f i x) = x) ->
    map snd (List.filter (fun candidate => is_healthy (snd candidate)) (imap f l))
      = List.filter is_healthy l.
Proof.
  induction l as [| x l IH]; intros f Hf; [reflexivity |].
  rewrite imap_cons. cbn [List.filter]. rewrite Hf.
  destruct (is_healthy x); cbn [map]; rewrite ?Hf, IH; try reflexivity;
    intros i y; apply Hf.
Qed.

Lemma healthyPositions_views (lb : t) :
  map snd (healthyPositions lb) = getHealthyInstances lb.
Proof. apply healthyPositions_views_gen. reflexivity. Qed.

Lemma healthyPositions_lookup (lb : t) (index : nat) (instance : ServiceInstance) :
  List.In (index, instance) (healthyPositions lb) ->
  instances lb !! index = Some instance /\ is_healthy instance = true.
Proof.
  unfold healthyPositions. intros H. apply filter_In in H as [Hin Hh].
  split; [| exact Hh].
  apply list_elem_of_In in Hin. apply elem_of_lookup_imap_1 in Hin as (i & y & Heq & Hy).
  inversion Heq; subst. exact Hy.
Qed.

Section PickFacts.

Context {A : Type}.
Variable view : A -> ServiceInstance.

Lemma pickLeast_fold_In (rest : list A) :
  forall first,
    List.In
      (fold_left
         (fun prev current =>
            if currentConnections (view prev) <=? currentConnections (view current)
            then prev else current)
         rest first)
      (first :: rest).
Proof.
  induction rest as [| x rest IH]; intros first; cbn [fold_left].
  - left; reflexivity.
  - destruct (currentConnections (view first) <=? currentConnections (view x)).
    + destruct (IH first) as [H | H]; [left; exact H | right; right; exact H].
    + right. apply IH.
Qed.

Lemma pickScan_In (candidates : list A) :
  forall remaining x, pickScan view remaining candidates = Some x -> List.In x candidates.
Proof.
  induction candidates as [| c rest IH]; intros remaining x H; cbn [pickScan] in H.
  - discriminate.
  - destruct (Qle_bool (Binary64.sub remaining (weight (view c))) 0).
    + inversion H; subst. left; reflexivity.
    + right. eapply IH; exact H.
Qed.

(** Whatever a strategy returns is one of the candidates. *)
Lemma pick_In (s : LoadBalancingStrategy) (cursor : nat) (rand : Q) (candidates : list A)
    (x : A) :
  pick view s cursor rand candidates = Some x -> List.In x candidates.
Proof.
  destruct s; cbn [pick]; intros H.
  - eapply nth_error_In; exact H.
  - destruct candidates as [| first rest]; [discriminate |].
    cbn [pickLeast] in H. inversion H. apply pickLeast_fold_In.
  - unfold pickWeighted in H.
    destruct (pickScan view _ candidates) as [y |] eqn:E.
    + inversion H; subst. eapply pickScan_In; exact E.
    + eapply nth_error_In; exact H.
  - unfold pickRandom in H.
    destruct (_ <? 0); [discriminate |]. eapply nth_error_In; exact H.
  - eapply nth_error_In; exact H.
Qed.

Lemma pickLeast_fold_view (rest : list A) :
  forall first,
    view (fold_left
            (fun prev current =>
               if currentConnections (view prev) <=? currentConnections (view current)
               then prev else current)
            rest first)
    = fold_left
        (fun prev current =>
           if currentConnections prev <=? currentConnections current then prev else current)
        (map view rest) (view first).
Proof.
  induction rest as [| x rest IH]; intros first; cbn [fold_left map]; [reflexivity |].
  destruct (currentConnections (view first) <=? currentConnections (view x)); apply IH.
Qed.

Lemma pickScan_view (candidates : list A) :
  forall remaining,
    option_map view (pickScan view remaining candidates)
      = weightedScan remaining (map view candidates).
Proof.
  induction candidates as [| c rest IH]; intros remaining; cbn [pickScan weightedScan map];
    [reflexivity |].
  destruct (Qle_bool (Binary64.sub remaining (weight (view c))) 0); [reflexivity | apply IH].
Qed.

Lemma total_weight_view (candidates : list A) :
  forall a,
    fold_left (fun sum candidate => Binary64.add sum (weight (view candidate))) candidates a
      = fold_left (fun sum instance => Binary64.add sum (weight instance)) (map view candidates) a.
Proof.
  induction candidates as [| c rest IH]; intros a; cbn [fold_left map];
    [reflexivity | apply IH].
Qed.

(** Selecting among candidates and then looking at the instance is
    selecting among the instances. *)
Lemma pick_view (s : LoadBalancingStrategy) (cursor : nat) (rand : Q) (candidates : list A) :
  candidates <> [] ->
  option_map view (pick view s cursor rand candidates)
    = match s with
      | round_robin | undeclared _ =>
          nth_error (map view candidates) (cursor mod length (map view candidates))%nat
      | least_connections => leastConnectionsSelection (map view candidates)
      | weighted => weightedSelection rand (map view candidates)
      | random => randomSelection rand (map view candidates)
      end.
Proof.
  intros Hne. destruct s; cbn [pick].
  - rewrite length_map. symmetry. apply nth_error_map.
  - destruct candidates as [| first rest]; [congruence |].
    cbn [pickLeast leastConnectionsSelection map option_map].
    rewrite pickLeast_fold_view. reflexivity.
  - unfold pickWeighted, weightedSelection.
    rewrite <- total_weight_view, <- pickScan_view.
    destruct (pickScan view _ candidates); cbn [option_map]; [reflexivity |].
    symmetry. apply nth_error_map.
  - unfold pickRandom, randomSelection. rewrite length_map.
    destruct (_ <? 0); [reflexivity |]. symmetry. apply nth_error_map.
  - rewrite length_map. symmetry. apply nth_error_map.
Qed.

End PickFacts.

(** [getNextPositioned] is [getNextInstance] with the position added. *)
Lemma getNextPositioned_instance (rand : Q) (lb : t) :
  getNextInstance rand lb
    = (option_map snd (fst (getNextPositioned rand lb)), snd (getNextPositioned rand lb)).
Proof.
  unfold getNextInstance, getNextPositioned.
  rewrite <- (healthyPositions_views lb), length_map.
  destruct (Nat.eqb_spec (length (healthyPositions lb)) 0) as [E | E]; [reflexivity |].
  cbn [fst snd].
  rewrite (pick_view snd) by (destruct (healthyPositions lb); [simpl in E; lia | discriminate]).
  destruct (strategy (options lb)); unfold roundRobinSelection;
    rewrite ?length_map; reflexivity.
Qed.

Lemma getNextPositioned_position (rand : Q) (lb lb1 : t) (index : nat)
    (instance : ServiceInstance) :
  getNextPositioned rand lb = (Some (index, instance), lb1) ->
  instances lb !! index = Some instance /\ is_healthy instance = true /\
  instances lb1 = instances lb /\ serviceName lb1 = serviceName lb /\
  options lb1 = options lb.
Proof.
  unfold getNextPositioned.
  destruct (length (healthyPositions lb) =? 0)%nat; [discriminate |].
  intros H. inversion H as [[Hpick Hlb]].
  apply pick_In in Hpick. apply healthyPositions_lookup in Hpick as [Hi Hh].
  split; [exact Hi |]. split; [exact Hh |].
  destruct (strategy (options lb)); repeat split.
Qed.

Lemma getNextPositioned_none (rand : Q) (lb lb1 : t) :
  getNextPositioned rand lb = (None, lb1) ->
  instances lb1 = instances lb /\ serviceName lb1 = serviceName lb /\
  options lb1 = options lb.
Proof.
  unfold getNextPositioned.
  destruct (length (healthyPositions lb) =? 0)%nat.
  - intros H. inversion H. repeat split.
  - intros H. inversion H. destruct (strategy (options lb)); repeat split.
Qed.

End PositionFacts.

Section RequestFacts.

Import LoadBalancer.

Context {W R : Type}.
Variable clock : W -> Z.
Variable axios : string -> Z -> W -> (Error + R) * W.
Variable delay : Z -> W -> W.
Variable randOf : Z -> Q.

Lemma writeAt_fields (index : nat) (f : ServiceInstance -> ServiceInstance) (lb : t) :
  instances (writeAt index f lb) = alter f index (instances lb) /\
  serviceName (writeAt index f lb) = serviceName lb /\
  options (writeAt index f lb) = options lb /\
  currentIndex (writeAt index f lb) = currentIndex lb.
Proof. repeat split. Qed.

(** The decrement undoes the increment. *)
Lemma writeAt_inc_dec (index : nat) (lb : t) :
  writeAt index (fun i => set_connections (currentConnections i - 1) i)
          (writeAt index (fun i => set_connections (currentConnections i + 1) i) lb)
  = lb.
Proof.
  unfold writeAt; cbn [instances set_instances serviceName currentIndex options].
  rewrite list_alter_alter_eq, list_alter_id.
  - destruct lb; reflexivity.
  - intros [i u h wt c]; unfold set_connections; cbn. f_equal. lia.
Qed.

Lemma keptOrMarked_refl (x : ServiceInstance) : keptOrMarked x x.
Proof. unfold keptOrMarked. repeat split. left. reflexivity. Qed.

Lemma keptOrMarked_trans (x y z : ServiceInstance) :
  keptOrMarked x y -> keptOrMarked y z -> keptOrMarked x z.
Proof.
  unfold keptOrMarked.
  intros (H1 & H2 & H3 & H4 & H5 & H6 & H7 & H8) (K1 & K2 & K3 & K4 & K5 & K6 & K7 & K8).
  repeat split; try congruence.
  destruct K8 as [K8 | K8]; [| right; exact K8].
  destruct H8 as [H8 | H8]; [left; congruence | right; congruence].
Qed.

Lemma keptOrMarked_mark (text : string) (now : Z) (x : ServiceInstance) :
  keptOrMarked x (markInstanceUnhealthy text now x).
Proof. unfold keptOrMarked, markInstanceUnhealthy. cbn. repeat split. right. reflexivity. Qed.

Lemma Forall2_keptOrMarked_refl (l : list ServiceInstance) : Forall2 keptOrMarked l l.
Proof. induction l; constructor; [apply keptOrMarked_refl | assumption]. Qed.

Lemma Forall2_keptOrMarked_trans (l1 : list ServiceInstance) :
  forall l2 l3,
    Forall2 keptOrMarked l1 l2 -> Forall2 keptOrMarked l2 l3 -> Forall2 keptOrMarked l1 l3.
Proof.
  induction l1 as [| x l1 IH]; intros l2 l3 H12 H23.
  - inversion H12; subst. inversion H23; subst. constructor.
  - inversion H12; subst. inversion H23; subst. constructor.
    + eapply keptOrMarked_trans; eassumption.
    + eapply IH; eassumption.
Qed.

Lemma Forall2_keptOrMarked_alter (text : string) (now : Z) (l : list ServiceInstance) :
  forall index, Forall2 keptOrMarked l (alter (markInstanceUnhealthy text now) index l).
Proof.
  induction l as [| x l IH]; intros [| index]; cbn; constructor;
    try apply keptOrMarked_refl; try apply keptOrMarked_mark;
    try apply Forall2_keptOrMarked_refl. apply IH.
Qed.

Lemma attemptsFrom_frame (fuel : nat) :
  forall (attempt retries : Z) (requestUrl : string) (lastError : option Error)
         (lb : t) (w : W),
    Forall2 keptOrMarked (instances lb)
      (instances (snd (fst (attemptsFrom clock axios delay randOf fuel attempt retries
                              requestUrl lastError lb w)))) /\
    serviceName (snd (fst (attemptsFrom clock axios delay randOf fuel attempt retries
                             requestUrl lastError lb w))) = serviceName lb /\
    options (snd (fst (attemptsFrom clock axios delay randOf fuel attempt retries
                         requestUrl lastError lb w))) = options lb.
Proof.
  induction fuel as [| fuel IH]; intros attempt retries requestUrl lastError lb w.
  - cbn. split; [apply Forall2_keptOrMarked_refl | split; reflexivity].
  - cbn [attemptsFrom].
    destruct (getNextPositioned (randOf attempt) lb) as [[[index instance] |] lb1] eqn:Hsel.
    + apply getNextPositioned_position in Hsel as (Hi & Hh & Hinst & Hname & Hopt).
      destruct (axios (url instance +:+ requestUrl) (healthCheckTimeout (options lb)) w)
        as [[e | response] w1].
      * rewrite writeAt_inc_dec.
        set (lb4 := if isConnectionError e
                    then writeAt index (markInstanceUnhealthy (message e) (clock w1)) lb1
                    else lb1).
        assert (H4 : Forall2 keptOrMarked (instances lb) (instances lb4) /\
                     serviceName lb4 = serviceName lb /\ options lb4 = options lb).
        { subst lb4. destruct (isConnectionError e).
          - cbn [writeAt instances set_instances serviceName options]. rewrite Hinst.
            split; [apply Forall2_keptOrMarked_alter | split; assumption].
          - rewrite Hinst. split; [apply Forall2_keptOrMarked_refl | split; assumption]. }
        destruct H4 as (H4 & Hn4 & Ho4).
        destruct (attempt =? retries).
        -- cbn [fst snd]. repeat split; assumption.
        -- destruct (IH (attempt + 1) retries requestUrl (Some e) lb4
                        (delay (retryDelay (options lb) * 2 ^ attempt) w1)) as (F & N & O).
           split; [eapply Forall2_keptOrMarked_trans; eassumption |].
           split; congruence.
      * rewrite writeAt_inc_dec. cbn [fst snd]. rewrite Hinst.
        split; [apply Forall2_keptOrMarked_refl | split; assumption].
    + apply getNextPositioned_none in Hsel as (Hinst & Hname & Hopt).
      cbn [fst snd]. rewrite Hinst.
      split; [apply Forall2_keptOrMarked_refl | split; assumption].
Qed.

(** [execute] leaks no connection count and rewrites no registry entry:
    when it returns or throws, the registry has the same instances in the
    same order with the same identifier, address, weight and connection
    count; the only change an instance can show is that it has been marked
    unhealthy. *)
Theorem execute_only_marks_unhealthy :
  forall (requestUrl : string) (maxRetries : option Z) (lb : t) (w : W),
    Forall2 keptOrMarked (instances lb)
      (instances (snd (fst (execute clock axios delay randOf requestUrl maxRetries lb w)))) /\
    map currentConnections
        (instances (snd (fst (execute clock axios delay randOf requestUrl maxRetries lb w))))
      = map currentConnections (instances lb) /\
    length (instances (snd (fst (execute clock axios delay randOf requestUrl maxRetries lb w))))
      = length (instances lb).
Proof.
  intros requestUrl maxRetries lb w. unfold execute.
  destruct (attemptsFrom_frame
              (Z.to_nat (match maxRetries with
                         | Some r => r
                         | None => retryAttempts (options lb)
                         end + 1))
              0 (match maxRetries with Some r => r | None => retryAttempts (options lb) end)
              requestUrl None lb w) as (F & _ & _).
  split; [exact F |].
  clear - F. induction F as [| x y l l' Hxy _ IH]; [split; reflexivity |].
  destruct IH as [IHc IHl]. cbn [map length]. split.
  - f_equal; [| exact IHc]. destruct Hxy as (_ & _ & _ & Hc & _). exact Hc.
  - f_equal. exact IHl.
Qed.

End RequestFacts.

Section RetryFacts.

Import LoadBalancer.

Context {W R : Type}.
Variable clock : W -> Z.
Variable axios : string -> Z -> W -> (Error + R) * W.
Variable delay : Z -> W -> W.
Variable randOf : Z -> Q.

Lemma healthyPositions_nil (lb : t) :
  getHealthyInstances lb = [] -> healthyPositions lb = [].
Proof.
  intros H. rewrite <- healthyPositions_views in H.
  destruct (healthyPositions lb); [reflexivity | discriminate].
Qed.

(** [execute] fails fast.  With a negative retry count the loop body never
    runs and no request is made; otherwise, with no healthy instance, it
    throws "No healthy instances available" at once: no request is sent,
    no delay is taken, the balancer is left as it was. *)
Theorem execute_fails_fast :
  forall (requestUrl : string) (maxRetries : option Z) (lb : t) (w : W),
    (retriesOf maxRetries lb < 0 ->
     execute clock axios delay randOf requestUrl maxRetries lb w
       = (inl (new_Error ("Request failed after "
                          +:+ show_int (retriesOf maxRetries lb + 1) +:+ " attempts")),
          lb, w)) /\
    (0 <= retriesOf maxRetries lb -> getHealthyInstances lb = [] ->
     execute clock axios delay randOf requestUrl maxRetries lb w
       = (inl (noHealthyInstances lb), lb, w)).
Proof.
  intros requestUrl maxRetries lb w. unfold execute. fold (retriesOf maxRetries lb). split.
  - intros Hneg. replace (Z.to_nat (retriesOf maxRetries lb + 1)) with 0%nat by lia.
    reflexivity.
  - intros Hpos Hnone.
    destruct (Z.to_nat (retriesOf maxRetries lb + 1)) as [| fuel] eqn:Ef; [lia |].
    cbn [attemptsFrom]. unfold getNextPositioned.
    rewrite (healthyPositions_nil lb Hnone). reflexivity.
Qed.

Lemma healthy_count_after_mark (text : string) (now : Z) (l : list ServiceInstance) :
  forall (index : nat) (x : ServiceInstance),
    l !! index = Some x -> is_healthy x = true ->
    S (length (List.filter is_healthy (alter (markInstanceUnhealthy text now) index l)))
      = length (List.filter is_healthy l).
Proof.
  induction l as [| y l IH]; intros [| index] x Hx Hh; cbn in Hx; try discriminate.
  - inversion Hx; subst. cbn [alter list_alter List.filter].
    change (is_healthy (markInstanceUnhealthy text now x)) with false.
    rewrite Hh. reflexivity.
  - cbn [alter list_alter List.filter].
    destruct (is_healthy y); cbn [length]; rewrite <- (IH index x Hx Hh); reflexivity.
Qed.

Lemma getNextPositioned_some (rand : Q) (lb : t) :
  (0 <= rand)%Q -> (rand < 1)%Q -> getHealthyInstances lb <> [] ->
  exists index instance lb1,
    getNextPositioned rand lb = (Some (index, instance), lb1).
Proof.
  intros H0 H1 Hne.
  destruct (getNextInstance_selectsFrom rand lb H0 H1 Hne) as (x & Hx & _).
  rewrite getNextPositioned_instance in Hx. cbn [fst] in Hx.
  destruct (getNextPositioned rand lb) as [[[index instance] |] lb1]; [| discriminate].
  exists index, instance, lb1. reflexivity.
Qed.

(** When every request meets a connection-class failure, each attempt
    takes a healthy instance out of the selection. *)
Lemma attemptsFrom_all_refused (fuel : nat) :
  (forall u t w, exists e w1, axios u t w = (inl e, w1) /\ isConnectionError e = true) ->
  (forall a, (0 <= randOf a)%Q /\ (randOf a < 1)%Q) ->
  forall (attempt retries : Z) (requestUrl : string) (lastError : option Error)
         (lb : t) (w : W),
    0 <= attempt -> attempt <= retries ->
    fuel = Z.to_nat (retries - attempt + 1) ->
    (length (getHealthyInstances
               (snd (fst (attemptsFrom clock axios delay randOf fuel attempt retries
                            requestUrl lastError lb w))))
     = length (getHealthyInstances lb) - Nat.min (length (getHealthyInstances lb)) fuel)%nat /\
    ((length (getHealthyInstances lb) < fuel)%nat ->
     fst (fst (attemptsFrom clock axios delay randOf fuel attempt retries
                 requestUrl lastError lb w)) = inl (noHealthyInstances lb)) /\
    ((fuel <= length (getHealthyInstances lb))%nat ->
     exists e,
       fst (fst (attemptsFrom clock axios delay randOf fuel attempt retries
                   requestUrl lastError lb w)) = inl e /\
       isConnectionError e = true).
Proof.
  intros Hrefused Hrand.
  induction fuel as [| fuel IH];
    intros attempt retries requestUrl lastError lb w Ha Hr Hfuel; [lia |].
  cbn [attemptsFrom].
  destruct (getHealthyInstances lb) as [| h0 hs] eqn:Hh.
  - unfold getNextPositioned. rewrite (healthyPositions_nil lb Hh). cbn [length Nat.eqb fst snd].
    rewrite ?Hh. cbn [length]. repeat split; intros; try reflexivity; lia.
  - destruct (Hrand attempt) as [H0 H1].
    destruct (getNextPositioned_some (randOf attempt) lb H0 H1) as (index & instance & lb1 & Hsel);
      [rewrite Hh; discriminate |].
    rewrite Hsel.
    apply getNextPositioned_position in Hsel as (Hi & Hhealthy & Hinst & Hname & Hopt).
    destruct (Hrefused (url instance +:+ requestUrl) (healthCheckTimeout (options lb)) w)
      as (e & w1 & Hax & Hconn).
    rewrite Hax, writeAt_inc_dec, Hconn.
    set (lb4 := writeAt index (markInstanceUnhealthy (message e) (clock w1)) lb1).
    assert (Hcount : S (length (getHealthyInstances lb4)) = length (getHealthyInstances lb)).
    { subst lb4. unfold getHealthyInstances at 1.
      cbn [writeAt instances set_instances]. rewrite Hinst.
      apply (healthy_count_after_mark _ _ _ index instance Hi Hhealthy). }
    assert (Hname4 : noHealthyInstances lb4 = noHealthyInstances lb).
    { subst lb4. unfold noHealthyInstances. cbn [writeAt serviceName set_instances].
      rewrite Hname. reflexivity. }
    rewrite Hh in Hcount. cbn [length] in Hcount.
    destruct (Z.eqb_spec attempt retries) as [Heq | Hneq].
    + assert (fuel = 0%nat) by lia. subst fuel. cbn [fst snd length].
      repeat split; [lia | lia |]. intros _. exists e. split; [reflexivity | exact Hconn].
    + destruct (IH (attempt + 1) retries requestUrl (Some e) lb4
                   (delay (retryDelay (options lb) * 2 ^ attempt) w1)) as (Hlen & Hlow & Hhigh);
        [lia | lia | lia |].
      cbn [length]. rewrite Hlen. repeat split.
      * lia.
      * intros Hlt. rewrite Hlow by lia. rewrite Hname4. reflexivity.
      * intros Hge. apply Hhigh. lia.
Qed.

(** A connection-class failure is never retried on the same instance.
    When every request is refused (or times out, or meets a 5xx), each
    attempt marks the instance it used unhealthy, so [execute] uses as many
    distinct healthy instances as it makes attempts: with [h] healthy
    instances and [retries + 1] attempts allowed, [h - min h (retries + 1)]
    stay healthy; if [h <= retries] the instances run out first and the
    error thrown is "No healthy instances available", otherwise it is the
    last connection error. *)
Theorem execute_retries_on_another_instance :
  forall (requestUrl : string) (maxRetries : option Z) (lb : t) (w : W),
    (forall u t w0, exists e w1, axios u t w0 = (inl e, w1) /\ isConnectionError e = true) ->
    (forall a, (0 <= randOf a)%Q /\ (randOf a < 1)%Q) ->
    0 <= retriesOf maxRetries lb ->
    (length (getHealthyInstances
               (snd (fst (execute clock axios delay randOf requestUrl maxRetries lb w))))
     = length (getHealthyInstances lb)
       - Nat.min (length (getHealthyInstances lb)) (Z.to_nat (retriesOf maxRetries lb + 1)))%nat /\
    (Z.of_nat (length (getHealthyInstances lb)) <= retriesOf maxRetries lb ->
     fst (fst (execute clock axios delay randOf requestUrl maxRetries lb w))
       = inl (noHealthyInstances lb)) /\
    (retriesOf maxRetries lb < Z.of_nat (length (getHealthyInstances lb)) ->
     exists e,
       fst (fst (execute clock axios delay randOf requestUrl maxRetries lb w)) = inl e /\
       isConnectionError e = true).
Proof.
  intros requestUrl maxRetries lb w Hrefused Hrand Hpos.
  unfold execute. fold (retriesOf maxRetries lb).
  destruct (attemptsFrom_all_refused (Z.to_nat (retriesOf maxRetries lb + 1)) Hrefused Hrand
              0 (retriesOf maxRetries lb) requestUrl None lb w)
    as (Hlen & Hlow & Hhigh); [lia | lia | f_equal; lia |].
  split; [exact Hlen |]. split.
  - intros Hle. apply Hlow. lia.
  - intros Hlt. apply Hhigh. lia.
Qed.

(** The request goes to the instance [getNextInstance] selects, under the
    balancer's health-check timeout; when it succeeds [execute] returns the
    response and leaves the balancer as that one selection left it. *)
Theorem execute_serves_from_selected_instance :
  forall (requestUrl : string) (maxRetries : option Z) (lb : t) (w w1 : W)
         (instance : ServiceInstance) (response : R),
    0 <= retriesOf maxRetries lb ->
    fst (getNextInstance (randOf 0) lb) = Some instance ->
    axios (url instance +:+ requestUrl) (healthCheckTimeout (options lb)) w
      = (inr response, w1) ->
    execute clock axios delay randOf requestUrl maxRetries lb w
      = (inr response, snd (getNextInstance (randOf 0) lb), w1).
Proof.
  intros requestUrl maxRetries lb w w1 instance response Hpos Hsel Hax.
  unfold execute. fold (retriesOf maxRetries lb).
  destruct (Z.to_nat (retriesOf maxRetries lb + 1)) as [| fuel] eqn:Ef; [lia |].
  cbn [attemptsFrom].
  rewrite getNextPositioned_instance in Hsel |- *. cbn [fst snd] in Hsel |- *.
  destruct (getNextPositioned (randOf 0) lb) as [[[index picked] |] lb1]; [| discriminate].
  cbn [fst snd option_map] in Hsel |- *. inversion Hsel; subst picked.
  rewrite Hax, writeAt_inc_dec. reflexivity.
Qed.

(** Failures that are not connection-class (a 4xx answer, for one) are
    retried as well but cost the instance nothing: when every request
    fails that way, [execute] throws such an error and the registry holds
    exactly the instances it held, all as healthy as before. *)
Theorem execute_keeps_health_on_other_errors :
  forall (requestUrl : string) (maxRetries : option Z) (lb : t) (w : W),
    (forall u t w0, exists e w1, axios u t w0 = (inl e, w1) /\ isConnectionError e = false) ->
    (forall a, (0 <= randOf a)%Q /\ (randOf a < 1)%Q) ->
    0 <= retriesOf maxRetries lb ->
    getHealthyInstances lb <> [] ->
    instances (snd (fst (execute clock axios delay randOf requestUrl maxRetries lb w)))
      = instances lb /\
    exists e,
      fst (fst (execute clock axios delay randOf requestUrl maxRetries lb w)) = inl e /\
      isConnectionError e = false.
Proof.
  intros requestUrl maxRetries lb w Hother Hrand Hpos Hne.
  unfold execute. fold (retriesOf maxRetries lb).
  assert (Hgen : forall fuel attempt lastError (lb0 : t) (w0 : W),
             0 <= attempt -> attempt <= retriesOf maxRetries lb ->
             fuel = Z.to_nat (retriesOf maxRetries lb - attempt + 1) ->
             instances lb0 = instances lb ->
             instances (snd (fst (attemptsFrom clock axios delay randOf fuel attempt
                                    (retriesOf maxRetries lb) requestUrl lastError lb0 w0)))
               = instances lb /\
             exists e,
               fst (fst (attemptsFrom clock axios delay randOf fuel attempt
                           (retriesOf maxRetries lb) requestUrl lastError lb0 w0)) = inl e /\
               isConnectionError e = false).
  { induction fuel as [| fuel IH]; intros attempt lastError lb0 w0 Ha Hr Hf Hi0; [lia |].
    cbn [attemptsFrom].
    destruct (Hrand attempt) as [H0 H1].
    destruct (getNextPositioned_some (randOf attempt) lb0 H0 H1)
      as (index & picked & lb1 & Hsel).
    { unfold getHealthyInstances in *. rewrite Hi0. exact Hne. }
    rewrite Hsel.
    apply getNextPositioned_position in Hsel as (_ & _ & Hinst & _ & _).
    destruct (Hother (url picked +:+ requestUrl) (healthCheckTimeout (options lb0)) w0)
      as (e & w1 & Hax & Hconn).
    rewrite Hax, writeAt_inc_dec, Hconn.
    destruct (Z.eqb_spec attempt (retriesOf maxRetries lb)) as [Heq | Hneq].
    - cbn [fst snd]. split; [congruence |]. exists e. split; [reflexivity | exact Hconn].
    - apply IH; [lia | lia | lia | congruence]. }
  apply Hgen; [lia | lia | f_equal; lia | reflexivity].
Qed.

Lemma attemptsFrom_budget (fuel : nat) :
  forall (attempt retries : Z) (requestUrl : string) (lastError : option Error)
         (lb : t) (m : Metered W),
    0 <= attempt -> attempt <= retries ->
    fuel = Z.to_nat (retries - attempt + 1) ->
    0 <= retryDelay (options lb) ->
    (requestsSent
       (snd (attemptsFrom (fun m0 => clock (world m0)) (meteredAxios axios)
               (meteredDelay delay) randOf fuel attempt retries requestUrl lastError lb m))
     <= requestsSent m + fuel)%nat /\
    waited m
      <= waited
           (snd (attemptsFrom (fun m0 => clock (world m0)) (meteredAxios axios)
                   (meteredDelay delay) randOf fuel attempt retries requestUrl lastError lb m))
      <= waited m + retryDelay (options lb) * (2 ^ retries - 2 ^ attempt).
Proof.
  induction fuel as [| fuel IH];
    intros attempt retries requestUrl lastError lb m Ha Hr Hf Hd; [lia |].
  assert (Hpow : 2 ^ attempt <= 2 ^ retries) by (apply Z.pow_le_mono_r; lia).
  assert (Hslack : 0 <= retryDelay (options lb) * (2 ^ retries - 2 ^ attempt))
    by (apply Z.mul_nonneg_nonneg; lia).
  cbn [attemptsFrom].
  destruct (getNextPositioned (randOf attempt) lb) as [[[index instance] |] lb1] eqn:Hsel.
  - apply getNextPositioned_position in Hsel as (_ & _ & _ & _ & Hopt).
    unfold meteredAxios.
    destruct (axios (url instance +:+ requestUrl) (healthCheckTimeout (options lb)) (world m))
      as [[e | response] w1]; cbn [fst snd requestsSent waited].
    + rewrite writeAt_inc_dec.
      set (lb4 := if isConnectionError e then _ else lb1).
      assert (Ho4 : options lb4 = options lb)
        by (subst lb4; destruct (isConnectionError e); exact Hopt).
      destruct (Z.eqb_spec attempt retries) as [Heq | Hneq].
      * cbn [fst snd requestsSent waited]. split; lia.
      * destruct (IH (attempt + 1) retries requestUrl (Some e) lb4
                     (meteredDelay delay (retryDelay (options lb) * 2 ^ attempt)
                        {| world := w1; requestsSent := S (requestsSent m);
                           waited := waited m |}))
          as (Hreq & Hlo & Hhi); [lia | lia | lia | rewrite Ho4; exact Hd |].
        cbn [meteredDelay requestsSent waited world] in Hreq, Hlo, Hhi.
        unfold meteredAxios in Hreq, Hlo, Hhi.
        rewrite Ho4 in Hhi.
        assert (Hsucc : 2 ^ (attempt + 1) = 2 * 2 ^ attempt)
          by (rewrite Z.pow_add_r by lia; lia).
        assert (Hnonneg : 0 <= retryDelay (options lb) * 2 ^ attempt)
          by (apply Z.mul_nonneg_nonneg; lia).
        split; [lia |]. split; [lia |]. rewrite Hsucc in Hhi. lia.
    + split; lia.
  - cbn [fst snd]. split; lia.
Qed.

(** [execute] stays within its budget: it sends at most [retries + 1]
    requests, and with a retry delay that is not negative the back-off it
    waits in total is at most [retryDelay * (2 ^ retries - 1)]
    milliseconds, the sum of the doubling delays between attempts. *)
Theorem execute_stays_within_budget :
  forall (requestUrl : string) (maxRetries : option Z) (lb : t) (w : W),
    0 <= retriesOf maxRetries lb ->
    0 <= retryDelay (options lb) ->
    (requestsSent
       (snd (execute (fun m0 => clock (world m0)) (meteredAxios axios) (meteredDelay delay)
                     randOf requestUrl maxRetries lb
                     {| world := w; requestsSent := 0; waited := 0 |}))
     <= Z.to_nat (retriesOf maxRetries lb + 1))%nat /\
    0 <= waited
           (snd (execute (fun m0 => clock (world m0)) (meteredAxios axios) (meteredDelay delay)
                         randOf requestUrl maxRetries lb
                         {| world := w; requestsSent := 0; waited := 0 |}))
      <= retryDelay (options lb) * (2 ^ retriesOf maxRetries lb - 1).
Proof.
  intros requestUrl maxRetries lb w Hpos Hd.
  unfold execute. fold (retriesOf maxRetries lb).
  destruct (attemptsFrom_budget (Z.to_nat (retriesOf maxRetries lb + 1)) 0
              (retriesOf maxRetries lb) requestUrl None lb
              {| world := w; requestsSent := 0; waited := 0 |})
    as (Hreq & Hlo & Hhi); [lia | lia | f_equal; lia | exact Hd |].
  cbn [requestsSent waited] in Hreq, Hlo, Hhi. split; [lia |].
  change (2 ^ 0) with 1 in Hhi. lia.
Qed.

End RetryFacts.

Section RetryScenario.

Import LoadBalancer.

Lemma execute_fails_fast_witness :
  execute clockOf (fun (_ : string) (_ : Z) (w : Z) => (inr tt, w + 5)) (fun (ms : Z) (w : Z) => (w + ms)%Z)
          (fun _ => 0%Q) "/v1/titles" (Some 3)
          (set_instances [instD; instE] (samplePool round_robin)) 100
  = (inl (noHealthyInstances (samplePool round_robin)),
     set_instances [instD; instE] (samplePool round_robin), 100).
Proof.
  apply (execute_fails_fast clockOf (fun (_ : string) (_ : Z) (w : Z) => (inr tt, w + 5))
           (fun (ms : Z) (w : Z) => (w + ms)%Z) (fun _ => 0%Q) "/v1/titles" (Some 3)
           (set_instances [instD; instE] (samplePool round_robin)) 100).
  - simpl. lia.
  - reflexivity.
Defined.

Lemma execute_retries_on_another_instance_witness :
  length (getHealthyInstances
            (snd (fst (execute clockOf (fun (_ : string) (_ : Z) (w : Z) => refusing w)
                               (fun (ms : Z) (w : Z) => (w + ms)%Z) (fun _ => 0%Q) "/v1/titles" (Some 5)
                               (samplePool round_robin) 100)))) = 0%nat /\
  fst (fst (execute clockOf (fun (_ : string) (_ : Z) (w : Z) => refusing w)
                    (fun (ms : Z) (w : Z) => (w + ms)%Z) (fun _ => 0%Q) "/v1/titles" (Some 5)
                    (samplePool round_robin) 100))
    = inl (noHealthyInstances (samplePool round_robin)).
Proof.
  destruct (execute_retries_on_another_instance clockOf
              (fun (_ : string) (_ : Z) (w : Z) => refusing w)
              (fun (ms : Z) (w : Z) => (w + ms)%Z) (fun _ => 0%Q) "/v1/titles" (Some 5)
              (samplePool round_robin) 100) as (Hlen & Hlow & _).
  - intros u t w0. eexists. eexists. split; reflexivity.
  - intros a. split; [unfold Qle | unfold Qlt]; simpl; lia.
  - simpl. lia.
  - split; [exact Hlen | apply Hlow; simpl; lia].
Defined.

(** The same balancer against a backend that answers: the first healthy
    instance serves the request and only the cursor moves. *)
Example execute_first_attempt_succeeds :
  execute clockOf (fun (_ : string) (_ : Z) (w : Z) => answering w)
          (fun (ms : Z) (w : Z) => (w + ms)%Z) (fun _ => 0%Q) "/v1/titles" None
          (samplePool round_robin) 100
  = (inr tt, set_currentIndex 1 (samplePool round_robin), 105).
Proof. reflexivity. Qed.

Lemma execute_serves_from_selected_instance_witness :
  execute clockOf (fun (_ : string) (_ : Z) (w : Z) => answering w)
          (fun (ms : Z) (w : Z) => (w + ms)%Z) (fun _ => 0%Q) "/v1/titles" (Some 2)
          (samplePool least_connections) 100
  = (inr tt, snd (getNextInstance 0 (samplePool least_connections)), 105).
Proof.
  apply (execute_serves_from_selected_instance clockOf
           (fun (_ : string) (_ : Z) (w : Z) => answering w)
           (fun (ms : Z) (w : Z) => (w + ms)%Z) (fun _ => 0%Q) "/v1/titles" (Some 2)
           (samplePool least_connections) 100 105 instB tt).
  - simpl. lia.
  - reflexivity.
  - reflexivity.
Defined.

Lemma execute_keeps_health_on_other_errors_witness :
  instances (snd (fst (execute clockOf
                         (fun (_ : string) (_ : Z) (w : Z) =>
                            (inl (mkError "Request failed with status code 404"
                                          (Some "ERR_BAD_REQUEST"%string) (Some 404)) : Error + unit,
                             w + 5))
                         (fun (ms : Z) (w : Z) => (w + ms)%Z) (fun _ => 0%Q) "/v1/titles" (Some 2)
                         (samplePool round_robin) 100)))
    = instances (samplePool round_robin) /\
  exists e,
    fst (fst (execute clockOf
                (fun (_ : string) (_ : Z) (w : Z) =>
                   (inl (mkError "Request failed with status code 404"
                                 (Some "ERR_BAD_REQUEST"%string) (Some 404)) : Error + unit,
                    w + 5))
                (fun (ms : Z) (w : Z) => (w + ms)%Z) (fun _ => 0%Q) "/v1/titles" (Some 2)
                (samplePool round_robin) 100)) = inl e /\
    isConnectionError e = false.
Proof.
  apply (execute_keeps_health_on_other_errors clockOf
           (fun (_ : string) (_ : Z) (w : Z) =>
              (inl (mkError "Request failed with status code 404"
                            (Some "ERR_BAD_REQUEST"%string) (Some 404)) : Error + unit,
               w + 5))
           (fun (ms : Z) (w : Z) => (w + ms)%Z) (fun _ => 0%Q) "/v1/titles" (Some 2)
           (samplePool round_robin) 100).
  - intros u t w0. eexists. eexists. split; reflexivity.
  - intros a. split; [unfold Qle | unfold Qlt]; simpl; lia.
  - simpl. lia.
  - discriminate.
Defined.

Lemma execute_stays_within_budget_witness :
  (requestsSent
     (snd (execute (fun m0 => clockOf (world m0))
                   (meteredAxios (fun (_ : string) (_ : Z) (w : Z) => refusing w))
                   (meteredDelay (fun (ms : Z) (w : Z) => (w + ms)%Z)) (fun _ => 0%Q) "/v1/titles" (Some 1%Z)
                   (samplePool round_robin)
                   {| world := 100%Z; requestsSent := 0; waited := 0%Z |}))
   <= Z.to_nat (1 + 1))%nat /\
  0 <= waited
         (snd (execute (fun m0 => clockOf (world m0))
                       (meteredAxios (fun (_ : string) (_ : Z) (w : Z) => refusing w))
                       (meteredDelay (fun (ms : Z) (w : Z) => (w + ms)%Z)) (fun _ => 0%Q) "/v1/titles" (Some 1%Z)
                       (samplePool round_robin)
                       {| world := 100%Z; requestsSent := 0; waited := 0%Z |}))
    <= 1000 * (2 ^ 1 - 1).
Proof.
  apply (execute_stays_within_budget clockOf (fun (_ : string) (_ : Z) (w : Z) => refusing w)
           (fun (ms : Z) (w : Z) => (w + ms)%Z) (fun _ => 0%Q) "/v1/titles" (Some 1%Z)
           (samplePool round_robin) 100); simpl; lia.
Defined.

Example two_refusals_wait_once :
  snd (execute (fun m0 => clockOf (world m0))
               (meteredAxios (fun (_ : string) (_ : Z) (w : Z) => refusing w))
               (meteredDelay (fun (ms : Z) (w : Z) => (w + ms)%Z)) (fun _ => 0%Q) "/v1/titles" (Some 1)
               (samplePool round_robin)
               {| world := 100; requestsSent := 0; waited := 0 |})
  = {| world := 1110; requestsSent := 2; waited := 1000 |}.
Proof. reflexivity. Qed.

End RetryScenario.

(** ** Rate-limit store: counting, restart, reset and decrement *)

Section StoreFacts.

Import RedisStore.

Lemma increment_count (store : t) (key : string) (windowMs now : Z)
    (db : gmap string Redis.Entry) :
  client store = true ->
  countOf (fst (increment store key windowMs now db))
    = Some (match Redis.get now (prefix store +:+ key) db with
            | Some old => if Redis.value old + 1 =? 0 then 1 else Redis.value old + 1
            | None => 1
            end).
Proof.
  intros Hc. rewrite (increment_connected store key windowMs now db Hc). cbn [fst countOf count].
  unfold Redis.INCR. destruct (Redis.get now (prefix store +:+ key) db); reflexivity.
Qed.

Lemma increment_entry (store : t) (key : string) (windowMs now : Z)
    (db : gmap string Redis.Entry) :
  client store = true ->
  snd (increment store key windowMs now db) !! (prefix store +:+ key)
    = Some {| Redis.value := match Redis.get now (prefix store +:+ key) db with
                             | Some old => Redis.value old + 1
                             | None => 1
                             end;
              Redis.expireAt := Some (now + Math_ceil (inject_Z windowMs / 1000) * 1000) |}.
Proof.
  intros Hc. rewrite (increment_connected store key windowMs now db Hc). cbn [snd].
  destruct (INCR_entry now (prefix store +:+ key) db) as [e [He [Hlive [_ Hval]]]].
  unfold Redis.EXPIRE, Redis.get at 1. rewrite He, Hlive. cbn [snd].
  rewrite lookup_insert_eq, Hval. reflexivity.
Qed.

(** The window slides with every request.  For a key that is absent or
    holds a count that is not negative, an increment at [now1] reports a
    count [c]; the next increment of the key reports [c + 1] if it comes
    before [now1] plus the window (in whole seconds, rounded up), and
    starts again at 1 if it comes at or after that time: a caller is back
    at 1 only after a full window without requests. *)
Theorem next_increment_counts_on_or_restarts :
  forall (store : t) (key : string) (windowMs now1 now2 : Z) (db : gmap string Redis.Entry),
    client store = true ->
    (forall old, Redis.get now1 (prefix store +:+ key) db = Some old -> 0 <= Redis.value old) ->
    exists c,
      0 < c /\
      countOf (fst (increment store key windowMs now1 db)) = Some c /\
      (now2 < now1 + Math_ceil (inject_Z windowMs / 1000) * 1000 ->
       countOf (fst (increment store key windowMs now2
                       (snd (increment store key windowMs now1 db)))) = Some (c + 1)) /\
      (now1 + Math_ceil (inject_Z windowMs / 1000) * 1000 <= now2 ->
       countOf (fst (increment store key windowMs now2
                       (snd (increment store key windowMs now1 db)))) = Some 1).
Proof.
  intros store key windowMs now1 now2 db Hc Hnonneg.
  pose proof (increment_entry store key windowMs now1 db Hc) as Hentry.
  rewrite (increment_count store key windowMs now1 db Hc).
  rewrite (increment_count store key windowMs now2 _ Hc).
  set (until := now1 + Math_ceil (inject_Z windowMs / 1000) * 1000) in *.
  set (stored := match Redis.get now1 (prefix store +:+ key) db with
                 | Some old => Redis.value old + 1
                 | None => 1
                 end).
  assert (Hstored : 0 < stored).
  { subst stored.
    destruct (Redis.get now1 (prefix store +:+ key) db) as [old |] eqn:Eold; [| lia].
    specialize (Hnonneg old eq_refl). lia. }
  assert (Hfirst : match Redis.get now1 (prefix store +:+ key) db with
                   | Some old => if Redis.value old + 1 =? 0 then 1 else Redis.value old + 1
                   | None => 1
                   end = stored).
  { subst stored.
    destruct (Redis.get now1 (prefix store +:+ key) db) as [old |] eqn:Eold; [| reflexivity].
    specialize (Hnonneg old eq_refl).
    destruct (Z.eqb_spec (Redis.value old + 1) 0); [lia | reflexivity]. }
  assert (Hentry' : snd (increment store key windowMs now1 db) !! (prefix store +:+ key)
                    = Some {| Redis.value := stored; Redis.expireAt := Some until |}).
  { rewrite Hentry. subst stored.
    destruct (Redis.get now1 (prefix store +:+ key) db); reflexivity. }
  assert (Hget : Redis.get now2 (prefix store +:+ key) (snd (increment store key windowMs now1 db))
                 = if now2 <? until
                   then Some {| Redis.value := stored; Redis.expireAt := Some until |}
                   else None).
  { unfold Redis.get. rewrite Hentry'. unfold Redis.live; cbn [Redis.expireAt].
    reflexivity. }
  rewrite Hget, Hfirst.
  exists stored. split; [exact Hstored |]. split; [reflexivity |].
  split; intros Hwhen; destruct (Z.ltb_spec now2 until); try lia; try reflexivity.
  cbn [Redis.value].
  destruct (Z.eqb_spec (stored + 1) 0); [lia | reflexivity].
Qed.

Lemma next_increment_counts_on_or_restarts_witness :
  exists c,
    0 < c /\
    countOf (fst (increment sampleStore "user:42" 60000 1000 afterFirst)) = Some c /\
    (2000 < 1000 + Math_ceil (inject_Z 60000 / 1000) * 1000 ->
     countOf (fst (increment sampleStore "user:42" 60000 2000
                     (snd (increment sampleStore "user:42" 60000 1000 afterFirst))))
       = Some (c + 1)) /\
    (1000 + Math_ceil (inject_Z 60000 / 1000) * 1000 <= 2000 ->
     countOf (fst (increment sampleStore "user:42" 60000 2000
                     (snd (increment sampleStore "user:42" 60000 1000 afterFirst))))
       = Some 1).
Proof.
  apply (next_increment_counts_on_or_restarts sampleStore "user:42" 60000 1000 2000 afterFirst).
  - reflexivity.
  - intros old Hold. vm_compute in Hold. inversion Hold; subst. simpl. lia.
Defined.

(** A stray decrement shows in the counts: on a key that is absent,
    [decrement] leaves -1, and the two increments that follow both
    report 1. *)
Example counts_after_a_stray_decrement :
  countOf (fst (increment sampleStore "user:7" 60000 0
                  (decrement sampleStore "user:7" 0 ∅))) = Some 1 /\
  countOf (fst (increment sampleStore "user:7" 60000 1
                  (snd (increment sampleStore "user:7" 60000 0
                          (decrement sampleStore "user:7" 0 ∅))))) = Some 1.
Proof. split; vm_compute; reflexivity. Qed.




(** Five increments in one window report 1 to 5.  A decrement within the
    window makes the next increment report 5 again; a decrement after the
    window has run out makes it report 1, and the one after that 1 as
    well. *)
Example decrement_within_and_after_the_window :
  let five := fold_left (fun db now => snd (increment sampleStore "user:9" 60000 now db))
                        [0; 100; 200; 300] ∅ in
  countOf (fst (increment sampleStore "user:9" 60000 400 five)) = Some 5 /\
  countOf (fst (increment sampleStore "user:9" 60000 600
                  (decrement sampleStore "user:9" 500
                     (snd (increment sampleStore "user:9" 60000 400 five))))) = Some 5 /\
  countOf (fst (increment sampleStore "user:9" 60000 70500
                  (decrement sampleStore "user:9" 70000
                     (snd (increment sampleStore "user:9" 60000 400 five))))) = Some 1 /\
  countOf (fst (increment sampleStore "user:9" 60000 70600
                  (snd (increment sampleStore "user:9" 60000 70500
                          (decrement sampleStore "user:9" 70000
                             (snd (increment sampleStore "user:9" 60000 400 five)))))))
    = Some 1.
Proof. repeat split; vm_compute; reflexivity. Qed.

End StoreFacts.

(** ** Monitoring service: aggregates *)

Section AggregateFacts.

Import MonitoringService.

Lemma insertAscending_In (x y : Q) (l : list Q) :
  In x (insertAscending y l) <-> x = y \/ In x l.
Proof.
  induction l as [| z l IH]; cbn [insertAscending].
  - cbn [In]. intuition congruence.
  - destruct (Qle_bool y z); cbn [In]; [| rewrite IH]; intuition congruence.
Qed.

Lemma sortAscending_In (x : Q) (l : list Q) : In x (sortAscending l) <-> In x l.
Proof.
  induction l as [| y l IH]; cbn [sortAscending fold_right In]; [tauto |].
  fold (sortAscending l). rewrite insertAscending_In, IH. intuition congruence.
Qed.

Lemma insertAscending_length (x : Q) (l : list Q) :
  length (insertAscending x l) = S (length l).
Proof.
  induction l as [| z l IH]; cbn [insertAscending]; [reflexivity |].
  destruct (Qle_bool x z); cbn [length]; [| rewrite IH]; reflexivity.
Qed.

Lemma sortAscending_length (l : list Q) : length (sortAscending l) = length l.
Proof.
  induction l as [| y l IH]; [reflexivity |].
  cbn [sortAscending fold_right]. fold (sortAscending l).
  rewrite insertAscending_length, IH. reflexivity.
Qed.

Lemma insertAscending_sorted (x : Q) (l : list Q) :
  StronglySorted Qle l -> StronglySorted Qle (insertAscending x l).
Proof.
  induction 1 as [| z l Hl IH Hz]; cbn [insertAscending].
  - constructor; constructor.
  - destruct (Qle_bool x z) eqn:E.
    + apply Qle_bool_iff in E. constructor; [constructor; assumption |].
      constructor; [exact E |].
      apply List.Forall_forall. intros y Hy.
      apply Qle_trans with z; [exact E |].
      apply (proj1 (List.Forall_forall _ _) Hz y Hy).
    + assert (Hzx : (z <= x)%Q).
      { apply Qlt_le_weak, Qnot_le_lt. intros Hle.
        apply Qle_bool_iff in Hle. congruence. }
      constructor; [exact IH |].
      apply List.Forall_forall. intros y Hy.
      apply insertAscending_In in Hy. destruct Hy as [-> | Hy]; [exact Hzx |].
      apply (proj1 (List.Forall_forall _ _) Hz y Hy).
Qed.

Lemma sortAscending_sorted (l : list Q) : StronglySorted Qle (sortAscending l).
Proof.
  induction l as [| y l IH]; [constructor |].
  cbn [sortAscending fold_right]. apply insertAscending_sorted. exact IH.
Qed.

Lemma sorted_nth_le (l : list Q) :
  StronglySorted Qle l ->
  forall (i j : nat) (a b : Q),
    (i <= j)%nat -> nth_error l i = Some a -> nth_error l j = Some b -> (a <= b)%Q.
Proof.
  induction 1 as [| z l Hl IH Hz]; intros i j a b Hij Ha Hb.
  - destruct i; discriminate.
  - destruct i as [| i], j as [| j]; cbn [nth_error] in Ha, Hb.
    + injection Ha as <-. injection Hb as <-. apply Qle_refl.
    + injection Ha as <-. apply nth_error_In in Hb.
      apply (proj1 (List.Forall_forall _ _) Hz b Hb).
    + lia.
    + apply (IH i j); [lia | assumption | assumption].
Qed.

(** On a sorted array a higher percentile is not smaller. *)
Lemma calculatePercentile_mono (l : list Q) (p q : Q) (a b : Z) :
  StronglySorted Qle l -> (p <= q)%Q ->
  calculatePercentile l p = Some a -> calculatePercentile l q = Some b -> a <= b.
Proof.
  intros Hsorted Hpq. unfold calculatePercentile.
  destruct (Nat.eqb_spec (length l) 0) as [_ | Hne]; [intros [= <-] [= <-]; lia |].
  set (ip := Z.to_nat (Z.max 0 (Math_ceil (Binary64.mul (Binary64.div p 100)
                                             (inject_Z (Z.of_nat (length l)))) - 1))).
  set (iq := Z.to_nat (Z.max 0 (Math_ceil (Binary64.mul (Binary64.div q 100)
                                             (inject_Z (Z.of_nat (length l)))) - 1))).
  assert (Hidx : (ip <= iq)%nat).
  { subst ip iq. apply Z2Nat.inj_le; [lia | lia |].
    apply Z.max_le_compat_l, Z.sub_le_mono_r. unfold Math_ceil.
    apply Qceiling_resp_le. unfold Binary64.mul, Binary64.div.
    apply fl_mono. apply Qmult_le_compat_r.
    - apply fl_mono. apply Qmult_le_compat_r; [exact Hpq | discriminate].
    - change 0%Q with (inject_Z 0). rewrite <- Zle_Qle. lia. }
  destruct (nth_error l ip) as [u |] eqn:Eu; [| discriminate].
  destruct (nth_error l iq) as [v |] eqn:Ev; [| discriminate].
  intros [= <-] [= <-]. apply Math_round_mono.
  apply (sorted_nth_le l Hsorted ip iq); assumption.
Qed.

(** A percentile of at most 99 of a non-empty array is the rounding of
    one of its elements. *)
Lemma calculatePercentile_element (l : list Q) (p : Q) :
  l <> [] -> (p <= 99)%Q ->
  exists v, In v l /\ calculatePercentile l p = Some (Math_round v).
Proof.
  intros Hne Hp.
  destruct (calculatePercentile_within_99 l p Hne Hp) as [v [Hnth Hv]].
  exists v. split; [apply nth_error_In in Hnth; exact Hnth | exact Hv].
Qed.

Lemma recent_responseTime (now : Z) (requestMetrics : list RequestMetrics) (v : Q) :
  In v (sortAscending (map responseTime (recent now requestMetrics))) ->
  exists metric, In metric (recent now requestMetrics) /\ v = responseTime metric.
Proof.
  intros Hv. apply sortAscending_In, in_map_iff in Hv.
  destruct Hv as [metric [<- Hin]]. exists metric. split; [exact Hin | reflexivity].
Qed.

Lemma aggregated_summary (now : Z) (requestMetrics : list RequestMetrics) :
  let summary := responseTimeSummary (getAggregatedMetrics now requestMetrics) in
  (recent now requestMetrics = [] ->
   average summary = 0 /\ p50 summary = Some 0 /\ p95 summary = Some 0 /\
   p99 summary = Some 0) /\
  (recent now requestMetrics <> [] ->
   forall p, In p [p50 summary; p95 summary; p99 summary] ->
             exists metric, In metric (recent now requestMetrics) /\
                            p = Some (Math_round (responseTime metric))).
Proof.
  intros summary. subst summary. unfold getAggregatedMetrics.
  cbn [responseTimeSummary average p50 p95 p99].
  set (recentMetrics := recent now requestMetrics).
  set (responseTimes := sortAscending (map responseTime recentMetrics)).
  split.
  - intros Hnone. subst responseTimes. rewrite Hnone. repeat split; reflexivity.
  - intros Hsome p Hp.
    assert (Hne : responseTimes <> []).
    { intros E. apply (f_equal (@length Q)) in E. subst responseTimes.
      rewrite sortAscending_length, length_map in E.
      destruct recentMetrics; [congruence | discriminate]. }
    assert (Hany : forall q : Q, (q <= 99)%Q ->
                     exists metric, In metric recentMetrics /\
                       calculatePercentile responseTimes q = Some (Math_round (responseTime metric))).
    { intros q Hq.
      destruct (calculatePercentile_element responseTimes q Hne Hq) as [v [Hin Hv]].
      destruct (recent_responseTime now requestMetrics v Hin) as [metric [Hm ->]].
      exists metric. split; assumption. }
    cbn [In] in Hp. destruct Hp as [<- | [<- | [<- | []]]]; apply Hany; discriminate.
Qed.

(** The aggregate over the last hour.  The error count lies between 0 and
    the request count; the three percentiles are numbers and p50 <= p95 <=
    p99; without a request in the last hour the average and the three
    percentiles are 0; otherwise each percentile is the rounded response
    time of a request of the last hour. *)
Theorem aggregated_percentiles_are_ordered :
  forall (now : Z) (requestMetrics : list RequestMetrics),
    let metrics := getAggregatedMetrics now requestMetrics in
    let summary := responseTimeSummary metrics in
    requestCount metrics = Z.of_nat (length (recent now requestMetrics)) /\
    0 <= errorCount metrics <= requestCount metrics /\
    (exists a b c : Z,
        p50 summary = Some a /\ p95 summary = Some b /\ p99 summary = Some c /\
        a <= b <= c) /\
    (recent now requestMetrics = [] ->
     average summary = 0 /\ p50 summary = Some 0 /\ p95 summary = Some 0 /\
     p99 summary = Some 0) /\
    (recent now requestMetrics <> [] ->
     forall p, In p [p50 summary; p95 summary; p99 summary] ->
               exists metric, In metric (recent now requestMetrics) /\
                              p = Some (Math_round (responseTime metric))).
Proof.
  intros now requestMetrics metrics summary.
  subst summary metrics. unfold getAggregatedMetrics.
  cbn [requestCount errorCount responseTimeSummary average p50 p95 p99].
  set (recentMetrics := recent now requestMetrics).
  set (responseTimes := sortAscending (map responseTime recentMetrics)).
  assert (Hsorted : StronglySorted Qle responseTimes) by apply sortAscending_sorted.
  split; [reflexivity |]. split; [| split].
  - split; [lia |]. apply inj_le, filter_length_le.
  - destruct (calculatePercentile_some responseTimes 50) as [a Ha]; [discriminate |].
    destruct (calculatePercentile_some responseTimes 95) as [b Hb]; [discriminate |].
    destruct (calculatePercentile_some responseTimes 99) as [c Hc]; [discriminate |].
    exists a, b, c. repeat split; try assumption.
    + apply (calculatePercentile_mono responseTimes 50 95);
        [assumption | discriminate | assumption | assumption].
    + apply (calculatePercentile_mono responseTimes 95 99);
        [assumption | discriminate | assumption | assumption].
  - exact (aggregated_summary now requestMetrics).
Qed.

End AggregateFacts.

(** ** Monitoring service: health score *)

Section ScoreRangeFacts.

Import MonitoringService.

(** With every impact between 0 and 100 the weighted sum is between 0
    and 100. *)
Lemma weightedScore_range (v1 v2 v3 v4 i1 i2 i3 i4 : Q) :
  (0 <= i1 <= 100)%Q -> (0 <= i2 <= 100)%Q -> (0 <= i3 <= 100)%Q -> (0 <= i4 <= 100)%Q ->
  (0 <= weightedScore [ {| value := v1; weight := 30; impact := i1 |};
                        {| value := v2; weight := 25; impact := i2 |};
                        {| value := v3; weight := 20; impact := i3 |};
                        {| value := v4; weight := 25; impact := i4 |} ] <= 100)%Q.
Proof.
  intros [L1 U1] [L2 U2] [L3 U3] [L4 U4]. split.
  - apply Qle_trans
      with (weightedScore [ {| value := 0; weight := 30; impact := 0 |};
                            {| value := 0; weight := 25; impact := 0 |};
                            {| value := 0; weight := 20; impact := 0 |};
                            {| value := 0; weight := 25; impact := 0 |} ]);
      [vm_compute; discriminate | apply weightedScore_mono; assumption].
  - apply Qle_trans
      with (weightedScore [ {| value := 0; weight := 30; impact := 100 |};
                            {| value := 0; weight := 25; impact := 100 |};
                            {| value := 0; weight := 20; impact := 100 |};
                            {| value := 0; weight := 25; impact := 100 |} ]);
      [apply weightedScore_mono; assumption | vm_compute; discriminate].
Qed.

Lemma scoreFactors_range (e r t a : Q) :
  (0 <= e)%Q -> (0 <= r)%Q -> (0 <= t)%Q -> (0 <= a <= 100)%Q ->
  (0 <= weightedScore (scoreFactors e r t a) <= 100)%Q.
Proof.
  intros He Hr Ht Ha. unfold scoreFactors. apply weightedScore_range.
  - split; [apply Q.le_max_l |]. apply Q.max_lub; [discriminate |].
    unfold Binary64.sub, Binary64.mul.
    pose proof (fl_nonneg (e * 2) ltac:(lra)).
    apply (fl_le_Z _ 100); [cbn; lia |]. change (inject_Z 100) with 100%Q. lra.
  - split; [apply Q.le_max_l |]. apply Q.max_lub; [discriminate |].
    unfold Binary64.sub, Binary64.div.
    assert (0 <= Qmin (Binary64.fl (r / 50)) 100)%Q.
    { apply Q.min_glb; [| discriminate]. apply fl_nonneg.
      apply Qle_shift_div_l; [reflexivity | lra]. }
    apply (fl_le_Z _ 100); [cbn; lia |]. change (inject_Z 100) with 100%Q. lra.
  - split; [| apply Q.le_min_l].
    apply Q.min_glb; [discriminate |]. unfold Binary64.div. apply fl_nonneg.
    apply Qle_shift_div_l; [reflexivity | lra].
  - exact Ha.
Qed.

(** Every request that is not a server error is counted as successful, and
    every server error is an error. *)
Lemma successes_cover_non_errors (l : list RequestMetrics) :
  (length l <= length (List.filter (fun metric => (statusCode metric <? 500)%Z) l)
               + length (List.filter (fun metric => (400 <=? statusCode metric)%Z) l))%nat.
Proof.
  induction l as [| m l IH]; [reflexivity |].
  cbn [List.filter].
  destruct (Z.ltb_spec (statusCode m) 500), (Z.leb_spec 400 (statusCode m));
    cbn [length]; lia.
Qed.

Lemma errorRateOf_range (now : Z) (requestMetrics : list RequestMetrics) :
  (0 <= errorRateOf (getAggregatedMetrics now requestMetrics) <= 100)%Q.
Proof.
  unfold errorRateOf, getAggregatedMetrics. cbn [requestCount errorCount].
  destruct (Z.ltb_spec 0 (Z.of_nat (length (recent now requestMetrics)))) as [Hn | _].
  - apply percentage_of_counts; [| exact Hn].
    split; [lia |]. apply inj_le, filter_length_le.
  - split; discriminate.
Qed.

Lemma calculateAvailability_range (now : Z) (requestMetrics : list RequestMetrics) :
  (0 <= calculateAvailability now requestMetrics <= 100)%Q.
Proof.
  unfold calculateAvailability.
  destruct (Nat.eqb_spec (length (recent now requestMetrics)) 0) as [_ | Hn].
  - split; discriminate.
  - apply percentage_of_counts; [| lia].
    split; [lia |]. apply inj_le, filter_length_le.
Qed.





Lemma recent_later (t1 t2 : Z) (requestMetrics : list RequestMetrics) :
  t1 <= t2 -> recent t1 requestMetrics = [] -> recent t2 requestMetrics = [].
Proof.
  intros Ht. unfold recent.
  induction requestMetrics as [| m l IH]; [reflexivity |].
  cbn [List.filter].
  destruct (Z.leb_spec (t1 - 60 * 60 * 1000) (timestamp m)); [discriminate |].
  destruct (Z.leb_spec (t2 - 60 * 60 * 1000) (timestamp m)); [lia |].
  exact IH.
Qed.

Lemma p95_nonneg (now : Z) (requestMetrics : list RequestMetrics) (p : Z) :
  (forall metric, In metric (recent now requestMetrics) -> (0 <= responseTime metric)%Q) ->
  p95 (responseTimeSummary (getAggregatedMetrics now requestMetrics)) = Some p ->
  0 <= p.
Proof.
  intros Hnonneg Hp.
  destruct (aggregated_summary now requestMetrics) as [Hnone Hsome].
  destruct (recent now requestMetrics) as [| m l] eqn:E.
  - destruct (Hnone eq_refl) as [_ [_ [H95 _]]]. rewrite Hp in H95.
    injection H95 as ->. lia.
  - destruct (Hsome ltac:(discriminate) (Some p)) as [metric [Hin Hval]].
    { rewrite <- Hp. right; left; reflexivity. }
    injection Hval as ->.
    rewrite <- (Math_round_integer 0). apply Math_round_mono.
    apply Hnonneg. exact Hin.
Qed.

(** The health score of a gateway whose recorded response times of the last
    hour are not negative is a number between 0 and 100.  With no request
    in the last hour it is 80: the throughput factor, a fifth of the
    score, is then 0 and the other three are at their best. *)
Theorem health_score_between_0_and_100 :
  forall (tMetrics tAvailability : Z) (requestMetrics : list RequestMetrics),
    (forall metric, In metric (recent tMetrics requestMetrics) ->
                    (0 <= responseTime metric)%Q) ->
    exists hs,
      getHealthScore tMetrics tAvailability requestMetrics = Some hs /\
      0 <= score hs <= 100 /\
      (tMetrics <= tAvailability -> recent tMetrics requestMetrics = [] -> score hs = 80).
Proof.
  intros tMetrics tAvailability requestMetrics Hnonneg.
  destruct (getHealthScore_defined tMetrics tAvailability requestMetrics) as [p [Hp Hscore]].
  eexists. split; [exact Hscore |]. cbn [score].
  pose proof (p95_nonneg tMetrics requestMetrics p Hnonneg Hp) as Hp0.
  pose proof (errorRateOf_range tMetrics requestMetrics) as [He0 He1].
  pose proof (calculateAvailability_range tAvailability requestMetrics) as [Ha0 Ha1].
  set (e := errorRateOf (getAggregatedMetrics tMetrics requestMetrics)) in *.
  set (a := calculateAvailability tAvailability requestMetrics) in *.
  set (t := inject_Z (requestCount (getAggregatedMetrics tMetrics requestMetrics))).
  assert (Ht0 : (0 <= t)%Q).
  { subst t. change 0%Q with (inject_Z 0). rewrite <- Zle_Qle.
    unfold getAggregatedMetrics; cbn [requestCount]. lia. }
  assert (Hr0 : (0 <= inject_Z p)%Q).
  { change 0%Q with (inject_Z 0). rewrite <- Zle_Qle. exact Hp0. }
  set (r := inject_Z p) in *.
  assert (Hrange : (0 <= weightedScore (scoreFactors e r t a) <= 100)%Q).
  { apply scoreFactors_range; try assumption. split; assumption. }
  split; [split |].
  - apply Z.le_trans with (Math_round (inject_Z 0));
      [rewrite Math_round_integer; lia | apply Math_round_mono; apply Hrange].
  - apply Z.le_trans with (Math_round (inject_Z 100));
      [apply Math_round_mono; apply Hrange | rewrite Math_round_integer; lia].
  - intros Hclock Hidle.
    pose proof (recent_later tMetrics tAvailability requestMetrics Hclock Hidle) as Hidle'.
    subst e a t r.
    unfold getAggregatedMetrics in Hp. rewrite Hidle in Hp. injection Hp as <-.
    unfold errorRateOf, calculateAvailability, getAggregatedMetrics.
    rewrite Hidle, Hidle'. vm_compute. reflexivity.
Qed.

Lemma health_score_between_0_and_100_witness :
  exists hs,
    getHealthScore 5000 5000 troubledState = Some hs /\
    0 <= score hs <= 100 /\
    (5000 <= 5000 -> recent 5000 troubledState = [] -> score hs = 80).
Proof.
  apply (health_score_between_0_and_100 5000 5000 troubledState).
  intros metric Hin. vm_compute in Hin.
  destruct Hin as [<- | [<- | []]]; discriminate.
Defined.

Example idle_gateway_scores_80 :
  option_map score (getHealthScore 5000 5000 []) = Some 80.
Proof. vm_compute. reflexivity. Qed.

(** A negative response time is not ruled out by the service, and takes
    the score above 100. *)
Example negative_response_time_overshoots :
  option_map score
    (getHealthScore 5000 5000 (repeat (sampleRequest 1000 200 (-5000)) 4)) = Some 105.
Proof. vm_compute. reflexivity. Qed.

End ScoreRangeFacts.

(** ** Monitoring service: retention and traffic intervals *)

Section RetentionFacts.

Import MonitoringService.

Lemma filter_implied {A : Type} (keep narrow : A -> bool) (l : list A) :
  (forall x, In x l -> narrow x = true -> keep x = true) ->
  List.filter narrow (List.filter keep l) = List.filter narrow l.
Proof.
  induction l as [| x l IH]; intros Himplied; [reflexivity |].
  cbn [List.filter].
  destruct (keep x) eqn:Ekeep; cbn [List.filter].
  - rewrite IH; [reflexivity |]. intros y Hy. apply Himplied. right. exact Hy.
  - destruct (narrow x) eqn:Enarrow.
    + rewrite (Himplied x (or_introl eq_refl) Enarrow) in Ekeep. discriminate.
    + apply IH. intros y Hy. apply Himplied. right. exact Hy.
Qed.

Lemma recent_cleanup (tClean now : Z) (requestMetrics : list RequestMetrics) :
  tClean <= now ->
  recent now (cleanupOldMetrics tClean requestMetrics) = recent now requestMetrics.
Proof.
  intros Hclock. unfold recent, cleanupOldMetrics, metricsRetentionTime.
  apply filter_implied. intros metric _ Hrecent.
  apply Z.leb_le in Hrecent. apply Z.ltb_lt. lia.
Qed.

Lemma countdown_bound (k i : nat) : In i (countdown k) -> (i <= k)%nat.
Proof.
  induction k as [| k IH]; cbn [countdown In].
  - intros [<- | []]. lia.
  - intros [<- | Hin]; [lia | specialize (IH Hin); lia].
Qed.

(** The periodic cleanup removes exactly the requests recorded 24 hours or
    more before it runs, and nothing that a later reading looks at: the
    aggregate, the availability, the health score and the traffic
    intervals computed at or after the cleanup are the same with and
    without it. *)
Theorem cleanup_keeps_what_is_read :
  forall (tClean now : Z) (requestMetrics : list RequestMetrics),
    tClean <= now ->
    (forall metric,
        In metric (cleanupOldMetrics tClean requestMetrics) <->
        In metric requestMetrics /\ tClean - 24 * 60 * 60 * 1000 < timestamp metric) /\
    getAggregatedMetrics now (cleanupOldMetrics tClean requestMetrics)
      = getAggregatedMetrics now requestMetrics /\
    calculateAvailability now (cleanupOldMetrics tClean requestMetrics)
      = calculateAvailability now requestMetrics /\
    (forall tAvailability,
        tClean <= tAvailability ->
        getHealthScore now tAvailability (cleanupOldMetrics tClean requestMetrics)
          = getHealthScore now tAvailability requestMetrics) /\
    getTrafficPatterns now (cleanupOldMetrics tClean requestMetrics)
      = getTrafficPatterns now requestMetrics.
Proof.
  intros tClean now requestMetrics Hclock.
  assert (Hagg : getAggregatedMetrics now (cleanupOldMetrics tClean requestMetrics)
                 = getAggregatedMetrics now requestMetrics).
  { unfold getAggregatedMetrics. rewrite (recent_cleanup tClean now _ Hclock). reflexivity. }
  assert (Havail : forall t, tClean <= t ->
                     calculateAvailability t (cleanupOldMetrics tClean requestMetrics)
                     = calculateAvailability t requestMetrics).
  { intros t Ht. unfold calculateAvailability.
    rewrite (recent_cleanup tClean t _ Ht). reflexivity. }
  split; [| split; [| split; [| split]]].
  - intros metric. unfold cleanupOldMetrics, metricsRetentionTime.
    rewrite filter_In, Z.ltb_lt. reflexivity.
  - exact Hagg.
  - apply Havail. exact Hclock.
  - intros tAvailability Ht. unfold getHealthScore.
    rewrite Hagg, (Havail tAvailability Ht). reflexivity.
  - unfold getTrafficPatterns. apply map_ext_in. intros i Hi.
    apply countdown_bound in Hi. unfold trafficInterval.
    unfold cleanupOldMetrics, metricsRetentionTime.
    rewrite filter_implied; [reflexivity |].
    intros metric _ Hin. apply andb_true_iff in Hin. destruct Hin as [Hlo _].
    apply Z.leb_le in Hlo. apply Z.ltb_lt. lia.
Qed.

Lemma cleanup_keeps_what_is_read_witness :
  (forall metric,
      In metric (cleanupOldMetrics 90000000 (sampleRequest 1000 500 20 :: troubledState)) <->
      In metric (sampleRequest 1000 500 20 :: troubledState)
      /\ 90000000 - 24 * 60 * 60 * 1000 < timestamp metric) /\
  getAggregatedMetrics 90000500 (cleanupOldMetrics 90000000 (sampleRequest 1000 500 20 :: troubledState))
    = getAggregatedMetrics 90000500 (sampleRequest 1000 500 20 :: troubledState) /\
  calculateAvailability 90000500
      (cleanupOldMetrics 90000000 (sampleRequest 1000 500 20 :: troubledState))
    = calculateAvailability 90000500 (sampleRequest 1000 500 20 :: troubledState) /\
  (forall tAvailability,
      90000000 <= tAvailability ->
      getHealthScore 90000500 tAvailability
          (cleanupOldMetrics 90000000 (sampleRequest 1000 500 20 :: troubledState))
        = getHealthScore 90000500 tAvailability (sampleRequest 1000 500 20 :: troubledState)) /\
  getTrafficPatterns 90000500
      (cleanupOldMetrics 90000000 (sampleRequest 1000 500 20 :: troubledState))
    = getTrafficPatterns 90000500 (sampleRequest 1000 500 20 :: troubledState).
Proof.
  apply (cleanup_keeps_what_is_read 90000000 90000500
           (sampleRequest 1000 500 20 :: troubledState)).
  lia.
Defined.

(** The requests of [l] recorded in the interval from [a] to [b], [b]
    excluded, that satisfy [also]. *)
Lemma interval_split (also : RequestMetrics -> bool) (a b c : Z) (l : list RequestMetrics) :
  a <= b -> b <= c ->
  Nat.add
    (length (List.filter also
               (List.filter (fun metric => (a <=? timestamp metric) && (timestamp metric <? b)) l)))
    (length (List.filter also
               (List.filter (fun metric => (b <=? timestamp metric) && (timestamp metric <? c)) l)))
  = length (List.filter also
              (List.filter (fun metric => (a <=? timestamp metric) && (timestamp metric <? c)) l)).
Proof.
  intros Hab Hbc. induction l as [| m l IH]; [reflexivity |].
  cbn [List.filter].
  destruct (Z.leb_spec a (timestamp m)), (Z.ltb_spec (timestamp m) b),
           (Z.leb_spec b (timestamp m)), (Z.ltb_spec (timestamp m) c);
    try lia; cbn [andb List.filter]; destruct (also m); cbn [length]; lia.
Qed.

Lemma filter_all {A : Type} (l : list A) : List.filter (fun _ => true) l = l.
Proof. induction l as [| x l IH]; [reflexivity |]. cbn [List.filter]. rewrite IH. reflexivity. Qed.

(** The intervals for the counters [k], ..., 0 count, between them, the
    requests from [k] interval lengths before [now] to one after it. *)
Lemma intervals_cover (also : RequestMetrics -> bool) (now : Z) (l : list RequestMetrics)
    (k : nat) :
  fold_right Nat.add 0%nat
    (map (fun i =>
            length (List.filter also
                      (List.filter
                         (fun metric =>
                            (now - Z.of_nat i * 5 * 60 * 1000 <=? timestamp metric)
                            && (timestamp metric <? now - Z.of_nat i * 5 * 60 * 1000 + 5 * 60 * 1000))
                         l)))
         (countdown k))
  = length (List.filter also
              (List.filter
                 (fun metric =>
                    (now - Z.of_nat k * 5 * 60 * 1000 <=? timestamp metric)
                    && (timestamp metric <? now + 5 * 60 * 1000))
                 l)).
Proof.
  induction k as [| k IH].
  - cbn [countdown map fold_right]. rewrite Nat.add_0_r.
    replace (now - Z.of_nat 0 * 5 * 60 * 1000) with now by lia. reflexivity.
  - cbn [countdown map fold_right]. rewrite IH.
    replace (now - Z.of_nat (S k) * 5 * 60 * 1000 + 5 * 60 * 1000)
      with (now - Z.of_nat k * 5 * 60 * 1000) by lia.
    apply interval_split; lia.
Qed.

(** The twelve traffic intervals start five minutes apart, the first 55
    minutes before the reading and the last at the reading itself.
    Together they count each request recorded from 55 minutes before the
    reading to five minutes after it exactly once, and no other: a request
    recorded between 60 and 55 minutes before the reading is in the
    aggregate of the last hour but in none of the intervals. *)
Theorem traffic_intervals_cover_55_minutes :
  forall (now : Z) (requestMetrics : list RequestMetrics),
    map intervalTimestamp (getTrafficPatterns now requestMetrics)
      = map (fun k => now - 55 * 60 * 1000 + Z.of_nat k * 5 * 60 * 1000) (seq 0 12) /\
    fold_right Z.add 0 (map intervalRequestCount (getTrafficPatterns now requestMetrics))
      = Z.of_nat (length (List.filter
                            (fun metric => (now - 55 * 60 * 1000 <=? timestamp metric)
                                           && (timestamp metric <? now + 5 * 60 * 1000))
                            requestMetrics)) /\
    fold_right Z.add 0 (map intervalErrorCount (getTrafficPatterns now requestMetrics))
      = Z.of_nat (length (List.filter
                            (fun metric => 400 <=? statusCode metric)
                            (List.filter
                               (fun metric => (now - 55 * 60 * 1000 <=? timestamp metric)
                                              && (timestamp metric <? now + 5 * 60 * 1000))
                               requestMetrics))).
Proof.
  intros now requestMetrics.
  assert (Hsum : forall (f : nat -> nat) (l : list nat),
             fold_right Z.add 0 (map (fun i => Z.of_nat (f i)) l)
             = Z.of_nat (fold_right Nat.add 0%nat (map f l))).
  { intros f l. induction l as [| i l IH]; [reflexivity |].
    cbn [map fold_right]. rewrite IH. lia. }
  split; [| split].
  - unfold getTrafficPatterns. rewrite map_map.
    cbn [countdown seq map trafficInterval intervalTimestamp].
    repeat (apply f_equal2; [lia |]). reflexivity.
  - unfold getTrafficPatterns. rewrite map_map.
    unfold trafficInterval; cbn [intervalRequestCount].
    rewrite (Hsum (fun i =>
                     length (List.filter
                               (fun metric =>
                                  (now - Z.of_nat i * 5 * 60 * 1000 <=? timestamp metric)
                                  && (timestamp metric
                                      <? now - Z.of_nat i * 5 * 60 * 1000 + 5 * 60 * 1000))
                               requestMetrics))).
    f_equal.
    pose proof (intervals_cover (fun _ => true) now requestMetrics 11) as Hcover.
    rewrite filter_all in Hcover.
    replace (now - 55 * 60 * 1000) with (now - Z.of_nat 11 * 5 * 60 * 1000) by lia.
    rewrite <- Hcover. f_equal. apply map_ext. intros i. rewrite filter_all. reflexivity.
  - unfold getTrafficPatterns. rewrite map_map.
    unfold trafficInterval; cbn [intervalErrorCount].
    rewrite (Hsum (fun i =>
                     length (List.filter (fun metric => 400 <=? statusCode metric)
                               (List.filter
                                  (fun metric =>
                                     (now - Z.of_nat i * 5 * 60 * 1000 <=? timestamp metric)
                                     && (timestamp metric
                                         <? now - Z.of_nat i * 5 * 60 * 1000 + 5 * 60 * 1000))
                                  requestMetrics)))).
    f_equal.
    replace (now - 55 * 60 * 1000) with (now - Z.of_nat 11 * 5 * 60 * 1000) by lia.
    apply (intervals_cover (fun metric => 400 <=? statusCode metric) now requestMetrics 11).
Qed.

(** A request recorded 58 minutes before the reading: one of the last
    hour's requests, and in no interval. *)
Example request_between_55_and_60_minutes :
  requestCount (getAggregatedMetrics 3600000 [sampleRequest 120000 200 40]) = 1 /\
  map intervalRequestCount (getTrafficPatterns 3600000 [sampleRequest 120000 200 40])
    = repeat 0 12.
Proof. split; reflexivity. Qed.

End RetentionFacts.

(** ** Monitoring service: recording a request *)

Section RecordingFacts.

Import MonitoringService.

Lemma leadingDigits_zero (s : string) :
  startsWithDigit s = false -> leadingDigits s = 0%nat.
Proof. destruct s as [| c rest]; cbn; [reflexivity |]. intros ->. reflexivity. Qed.

Lemma matchNumericSegment_none (c : ascii) (rest : string) :
  matchNumericSegment (String c rest) = None ->
  isChar "/" c = false \/ startsWithDigit rest = false.
Proof.
  cbn [matchNumericSegment]. destruct (isChar "/" c); [| left; reflexivity].
  destruct rest as [| d rest]; [right; reflexivity |].
  cbn [leadingDigits startsWithDigit]. destruct (isDigit d); [discriminate | right; reflexivity].
Qed.

Lemma matchNumericSegment_blocked (c : ascii) (rest : string) :
  isChar "/" c = false \/ startsWithDigit rest = false ->
  matchNumericSegment (String c rest) = None.
Proof.
  cbn [matchNumericSegment]. intros [-> | Hrest]; [reflexivity |].
  rewrite (leadingDigits_zero rest Hrest). destruct (isChar "/" c); reflexivity.
Qed.

Lemma matchNumericSegment_positive (s : string) : matchNumericSegment s <> Some 0%nat.
Proof.
  destruct s as [| c rest]; cbn [matchNumericSegment]; [discriminate |].
  destruct (isChar "/" c); [| discriminate].
  destruct (leadingDigits rest); discriminate.
Qed.

(** A replacement does not put a digit at the head of the string. *)
Lemma replaceAll_head (matchAt : string -> option nat) (s : string) :
  startsWithDigit s = false -> startsWithDigit (replaceAll matchAt "/:id" 0 s) = false.
Proof.
  destruct s as [| c rest]; [reflexivity |].
  cbn [replaceAll startsWithDigit]. intros Hc.
  destruct (matchAt (String c rest)) as [[| n] |]; cbn; try exact Hc. reflexivity.
Qed.

Lemma placeholder_free (s : string) :
  matchesSomewhere matchNumericSegment s = false ->
  matchesSomewhere matchNumericSegment ("/:id" +:+ s) = false.
Proof. intros Hs. cbn. exact Hs. Qed.

Lemma matchesSomewhere_cons (c : ascii) (rest : string) :
  matchesSomewhere matchNumericSegment (String c rest) = false <->
  matchNumericSegment (String c rest) = None
  /\ matchesSomewhere matchNumericSegment rest = false.
Proof.
  cbn [matchesSomewhere].
  destruct (matchNumericSegment (String c rest)); intuition congruence.
Qed.

(** Replacing matches of any pattern by the placeholder creates no numeric
    segment. *)
Lemma replaceAll_keeps_free (matchAt : string -> option nat) (s : string) :
  matchesSomewhere matchNumericSegment s = false ->
  forall skip, matchesSomewhere matchNumericSegment (replaceAll matchAt "/:id" skip s) = false.
Proof.
  induction s as [| c rest IH]; intros Hfree skip; [reflexivity |].
  apply matchesSomewhere_cons in Hfree. destruct Hfree as [Hhere Hrest].
  cbn [replaceAll]. destruct skip as [| k]; [| apply IH; exact Hrest].
  assert (Hkept : matchesSomewhere matchNumericSegment
                    (String c (replaceAll matchAt "/:id" 0 rest)) = false).
  { apply matchesSomewhere_cons. split; [| apply IH; exact Hrest].
    apply matchNumericSegment_blocked.
    destruct (matchNumericSegment_none c rest Hhere) as [Hc | Hd]; [left; exact Hc |].
    right. apply replaceAll_head. exact Hd. }
  destruct (matchAt (String c rest)) as [[| n] |]; try exact Hkept.
  apply placeholder_free. apply IH. exact Hrest.
Qed.

(** Replacing the numeric segments leaves none. *)
Lemma replaceAll_numeric_free (s : string) :
  forall skip,
    matchesSomewhere matchNumericSegment (replaceAll matchNumericSegment "/:id" skip s) = false.
Proof.
  induction s as [| c rest IH]; intros skip; [reflexivity |].
  cbn [replaceAll]. destruct skip as [| k]; [| apply IH].
  destruct (matchNumericSegment (String c rest)) as [[| n] |] eqn:E.
  - exfalso. exact (matchNumericSegment_positive _ E).
  - apply placeholder_free. apply IH.
  - apply matchesSomewhere_cons. split; [| apply IH].
    apply matchNumericSegment_blocked.
    destruct (matchNumericSegment_none c rest E) as [Hc | Hd]; [left; exact Hc |].
    right. apply replaceAll_head. exact Hd.
Qed.

Lemma sanitizePath_numeric_free (path : string) :
  matchesSomewhere matchNumericSegment (sanitizePath path) = false.
Proof.
  unfold sanitizePath. apply replaceAll_keeps_free. apply replaceAll_numeric_free.
Qed.

(** No sanitized path has a numeric segment: the pattern [/\/\d+/] matches
    nowhere in the result, whatever the path, and so neither the result
    nor any of its suffixes starts with a slash followed by a digit. *)
Theorem sanitizePath_leaves_no_numeric_segment :
  forall path : string,
    matchesSomewhere matchNumericSegment (sanitizePath path) = false /\
    (forall before c d rest,
        sanitizePath path = before +:+ String c (String d rest) ->
        c = "/"%char -> isDigit d = false).
Proof.
  intros path. split; [apply sanitizePath_numeric_free |].
  pose proof (sanitizePath_numeric_free path) as Hfree.
  intros before c d rest Heq ->. rewrite Heq in Hfree. clear Heq.
  induction before as [| b before IH].
  - change (matchesSomewhere matchNumericSegment (String "/" (String d rest)) = false)
      in Hfree.
    apply matchesSomewhere_cons in Hfree. destruct Hfree as [Hhere _].
    destruct (matchNumericSegment_none _ _ Hhere) as [Hc | Hd]; [| exact Hd].
    vm_compute in Hc. discriminate.
  - apply IH. change (String b before +:+ String "/" (String d rest))
      with (String b (before +:+ String "/" (String d rest))) in Hfree.
    apply matchesSomewhere_cons in Hfree. apply Hfree.
Qed.

(** The three kinds of identifier: a number, a UUID in either case, and a
    24-digit hexadecimal identifier that starts with a letter. *)
Example sanitizePath_identifiers :
  sanitizePath "/api/v1/content/12345/episodes/7" = "/api/v1/content/:id/episodes/:id" /\
  sanitizePath "/users/3F2504E0-4F89-11D3-9A0C-0305E82C3301/profile" = "/users/:id/profile" /\
  sanitizePath "/content/beef1f77bcf86cd799439011" = "/content/:id".
Proof. repeat split; vm_compute; reflexivity. Qed.

(** The numeric pattern runs before the 24-digit one: of a hexadecimal
    identifier that starts with a digit only the leading digits are
    replaced. *)
Example sanitizePath_identifier_with_leading_digits :
  sanitizePath "/content/507f1f77bcf86cd799439011" = "/content/:idf1f77bcf86cd799439011".
Proof. vm_compute. reflexivity. Qed.

Lemma sliceLast_suffix {A : Type} (n : nat) (l : list A) :
  l = firstn (length l - n) l ++ sliceLast n l.
Proof. unfold sliceLast. symmetry. apply firstn_skipn. Qed.

(** Recording a request appends one metric, stamped with the time of the
    recording and carrying the sanitized path, and then keeps the latest
    10000 metrics: what is dropped is dropped from the front, the metric
    just recorded is always kept, and the history never grows beyond
    10000 once it is within it. *)
Theorem recordRequest_keeps_the_latest_10000 :
  forall (now : Z) (req : Request) (resStatusCode : Z) (rt : Q) (serviceName : option string)
         (requestMetrics : list RequestMetrics),
    exists (metric : RequestMetrics) (dropped kept : list RequestMetrics),
      recordRequest now req resStatusCode rt serviceName requestMetrics = kept ++ [metric] /\
      requestMetrics = dropped ++ kept /\
      length dropped = (length requestMetrics + 1 - Z.to_nat 10000)%nat /\
      length (recordRequest now req resStatusCode rt serviceName requestMetrics)
        = Nat.min (length requestMetrics + 1) (Z.to_nat 10000) /\
      timestamp metric = now /\
      statusCode metric = resStatusCode /\
      path metric = sanitizePath (req_path req).
Proof.
  intros now req resStatusCode rt serviceName requestMetrics.
  unfold recordRequest.
  set (metric := {| timestamp := now; method := req_method req;
                    path := sanitizePath (req_path req); statusCode := resStatusCode;
                    responseTime := rt; service := serviceName;
                    userId := req_user_id req |}).
  set (n := length requestMetrics).
  assert (Hcap : (0 < maxMetricsHistory)%nat) by (unfold maxMetricsHistory; lia).
  change (Z.to_nat 10000) with maxMetricsHistory.
  generalize dependent maxMetricsHistory. intros cap Hcap.
  exists metric.
  assert (Hpushed : length (requestMetrics ++ [metric]) = (n + 1)%nat)
    by (rewrite length_app; reflexivity).
  destruct (Nat.ltb_spec cap (length (requestMetrics ++ [metric]))) as [Hover | Hfits];
    rewrite Hpushed in *.
  - exists (firstn (n + 1 - cap) requestMetrics), (skipn (n + 1 - cap) requestMetrics).
    unfold sliceLast. rewrite length_app. cbn [length]. fold n.
    assert (Hwithin : (n + 1 - cap <= n)%nat) by lia.
    rewrite skipn_app.
    replace (n + 1 - cap - length requestMetrics)%nat with 0%nat by (fold n; lia).
    cbn [skipn].
    repeat split; try reflexivity.
    + symmetry. apply firstn_skipn.
    + rewrite length_firstn. fold n. lia.
    + rewrite length_app, length_skipn. cbn [length]. fold n. lia.
  - exists [], requestMetrics.
    repeat split; try reflexivity.
    + cbn [length]. lia.
    + lia.
Qed.

End RecordingFacts.

(** ** Health routes *)

Section HealthRouteFacts.

Import LoadBalancer LoadBalancerManager ProxyService HealthRoutes.













(** The manager registers every balancer under its own name, once. *)
Lemma getLoadBalancer_keeps_registered (cfg : Config) (name : string) (urls : list string)
    (o : option PartialOptions) (nowFor : nat -> Z)
    (loadBalancers : list (string * LoadBalancer.t)) :
  registered loadBalancers ->
  registered (snd (getLoadBalancer cfg name urls o nowFor loadBalancers)).
Proof.
  intros [Hnodup Hnames]. unfold getLoadBalancer.
  destruct (get name loadBalancers) as [lb |] eqn:E; cbn [snd]; [split; assumption |].
  split.
  - rewrite map_app. cbn [map fst]. apply NoDup_app. split; [exact Hnodup |].
    split; [| apply NoDup_singleton].
    intros k Hk Hk'. apply list_elem_of_singleton in Hk'. subst k.
    apply list_elem_of_In, in_map_iff in Hk. destruct Hk as [[k lb] [Hfst Hin]].
    cbn [fst] in Hfst. subst k.
    unfold get in E.
    destruct (List.find (fun entry => String.eqb (fst entry) name) loadBalancers) eqn:Efind;
      [discriminate |].
    pose proof (find_none _ _ Efind (name, lb) Hin) as Hno. cbn [fst] in Hno.
    rewrite String.eqb_refl in Hno. discriminate.
  - apply Forall_app. split; [exact Hnames |]. constructor; [reflexivity | constructor].
Qed.


(** The sample gateway is healthy; after a reset of the breaker of a
    service it does not proxy, it reports itself degraded, and that
    service unhealthy. *)
Example reset_of_an_unknown_service :
  health sampleBalancers ∅ = (200, "healthy"%string) /\
  health sampleBalancers
    (snd (CircuitBreakerManager.resetRoute default_circuitBreaker_config "contnet" ∅))
  = (503, "degraded"%string) /\
  serviceHealth "contnet" sampleBalancers
    (snd (CircuitBreakerManager.resetRoute default_circuitBreaker_config "contnet" ∅))
  = (503, "unhealthy"%string).
Proof. repeat split; vm_compute; reflexivity. Qed.

(** A request for the health of [constructor], which the gateway does not
    proxy, is answered 503 and not 404; and a reset of the breaker of
    [__proto__] or of [constructor] leaves the gateway healthy. *)
Example health_of_inherited_names :
  serviceHealth "constructor" sampleBalancers ∅ = (503, "unhealthy"%string) /\
  serviceHealth "__proto__" sampleBalancers ∅ = (503, "unhealthy"%string) /\
  serviceHealth "contnet" sampleBalancers ∅ = (404, "not_found"%string) /\
  health sampleBalancers
    (snd (CircuitBreakerManager.resetRoute default_circuitBreaker_config "__proto__" ∅))
  = (200, "healthy"%string) /\
  health sampleBalancers
    (snd (CircuitBreakerManager.resetRoute default_circuitBreaker_config "constructor" ∅))
  = (200, "healthy"%string).
Proof. repeat split; vm_compute; reflexivity. Qed.

(** With a load balancer named [__proto__] its summary becomes the
    prototype of the object: the fields of the summary are then read as
    services, a breaker named after a field that is not zero makes the
    check fail, and [GET /health] does not see the balancer. *)
Example balancer_named_proto :
  serviceHealth "__proto__" protoBalancers ∅ = (200, "healthy"%string) /\
  serviceHealth "total" protoBalancers ∅ = (503, "unhealthy"%string) /\
  serviceHealth "unhealthy" protoBalancers ∅ = (404, "not_found"%string) /\
  health protoBalancers ∅ = (200, "healthy"%string) /\
  health protoBalancers
    (snd (CircuitBreakerManager.resetRoute default_circuitBreaker_config "total" ∅))
  = (500, "unhealthy"%string) /\
  health protoBalancers
    (snd (CircuitBreakerManager.resetRoute default_circuitBreaker_config "unhealthy" ∅))
  = (503, "degraded"%string).
Proof. repeat split; vm_compute; reflexivity. Qed.

End HealthRouteFacts.
